(** * A shallow embedding of the contact directory of [hw01.py]

    The development follows the layout of the program: the exceptions the
    program signals and the state-and-exception monad its methods run in, the
    parts of the [str], [datetime] and [re] libraries the program calls, the
    field classes ([Name], [Phone], [Birthday]), [Record], [AddressBook] and
    the birthday window [is_valid_date]; then the commands, [parse_input] and
    the loop of [main].

    Conventions.
    - A Python [str] is a list of code points, [string]; a literal of the
      program is written between double quotes, any other character by its
      code point.  The classes of characters ([\d] of [re], the white space
      of [split] and of [int], the mapping of [lower]) are those of the
      Unicode database of CPython 3.11, Unicode 14.0.0.
    - Python integers are [Z]; [//] and [%] are [Z.div] and [Z.modulo]
      (both round toward minus infinity for a positive divisor).
    - A method that mutates [self] is a computation in the monad [M] over the
      state of [self]; a raised exception keeps the state reached so far, as
      in Python, where nothing is rolled back.
    - [datetime.now()] is an input of [birthdays]: the parameter [today];
      the C library behind [strftime] is an input of the formatting. *)

From Stdlib Require Import ZArith NArith List Ascii Bool Lia.
From Stdlib Require Import Sorted Permutation.
From Stdlib Require String DecimalString.
Import ListNotations.

(** ** Strings *)

Abbreviation char := N (only parsing).

Abbreviation string := (list N) (only parsing).

(** [ord(c)] for a character of a literal. *)
Definition ord (c : ascii) : char := N_of_ascii c.

(** The literals of the program hold ASCII characters only. *)
Inductive literal : Type :=
| LNil
| LCons (c : N) (s : literal).

Fixpoint literal_of_bytes (l : list Init.Byte.byte) : option literal :=
  match l with
  | [] => Some LNil
  | b :: l' =>
      let c := ord (ascii_of_byte b) in
      match literal_of_bytes l' with
      | Some s => if (c <? 128)%N then Some (LCons c s) else None
      | None => None
      end
  end.

Fixpoint bytes_of_literal (s : literal) : option (list Init.Byte.byte) :=
  match s with
  | LNil => Some []
  | LCons c s' =>
      match bytes_of_literal s' with
      | Some l =>
          if (c <? 128)%N then Some (byte_of_ascii (ascii_of_N c) :: l)
          else None
      | None => None
      end
  end.

(** A literal between double quotes is the list of its code points. *)
Definition text : Type := list N.

Declare Scope str_scope.
Delimit Scope str_scope with str.

#[warnings="-via-type-mismatch,-via-type-remapping"]
String Notation text literal_of_bytes bytes_of_literal
  (via literal mapping [[nil] => LNil, [cons] => LCons]) : str_scope.

Open Scope str_scope.
Open Scope Z_scope.

Module Str.

(** [a == b] on strings. *)
Fixpoint eqb (a b : string) : bool :=
  match a, b with
  | [], [] => true
  | x :: a', y :: b' => (x =? y)%N && eqb a' b'
  | _, _ => false
  end.

(** [str(n)] for an integer [n]. *)
Definition of_int (n : Z) : string :=
  map ord
    (String.list_ascii_of_string
       (DecimalString.NilZero.string_of_int (Z.to_int n))).

End Str.

(** ** The Unicode database, as CPython 3.11 holds it (Unicode 14.0.0) *)

Module Unicode.

Definition in_ranges (ranges : list (char * char)) (c : char) : bool :=
  existsb (fun r => (fst r <=? c) && (c <=? snd r))%N ranges.

(** The characters of the category Nd, the decimal digits, come in runs of
    ten, in the order of their values 0 to 9: the first character of each
    run. *)
Definition decimal_zeros : list char :=
  [48; 1632; 1776; 1984; 2406; 2534; 2662; 2790; 2918; 3046; 3174; 3302;
   3430; 3558; 3664; 3792; 3872; 4160; 4240; 6112; 6160; 6470; 6608; 6784;
   6800; 6992; 7088; 7232; 7248; 42528; 43216; 43264; 43472; 43504; 43600;
   44016; 65296; 66720; 68912; 69734; 69872; 69942; 70096; 70384; 70736;
   70864; 71248; 71360; 71472; 71904; 72016; 72784; 73040; 73120; 92768;
   92864; 93008; 120782; 120792; 120802; 120812; 120822; 123200; 123632;
   125264; 130032]%N.

(** [Py_UNICODE_TODECIMAL]: the value of a decimal digit. *)
Definition to_decimal (c : char) : option Z :=
  match find (fun z => (z <=? c) && (c <? z + 10))%N decimal_zeros with
  | Some z => Some (Z.of_N (c - z))
  | None => None
  end.

(** [str.isdecimal] on one character; the class [\d] of [re] on [str]. *)
Definition is_decimal (c : char) : bool :=
  match to_decimal c with Some _ => true | None => false end.

(** All the decimal digits: the ten characters of each run. *)
Definition decimal_digits : list char :=
  flat_map (fun zero => map (N.add zero) [0; 1; 2; 3; 4; 5; 6; 7; 8; 9]%N)
    decimal_zeros.

(** [Py_UNICODE_ISSPACE]: the white space of [str.isspace] and of
    [str.split]. *)
Definition space_ranges : list (char * char) :=
  [(9, 13); (28, 32); (133, 133); (160, 160); (5760, 5760); (8192, 8202);
   (8232, 8233); (8239, 8239); (8287, 8287); (12288, 12288)]%N.

Definition is_space (c : char) : bool := in_ranges space_ranges c.

(** The simple lower-case mappings: of every [step]-th character from
    [first] to [last], onto the characters from [target] on. *)
Definition lower_ranges : list (char * char * N * char) :=
  [(65, 90, 1, 97); (192, 214, 1, 224); (216, 222, 1, 248);
   (256, 302, 2, 257); (306, 310, 2, 307); (313, 327, 2, 314);
   (330, 374, 2, 331); (376, 376, 1, 255); (377, 381, 2, 378);
   (385, 385, 1, 595); (386, 388, 2, 387); (390, 390, 1, 596);
   (391, 391, 1, 392); (393, 394, 1, 598); (395, 395, 1, 396);
   (398, 398, 1, 477); (399, 399, 1, 601); (400, 400, 1, 603);
   (401, 401, 1, 402); (403, 403, 1, 608); (404, 404, 1, 611);
   (406, 406, 1, 617); (407, 407, 1, 616); (408, 408, 1, 409);
   (412, 412, 1, 623); (413, 413, 1, 626); (415, 415, 1, 629);
   (416, 420, 2, 417); (422, 422, 1, 640); (423, 423, 1, 424);
   (425, 425, 1, 643); (428, 428, 1, 429); (430, 430, 1, 648);
   (431, 431, 1, 432); (433, 434, 1, 650); (435, 437, 2, 436);
   (439, 439, 1, 658); (440, 440, 1, 441); (444, 444, 1, 445);
   (452, 452, 1, 454); (453, 453, 1, 454); (455, 455, 1, 457);
   (456, 456, 1, 457); (458, 458, 1, 460); (459, 475, 2, 460);
   (478, 494, 2, 479); (497, 497, 1, 499); (498, 500, 2, 499);
   (502, 502, 1, 405); (503, 503, 1, 447); (504, 542, 2, 505);
   (544, 544, 1, 414); (546, 562, 2, 547); (570, 570, 1, 11365);
   (571, 571, 1, 572); (573, 573, 1, 410); (574, 574, 1, 11366);
   (577, 577, 1, 578); (579, 579, 1, 384); (580, 580, 1, 649);
   (581, 581, 1, 652); (582, 590, 2, 583); (880, 882, 2, 881);
   (886, 886, 1, 887); (895, 895, 1, 1011); (902, 902, 1, 940);
   (904, 906, 1, 941); (908, 908, 1, 972); (910, 911, 1, 973);
   (913, 929, 1, 945); (931, 939, 1, 963); (975, 975, 1, 983);
   (984, 1006, 2, 985); (1012, 1012, 1, 952); (1015, 1015, 1, 1016);
   (1017, 1017, 1, 1010); (1018, 1018, 1, 1019); (1021, 1023, 1, 891);
   (1024, 1039, 1, 1104); (1040, 1071, 1, 1072); (1120, 1152, 2, 1121);
   (1162, 1214, 2, 1163); (1216, 1216, 1, 1231); (1217, 1229, 2, 1218);
   (1232, 1326, 2, 1233); (1329, 1366, 1, 1377); (4256, 4293, 1, 11520);
   (4295, 4295, 1, 11559); (4301, 4301, 1, 11565); (5024, 5103, 1, 43888);
   (5104, 5109, 1, 5112); (7312, 7354, 1, 4304); (7357, 7359, 1, 4349);
   (7680, 7828, 2, 7681); (7838, 7838, 1, 223); (7840, 7934, 2, 7841);
   (7944, 7951, 1, 7936); (7960, 7965, 1, 7952); (7976, 7983, 1, 7968);
   (7992, 7999, 1, 7984); (8008, 8013, 1, 8000); (8025, 8031, 2, 8017);
   (8040, 8047, 1, 8032); (8072, 8079, 1, 8064); (8088, 8095, 1, 8080);
   (8104, 8111, 1, 8096); (8120, 8121, 1, 8112); (8122, 8123, 1, 8048);
   (8124, 8124, 1, 8115); (8136, 8139, 1, 8050); (8140, 8140, 1, 8131);
   (8152, 8153, 1, 8144); (8154, 8155, 1, 8054); (8168, 8169, 1, 8160);
   (8170, 8171, 1, 8058); (8172, 8172, 1, 8165); (8184, 8185, 1, 8056);
   (8186, 8187, 1, 8060); (8188, 8188, 1, 8179); (8486, 8486, 1, 969);
   (8490, 8490, 1, 107); (8491, 8491, 1, 229); (8498, 8498, 1, 8526);
   (8544, 8559, 1, 8560); (8579, 8579, 1, 8580); (9398, 9423, 1, 9424);
   (11264, 11311, 1, 11312); (11360, 11360, 1, 11361);
   (11362, 11362, 1, 619); (11363, 11363, 1, 7549); (11364, 11364, 1, 637);
   (11367, 11371, 2, 11368); (11373, 11373, 1, 593);
   (11374, 11374, 1, 625); (11375, 11375, 1, 592); (11376, 11376, 1, 594);
   (11378, 11378, 1, 11379); (11381, 11381, 1, 11382);
   (11390, 11391, 1, 575); (11392, 11490, 2, 11393);
   (11499, 11501, 2, 11500); (11506, 11506, 1, 11507);
   (42560, 42604, 2, 42561); (42624, 42650, 2, 42625);
   (42786, 42798, 2, 42787); (42802, 42862, 2, 42803);
   (42873, 42875, 2, 42874); (42877, 42877, 1, 7545);
   (42878, 42886, 2, 42879); (42891, 42891, 1, 42892);
   (42893, 42893, 1, 613); (42896, 42898, 2, 42897);
   (42902, 42920, 2, 42903); (42922, 42922, 1, 614);
   (42923, 42923, 1, 604); (42924, 42924, 1, 609); (42925, 42925, 1, 620);
   (42926, 42926, 1, 618); (42928, 42928, 1, 670); (42929, 42929, 1, 647);
   (42930, 42930, 1, 669); (42931, 42931, 1, 43859);
   (42932, 42946, 2, 42933); (42948, 42948, 1, 42900);
   (42949, 42949, 1, 642); (42950, 42950, 1, 7566);
   (42951, 42953, 2, 42952); (42960, 42960, 1, 42961);
   (42966, 42968, 2, 42967); (42997, 42997, 1, 42998);
   (65313, 65338, 1, 65345); (66560, 66599, 1, 66600);
   (66736, 66771, 1, 66776); (66928, 66938, 1, 66967);
   (66940, 66954, 1, 66979); (66956, 66962, 1, 66995);
   (66964, 66965, 1, 67003); (68736, 68786, 1, 68800);
   (71840, 71871, 1, 71872); (93760, 93791, 1, 93792);
   (125184, 125217, 1, 125218)]%N.

Definition in_lower_range (c : char) (r : char * char * N * char) : bool :=
  let '(first, last, step, _) := r in
  ((first <=? c) && (c <=? last) && ((c - first) mod step =? 0))%N.

(** [_PyUnicode_ToLowerFull]: the one mapping onto more than one character
    is that of U+0130. *)
Definition to_lower_full (c : char) : string :=
  if (c =? 304)%N then [105; 775]%N
  else
    match find (in_lower_range c) lower_ranges with
    | Some (first, _, _, target) => [target + (c - first)]%N
    | None => [c]
    end.

(** The characters of a range of the table, and all the characters with a
    simple lower-case mapping. *)
Definition lower_range_chars (r : char * char * N * char) : list char :=
  let '(first, last, step, _) := r in
  map (fun i => first + step * N.of_nat i)%N
    (seq 0 (S (N.to_nat ((last - first) / step)))).

Definition lower_domain : list char :=
  flat_map lower_range_chars lower_ranges.

(** [_PyUnicode_IsCased]: the property Cased. *)
Definition cased_ranges : list (char * char) :=
  [(65, 90); (97, 122); (170, 170); (181, 181); (186, 186); (192, 214);
   (216, 246); (248, 442); (444, 447); (452, 659); (661, 696); (704, 705);
   (736, 740); (837, 837); (880, 883); (886, 887); (890, 893); (895, 895);
   (902, 902); (904, 906); (908, 908); (910, 929); (931, 1013);
   (1015, 1153); (1162, 1327); (1329, 1366); (1376, 1416); (4256, 4293);
   (4295, 4295); (4301, 4301); (4304, 4346); (4349, 4351); (5024, 5109);
   (5112, 5117); (7296, 7304); (7312, 7354); (7357, 7359); (7424, 7615);
   (7680, 7957); (7960, 7965); (7968, 8005); (8008, 8013); (8016, 8023);
   (8025, 8025); (8027, 8027); (8029, 8029); (8031, 8061); (8064, 8116);
   (8118, 8124); (8126, 8126); (8130, 8132); (8134, 8140); (8144, 8147);
   (8150, 8155); (8160, 8172); (8178, 8180); (8182, 8188); (8305, 8305);
   (8319, 8319); (8336, 8348); (8450, 8450); (8455, 8455); (8458, 8467);
   (8469, 8469); (8473, 8477); (8484, 8484); (8486, 8486); (8488, 8488);
   (8490, 8493); (8495, 8500); (8505, 8505); (8508, 8511); (8517, 8521);
   (8526, 8526); (8544, 8575); (8579, 8580); (9398, 9449); (11264, 11492);
   (11499, 11502); (11506, 11507); (11520, 11557); (11559, 11559);
   (11565, 11565); (42560, 42605); (42624, 42653); (42786, 42887);
   (42891, 42894); (42896, 42954); (42960, 42961); (42963, 42963);
   (42965, 42969); (42997, 42998); (43000, 43002); (43824, 43866);
   (43868, 43880); (43888, 43967); (64256, 64262); (64275, 64279);
   (65313, 65338); (65345, 65370); (66560, 66639); (66736, 66771);
   (66776, 66811); (66928, 66938); (66940, 66954); (66956, 66962);
   (66964, 66965); (66967, 66977); (66979, 66993); (66995, 67001);
   (67003, 67004); (67456, 67456); (67459, 67461); (67463, 67504);
   (67506, 67514); (68736, 68786); (68800, 68850); (71840, 71903);
   (93760, 93823); (119808, 119892); (119894, 119964); (119966, 119967);
   (119970, 119970); (119973, 119974); (119977, 119980); (119982, 119993);
   (119995, 119995); (119997, 120003); (120005, 120069); (120071, 120074);
   (120077, 120084); (120086, 120092); (120094, 120121); (120123, 120126);
   (120128, 120132); (120134, 120134); (120138, 120144); (120146, 120485);
   (120488, 120512); (120514, 120538); (120540, 120570); (120572, 120596);
   (120598, 120628); (120630, 120654); (120656, 120686); (120688, 120712);
   (120714, 120744); (120746, 120770); (120772, 120779); (122624, 122633);
   (122635, 122654); (125184, 125251); (127280, 127305); (127312, 127337);
   (127344, 127369)]%N.

Definition is_cased (c : char) : bool := in_ranges cased_ranges c.

(** [_PyUnicode_IsCaseIgnorable]: the property Case_Ignorable. *)
Definition case_ignorable_ranges : list (char * char) :=
  [(39, 39); (46, 46); (58, 58); (94, 94); (96, 96); (168, 168);
   (173, 173); (175, 175); (180, 180); (183, 184); (688, 879); (884, 885);
   (890, 890); (900, 901); (903, 903); (1155, 1161); (1369, 1369);
   (1375, 1375); (1425, 1469); (1471, 1471); (1473, 1474); (1476, 1477);
   (1479, 1479); (1524, 1524); (1536, 1541); (1552, 1562); (1564, 1564);
   (1600, 1600); (1611, 1631); (1648, 1648); (1750, 1757); (1759, 1768);
   (1770, 1773); (1807, 1807); (1809, 1809); (1840, 1866); (1958, 1968);
   (2027, 2037); (2042, 2042); (2045, 2045); (2070, 2093); (2137, 2139);
   (2184, 2184); (2192, 2193); (2200, 2207); (2249, 2306); (2362, 2362);
   (2364, 2364); (2369, 2376); (2381, 2381); (2385, 2391); (2402, 2403);
   (2417, 2417); (2433, 2433); (2492, 2492); (2497, 2500); (2509, 2509);
   (2530, 2531); (2558, 2558); (2561, 2562); (2620, 2620); (2625, 2626);
   (2631, 2632); (2635, 2637); (2641, 2641); (2672, 2673); (2677, 2677);
   (2689, 2690); (2748, 2748); (2753, 2757); (2759, 2760); (2765, 2765);
   (2786, 2787); (2810, 2815); (2817, 2817); (2876, 2876); (2879, 2879);
   (2881, 2884); (2893, 2893); (2901, 2902); (2914, 2915); (2946, 2946);
   (3008, 3008); (3021, 3021); (3072, 3072); (3076, 3076); (3132, 3132);
   (3134, 3136); (3142, 3144); (3146, 3149); (3157, 3158); (3170, 3171);
   (3201, 3201); (3260, 3260); (3263, 3263); (3270, 3270); (3276, 3277);
   (3298, 3299); (3328, 3329); (3387, 3388); (3393, 3396); (3405, 3405);
   (3426, 3427); (3457, 3457); (3530, 3530); (3538, 3540); (3542, 3542);
   (3633, 3633); (3636, 3642); (3654, 3662); (3761, 3761); (3764, 3772);
   (3782, 3782); (3784, 3789); (3864, 3865); (3893, 3893); (3895, 3895);
   (3897, 3897); (3953, 3966); (3968, 3972); (3974, 3975); (3981, 3991);
   (3993, 4028); (4038, 4038); (4141, 4144); (4146, 4151); (4153, 4154);
   (4157, 4158); (4184, 4185); (4190, 4192); (4209, 4212); (4226, 4226);
   (4229, 4230); (4237, 4237); (4253, 4253); (4348, 4348); (4957, 4959);
   (5906, 5908); (5938, 5939); (5970, 5971); (6002, 6003); (6068, 6069);
   (6071, 6077); (6086, 6086); (6089, 6099); (6103, 6103); (6109, 6109);
   (6155, 6159); (6211, 6211); (6277, 6278); (6313, 6313); (6432, 6434);
   (6439, 6440); (6450, 6450); (6457, 6459); (6679, 6680); (6683, 6683);
   (6742, 6742); (6744, 6750); (6752, 6752); (6754, 6754); (6757, 6764);
   (6771, 6780); (6783, 6783); (6823, 6823); (6832, 6862); (6912, 6915);
   (6964, 6964); (6966, 6970); (6972, 6972); (6978, 6978); (7019, 7027);
   (7040, 7041); (7074, 7077); (7080, 7081); (7083, 7085); (7142, 7142);
   (7144, 7145); (7149, 7149); (7151, 7153); (7212, 7219); (7222, 7223);
   (7288, 7293); (7376, 7378); (7380, 7392); (7394, 7400); (7405, 7405);
   (7412, 7412); (7416, 7417); (7468, 7530); (7544, 7544); (7579, 7679);
   (8125, 8125); (8127, 8129); (8141, 8143); (8157, 8159); (8173, 8175);
   (8189, 8190); (8203, 8207); (8216, 8217); (8228, 8228); (8231, 8231);
   (8234, 8238); (8288, 8292); (8294, 8303); (8305, 8305); (8319, 8319);
   (8336, 8348); (8400, 8432); (11388, 11389); (11503, 11505);
   (11631, 11631); (11647, 11647); (11744, 11775); (11823, 11823);
   (12293, 12293); (12330, 12333); (12337, 12341); (12347, 12347);
   (12441, 12446); (12540, 12542); (40981, 40981); (42232, 42237);
   (42508, 42508); (42607, 42610); (42612, 42621); (42623, 42623);
   (42652, 42655); (42736, 42737); (42752, 42785); (42864, 42864);
   (42888, 42890); (42994, 42996); (43000, 43001); (43010, 43010);
   (43014, 43014); (43019, 43019); (43045, 43046); (43052, 43052);
   (43204, 43205); (43232, 43249); (43263, 43263); (43302, 43309);
   (43335, 43345); (43392, 43394); (43443, 43443); (43446, 43449);
   (43452, 43453); (43471, 43471); (43493, 43494); (43561, 43566);
   (43569, 43570); (43573, 43574); (43587, 43587); (43596, 43596);
   (43632, 43632); (43644, 43644); (43696, 43696); (43698, 43700);
   (43703, 43704); (43710, 43711); (43713, 43713); (43741, 43741);
   (43756, 43757); (43763, 43764); (43766, 43766); (43867, 43871);
   (43881, 43883); (44005, 44005); (44008, 44008); (44013, 44013);
   (64286, 64286); (64434, 64450); (65024, 65039); (65043, 65043);
   (65056, 65071); (65106, 65106); (65109, 65109); (65279, 65279);
   (65287, 65287); (65294, 65294); (65306, 65306); (65342, 65342);
   (65344, 65344); (65392, 65392); (65438, 65439); (65507, 65507);
   (65529, 65531); (66045, 66045); (66272, 66272); (66422, 66426);
   (67456, 67461); (67463, 67504); (67506, 67514); (68097, 68099);
   (68101, 68102); (68108, 68111); (68152, 68154); (68159, 68159);
   (68325, 68326); (68900, 68903); (69291, 69292); (69446, 69456);
   (69506, 69509); (69633, 69633); (69688, 69702); (69744, 69744);
   (69747, 69748); (69759, 69761); (69811, 69814); (69817, 69818);
   (69821, 69821); (69826, 69826); (69837, 69837); (69888, 69890);
   (69927, 69931); (69933, 69940); (70003, 70003); (70016, 70017);
   (70070, 70078); (70089, 70092); (70095, 70095); (70191, 70193);
   (70196, 70196); (70198, 70199); (70206, 70206); (70367, 70367);
   (70371, 70378); (70400, 70401); (70459, 70460); (70464, 70464);
   (70502, 70508); (70512, 70516); (70712, 70719); (70722, 70724);
   (70726, 70726); (70750, 70750); (70835, 70840); (70842, 70842);
   (70847, 70848); (70850, 70851); (71090, 71093); (71100, 71101);
   (71103, 71104); (71132, 71133); (71219, 71226); (71229, 71229);
   (71231, 71232); (71339, 71339); (71341, 71341); (71344, 71349);
   (71351, 71351); (71453, 71455); (71458, 71461); (71463, 71467);
   (71727, 71735); (71737, 71738); (71995, 71996); (71998, 71998);
   (72003, 72003); (72148, 72151); (72154, 72155); (72160, 72160);
   (72193, 72202); (72243, 72248); (72251, 72254); (72263, 72263);
   (72273, 72278); (72281, 72283); (72330, 72342); (72344, 72345);
   (72752, 72758); (72760, 72765); (72767, 72767); (72850, 72871);
   (72874, 72880); (72882, 72883); (72885, 72886); (73009, 73014);
   (73018, 73018); (73020, 73021); (73023, 73029); (73031, 73031);
   (73104, 73105); (73109, 73109); (73111, 73111); (73459, 73460);
   (78896, 78904); (92912, 92916); (92976, 92982); (92992, 92995);
   (94031, 94031); (94095, 94111); (94176, 94177); (94179, 94180);
   (110576, 110579); (110581, 110587); (110589, 110590); (113821, 113822);
   (113824, 113827); (118528, 118573); (118576, 118598); (119143, 119145);
   (119155, 119170); (119173, 119179); (119210, 119213); (119362, 119364);
   (121344, 121398); (121403, 121452); (121461, 121461); (121476, 121476);
   (121499, 121503); (121505, 121519); (122880, 122886); (122888, 122904);
   (122907, 122913); (122915, 122916); (122918, 122922); (123184, 123197);
   (123566, 123566); (123628, 123631); (125136, 125142); (125252, 125259);
   (127995, 127999); (917505, 917505); (917536, 917631); (917760, 917999)]%N.

Definition is_case_ignorable (c : char) : bool :=
  in_ranges case_ignorable_ranges c.

End Unicode.

(** ** Exceptions and results *)

Inductive exn : Type :=
| ValueError (msg : string)
| OverflowError (msg : string).

Inductive result (A : Type) : Type :=
| Ok (a : A)
| Raise (e : exn).

Arguments Ok {A} a.
Arguments Raise {A} e.

Definition rbind {A B : Type} (c : result A) (k : A -> result B) : result B :=
  match c with
  | Ok a => k a
  | Raise e => Raise e
  end.

Notation "x <~ c ;; k" := (rbind c (fun x => k))
  (at level 61, c at next level, right associativity).

(** ** The [datetime] library: calendar dates *)

Module Datetime.

Record date : Type := mkdate { year : Z; month : Z; day : Z }.

Definition MINYEAR : Z := 1.
Definition MAXYEAR : Z := 9999.
Definition MAXORDINAL : Z := 3652059.

Definition DAYS_IN_MONTH : list Z :=
  [-1; 31; 28; 31; 30; 31; 30; 31; 31; 30; 31; 30; 31].

Definition DAYS_BEFORE_MONTH : list Z :=
  [-1; 0; 31; 59; 90; 120; 151; 181; 212; 243; 273; 304; 334].

(** [l[i]], for the indices from 0 on that the tables are read at. *)
Definition index (l : list Z) (i : Z) : Z := nth (Z.to_nat i) l (-1).

Definition is_leap (y : Z) : bool :=
  (y mod 4 =? 0) && (negb (y mod 100 =? 0) || (y mod 400 =? 0)).

Definition days_before_year (y0 : Z) : Z :=
  let y := y0 - 1 in
  y * 365 + y / 4 - y / 100 + y / 400.

Definition days_in_month (y m : Z) : Z :=
  if (m =? 2) && is_leap y then 29 else index DAYS_IN_MONTH m.

Definition Z_of_bool (b : bool) : Z := if b then 1 else 0.

Definition days_before_month (y m : Z) : Z :=
  index DAYS_BEFORE_MONTH m + Z_of_bool ((2 <? m) && is_leap y).

Definition ymd2ord (y m d : Z) : Z :=
  days_before_year y + days_before_month y m + d.

Definition DI400Y : Z := Eval cbv in days_before_year 401.
Definition DI100Y : Z := Eval cbv in days_before_year 101.
Definition DI4Y : Z := Eval cbv in days_before_year 5.

(** [_ord2ymd]: the date of an ordinal, 1 being 1 January of year 1. *)
Definition ord2ymd (n0 : Z) : Z * Z * Z :=
  let n := n0 - 1 in
  let n400 := n / DI400Y in
  let n := n mod DI400Y in
  let y := n400 * 400 + 1 in
  let n100 := n / DI100Y in
  let n := n mod DI100Y in
  let n4 := n / DI4Y in
  let n := n mod DI4Y in
  let n1 := n / 365 in
  let n := n mod 365 in
  let y := y + (n100 * 100 + n4 * 4 + n1) in
  if (n1 =? 4) || (n100 =? 4) then (y - 1, 12, 31)
  else
    let leapyear := (n1 =? 3) && (negb (n4 =? 24) || (n100 =? 3)) in
    let m := Z.shiftr (n + 50) 5 in
    let preceding :=
      index DAYS_BEFORE_MONTH m + Z_of_bool ((2 <? m) && leapyear) in
    let '(m, preceding) :=
      if n <? preceding
      then (m - 1,
            preceding
            - (index DAYS_IN_MONTH (m - 1)
               + Z_of_bool ((m - 1 =? 2) && leapyear)))
      else (m, preceding) in
    (y, m, n - preceding + 1).

(** [_check_date_fields], as a test. *)
Definition check_date_fields (y m d : Z) : bool :=
  (MINYEAR <=? y) && (y <=? MAXYEAR)
  && ((1 <=? m) && (m <=? 12))
  && ((1 <=? d) && (d <=? days_in_month y m)).

(** The text of the [ValueError] of the C implementation, which checks the
    year, then the month, then the day. *)
Definition date_error (y m d : Z) : string :=
  if negb ((MINYEAR <=? y) && (y <=? MAXYEAR))
  then "year " ++ Str.of_int y ++ " is out of range"
  else if negb ((1 <=? m) && (m <=? 12))
  then "month must be in 1..12"
  else "day is out of range for month".

(** [date(year, month, day)]. *)
Definition date_new (y m d : Z) : result date :=
  if check_date_fields y m d then Ok (mkdate y m d)
  else Raise (ValueError (date_error y m d)).

(** The invariant of a [date] object. *)
Definition date_ok (d : date) : bool :=
  check_date_fields (year d) (month d) (day d).

(** [d.replace(year=y)]. *)
Definition replace_year (d : date) (y : Z) : result date :=
  date_new y (month d) (day d).

Definition toordinal (d : date) : Z := ymd2ord (year d) (month d) (day d).

Definition fromordinal (n : Z) : date :=
  let '(y, m, d) := ord2ymd n in mkdate y m d.

(** [d + timedelta(days=n)]. *)
Definition add_days (d : date) (n : Z) : result date :=
  let o := toordinal d + n in
  if (0 <? o) && (o <=? MAXORDINAL) then Ok (fromordinal o)
  else Raise (OverflowError "date value out of range").

(** Dates compare as the tuples (year, month, day). *)
Definition cmp (a b : date) : comparison :=
  match year a ?= year b with
  | Eq => match month a ?= month b with
          | Eq => day a ?= day b
          | c => c
          end
  | c => c
  end.

Definition eqb (a b : date) : bool :=
  match cmp a b with Eq => true | _ => false end.

Definition ltb (a b : date) : bool :=
  match cmp a b with Lt => true | _ => false end.

Definition leb (a b : date) : bool :=
  match cmp a b with Gt => false | _ => true end.

(** The order on dates as a proposition. *)
Definition lt (a b : date) : Prop :=
  year a < year b
  \/ (year a = year b
      /\ (month a < month b \/ (month a = month b /\ day a < day b))).

Definition le (a b : date) : Prop := lt a b \/ a = b.

End Datetime.

Import Datetime.

(** ** The state-and-exception monad of the methods

    A computation reads and writes the state of [self] and either returns a
    value or raises; the state at the raise is kept. *)

Definition M (S A : Type) : Type := S -> result A * S.

Definition ret {S A : Type} (a : A) : M S A := fun s => (Ok a, s).

Definition bind {S A B : Type} (c : M S A) (k : A -> M S B) : M S B :=
  fun s =>
    match c s with
    | (Ok a, s') => k a s'
    | (Raise e, s') => (Raise e, s')
    end.

Definition get {S : Type} : M S S := fun s => (Ok s, s).

Definition put {S : Type} (s : S) : M S unit := fun _ => (Ok tt, s).

Definition raise {S A : Type} (e : exn) : M S A := fun s => (Raise e, s).

Definition lift {S A : Type} (c : result A) : M S A := fun s => (c, s).

Notation "x <- c ;; k" := (bind c (fun x => k))
  (at level 61, c at next level, right associativity).

(** A [for] loop over a list that threads an accumulator. *)
Fixpoint for_each {S X R : Type}
    (xs : list X) (body : X -> R -> M S R) (acc : R) : M S R :=
  match xs with
  | [] => ret acc
  | x :: xs' => acc' <- body x acc ;; for_each xs' body acc'
  end.

(** ** The birthday window *)

Definition is_valid_date (birthday start end_ : date) : result bool :=
  adjusted_birthday <~ replace_year birthday (year start) ;;
  adjusted_birthday <~
    (if ltb adjusted_birthday start
        && negb (year adjusted_birthday =? year end_)
     then replace_year adjusted_birthday (year end_)
     else Ok adjusted_birthday) ;;
  if leb start adjusted_birthday && leb adjusted_birthday end_
  then Ok true
  else Ok false.

(** The window test as the specification words it: the birthday moved to
    the year of [today], moved again to the year of [end_] when it then lies
    before [today] and the two years differ. *)
Module WindowSpec.

Definition with_year (b : date) (y : Z) : date :=
  mkdate y (month b) (day b).

Definition readjustedb (b today end_ : date) : bool :=
  ltb (with_year b (year today)) today && negb (year today =? year end_).

Definition adjusted (b today end_ : date) : date :=
  if readjustedb b today end_
  then with_year b (year end_)
  else with_year b (year today).

Definition in_window (b today end_ : date) : Prop :=
  le today (adjusted b today end_) /\ le (adjusted b today end_) end_.

(** 29 February has no counterpart in a year that is not a leap year. *)
Definition feb29_missing (b : date) (y : Z) : Prop :=
  month b = 2 /\ day b = 29 /\ is_leap y = false.

(** The years the algorithm moves the birthday to. *)
Definition target_years (b today end_ : date) : list Z :=
  year today :: (if readjustedb b today end_ then [year end_] else []).

End WindowSpec.

(** ** The [re] library: the fragment the program and [strptime] use

    A backtracking matcher in continuation-passing style: alternatives are
    tried from left to right and the first overall success wins, as in
    [re].  The patterns are [str] patterns, so [\d] is the class of the
    decimal digits of Unicode. *)

Module Re.

Inductive regex : Type :=
| Chr (c : ascii)                  (* a literal character *)
| Range (lo hi : ascii)            (* [lo-hi] *)
| Digit                            (* \d *)
| Seq (r1 r2 : regex)              (* r1 r2 *)
| Alt (r1 r2 : regex)              (* r1|r2 *)
| Rep (n : nat) (r : regex)        (* r{n} *)
| Group (name : string) (r : regex).  (* (?P<name>r) *)

Definition char_is (c : ascii) (a : char) : bool := (a =? ord c)%N.

Definition in_range (lo hi : ascii) (a : char) : bool :=
  ((ord lo <=? a) && (a <=? ord hi))%N.

Definition is_digit (a : char) : bool := Unicode.is_decimal a.

(** The captured groups, by name. *)
Definition groups : Type := list (string * string).

Fixpoint group (name : string) (g : groups) : option string :=
  match g with
  | [] => None
  | (n, v) :: g' => if Str.eqb n name then Some v else group name g'
  end.

(** The part of [s] consumed when [rest] is what remains of it. *)
Definition consumed (s rest : string) : string :=
  firstn (length s - length rest) s.

Definition one (p : char -> bool) {A : Type}
    (s : string) (k : string -> option A) : option A :=
  match s with
  | [] => None
  | a :: s' => if p a then k s' else None
  end.

Fixpoint run {A : Type} (r : regex) (s : string) (g : groups)
    (k : string -> groups -> option A) {struct r} : option A :=
  match r with
  | Chr c => one (char_is c) s (fun s' => k s' g)
  | Range lo hi => one (in_range lo hi) s (fun s' => k s' g)
  | Digit => one is_digit s (fun s' => k s' g)
  | Seq r1 r2 => run r1 s g (fun s' g' => run r2 s' g' k)
  | Alt r1 r2 =>
      match run r1 s g k with
      | Some x => Some x
      | None => run r2 s g k
      end
  | Rep n r' =>
      (fix rep (n : nat) (s : string) (g : groups) : option A :=
         match n with
         | O => k s g
         | S n' => run r' s g (rep n')
         end) n s g
  | Group name r' =>
      run r' s g (fun s' g' => k s' ((name, consumed s s') :: g'))
  end.

(** [re.match]: the first match that starts at the beginning of [s];
    the result is what is left of [s] and the groups. *)
Definition match_ (r : regex) (s : string) : option (string * groups) :=
  run r s [] (fun rest g => Some (rest, g)).

(** [re.fullmatch]: a match of the whole of [s]. *)
Definition fullmatch (r : regex) (s : string) : option groups :=
  run r s []
    (fun rest g =>
       match rest with [] => Some g | _ :: _ => None end).

End Re.

(** ** The [datetime] library: parsing and formatting *)

Module Strptime.

Import Re.

(** The entries of the directive table of [_strptime.TimeRE].  The pattern
    is compiled with [IGNORECASE], which changes nothing here: the digits,
    the dot and the space are the lower and the upper case of no other
    character. *)
Definition directive_d : regex :=
  Group "d"
    (Alt (Seq (Chr "3") (Range "0" "1"))
    (Alt (Seq (Range "1" "2") Digit)
    (Alt (Seq (Chr "0") (Range "1" "9"))
    (Alt (Range "1" "9")
         (Seq (Chr " ") (Range "1" "9")))))).

Definition directive_m : regex :=
  Group "m"
    (Alt (Seq (Chr "1") (Range "0" "2"))
    (Alt (Seq (Chr "0") (Range "1" "9"))
         (Range "1" "9"))).

Definition directive_Y : regex :=
  Group "Y" (Seq Digit (Seq Digit (Seq Digit Digit))).

(** The pattern of the format ["%d.%m.%Y"]. *)
Definition format_regex : regex :=
  Seq directive_d (Seq (Chr ".") (Seq directive_m (Seq (Chr ".") directive_Y))).

(** The white space [int] drops around a literal: [int] maps the white
    space beyond ASCII to a space, and then skips what the C locale calls
    white space; the separators U+001C to U+001F are white space for
    [split], not for [int]. *)
Definition is_space (a : char) : bool :=
  if (a <? 128)%N then (((9 <=? a) && (a <=? 13)) || (a =? 32))%N
  else Unicode.is_space a.

Fixpoint lstrip (s : string) : string :=
  match s with
  | [] => []
  | a :: s' => if is_space a then lstrip s' else s
  end.

Fixpoint rstrip (s : string) : string :=
  match s with
  | [] => []
  | a :: s' =>
      match rstrip s' with
      | [] => if is_space a then [] else [a]
      | t => a :: t
      end
  end.

(** The digits of a literal in base 10: decimal digits of any script, with
    single underscores between them. *)
Fixpoint digits_value (acc : Z) (after_digit : bool) (s : string) : option Z :=
  match s with
  | [] => if after_digit then Some acc else None
  | a :: s' =>
      match Unicode.to_decimal a with
      | Some v => digits_value (10 * acc + v) true s'
      | None =>
          if (a =? ord "_")%N && after_digit
          then digits_value acc false s'
          else None
      end
  end.

(** [int(s)]: white space, a sign, the digits, white space.  The text of
    the error is abridged, and the limit on the number of digits, 4300
    unless configured otherwise, is left out: the groups of the format hold
    four characters at most. *)
Definition int_ (s : string) : result Z :=
  let t := rstrip (lstrip s) in
  let '(sign, body) :=
    match t with
    | a :: t' =>
        if (a =? ord "+")%N then (1, t')
        else if (a =? ord "-")%N then (-1, t')
        else (1, t)
    | [] => (1, t)
    end in
  match digits_value 0 false body with
  | Some n => Ok (sign * n)
  | None => Raise (ValueError "invalid literal for int() with base 10")
  end.

Definition group_int (name : string) (g : groups) : result Z :=
  match group name g with
  | Some v => int_ v
  | None => Raise (ValueError "no such group")
  end.

(** [datetime.strptime(data_string, "%d.%m.%Y").date()].  The texts of the
    first two errors are abridged: they quote [data_string], and
    [Birthday] replaces them. *)
Definition strptime (data_string : string) : result date :=
  match match_ format_regex data_string with
  | None => Raise (ValueError "time data does not match format")
  | Some (_ :: _, _) => Raise (ValueError "unconverted data remains")
  | Some ([], found) =>
      y <~ group_int "Y" found ;;
      m <~ group_int "m" found ;;
      d <~ group_int "d" found ;;
      date_new y m d
  end.

End Strptime.

Module Strftime.

Definition digit_char (n : Z) : char := (48 + Z.to_N n)%N.

(** A number zero-padded to two and to four decimal digits. *)
Definition pad2 (n : Z) : string :=
  [digit_char (n / 10 mod 10); digit_char (n mod 10)].

Definition pad4 (n : Z) : string :=
  digit_char (n / 1000 mod 10) :: digit_char (n / 100 mod 10) :: pad2 n.

(** A number from 1 to 9999 without padding. *)
Definition unpadded (n : Z) : string :=
  if n <? 10 then [digit_char (n mod 10)]
  else if n <? 100 then pad2 n
  else if n <? 1000 then digit_char (n / 100 mod 10) :: pad2 n
  else pad4 n.

(** [strftime] hands the format to the C library.  All libraries print
    [%d] and [%m] on two digits; for [%Y] glibc prints the year without
    padding ([date(999, 1, 1).strftime("%Y")] is ["999"] under CPython 3.11
    on Linux), other libraries print four digits. *)
Inductive c_library : Type :=
| Glibc
| FourDigitYear.

Definition year_text (libc : c_library) (y : Z) : string :=
  match libc with
  | Glibc => unpadded y
  | FourDigitYear => pad4 y
  end.

(** [d.strftime("%d.%m.%Y")]. *)
Definition strftime (libc : c_library) (d : date) : string :=
  pad2 (day d) ++ "." ++ pad2 (month d) ++ "." ++ year_text libc (year d).

End Strftime.

(** ** The field classes *)

Module Name.

Record t : Type := mk { value : string }.

(** [Field.__init__]: the value is stored as given. *)
Definition init (v : string) : t := mk v.

(** [Field.__str__]. *)
Definition str (self : t) : string := value self.

End Name.

Module Birthday.

Record t : Type := mk { value : date }.

Definition init (v : string) : result t :=
  match Strptime.strptime v with
  | Ok birthday => Ok (mk birthday)
  | Raise (ValueError _) =>
      Raise (ValueError "Invalid date format. Use DD.MM.YYYY")
  | Raise e => Raise e
  end.

End Birthday.

Module Phone.

Record t : Type := mk { value : string }.

(** The pattern [\d{10}]. *)
Definition pattern : Re.regex := Re.Rep 10 Re.Digit.

Definition validate (phone : string) : bool :=
  match Re.fullmatch pattern phone with
  | Some _ => true
  | None => false
  end.

Definition init (v : string) : result t :=
  if negb (validate v)
  then Raise (ValueError "Phone must contain exactly 10 digits.")
  else Ok (mk v).

(** [Field.__str__]. *)
Definition str (self : t) : string := value self.

End Phone.

(** ** Lists addressed by position

    A reference to an object held in a Python list is the position of that
    object in the list. *)

Fixpoint set_nth {X : Type} (i : nat) (x : X) (l : list X) : list X :=
  match l, i with
  | [], _ => []
  | _ :: l', O => x :: l'
  | y :: l', S i' => y :: set_nth i' x l'
  end.

Fixpoint del_nth {X : Type} (i : nat) (l : list X) : list X :=
  match l, i with
  | [], _ => []
  | _ :: l', O => l'
  | y :: l', S i' => y :: del_nth i' l'
  end.

(** ** One contact: the class [Record] *)

Module Record_.

Record t : Type := mk {
  name : Name.t;
  phones : list Phone.t;
  birthday : option Birthday.t
}.

Definition set_phones (self : t) (ps : list Phone.t) : t :=
  mk (name self) ps (birthday self).

Definition set_birthday (self : t) (b : option Birthday.t) : t :=
  mk (name self) (phones self) b.

Definition init (name : string) : t := mk (Name.init name) [] None.

Definition add_phone (phone : string) : M t unit :=
  phone_obj <- lift (Phone.init phone) ;;
  self <- get ;;
  put (set_phones self (phones self ++ [phone_obj])%list).

(** The loop of [find_phone]: the position of the first entry whose value
    is [phone]. *)
Fixpoint find_from (phone : string) (ps : list Phone.t) (i : nat)
    : option nat :=
  match ps with
  | [] => None
  | p :: ps' =>
      if Str.eqb (Phone.value p) phone then Some i
      else find_from phone ps' (S i)
  end.

(** [find_phone] returns the object found, here its position. *)
Definition find_phone (phone : string) : M t (option nat) :=
  self <- get ;;
  ret (find_from phone (phones self) O).

Definition remove_phone (phone : string) : M t unit :=
  phone_obj <- find_phone phone ;;
  match phone_obj with
  | Some i => self <- get ;; put (set_phones self (del_nth i (phones self)))
  | None => ret tt
  end.

Definition edit_phone (old_phone new_phone : string) : M t unit :=
  phone_obj <- find_phone old_phone ;;
  match phone_obj with
  | None => raise (ValueError "Phone not found")
  | Some i =>
      if negb (Phone.validate new_phone)
      then raise (ValueError "New phone must contain exactly 10 digits.")
      else
        self <- get ;;
        put (set_phones self (set_nth i (Phone.mk new_phone) (phones self)))
  end.

Definition add_birthday (birthday : string) : M t unit :=
  b <- lift (Birthday.init birthday) ;;
  self <- get ;;
  put (set_birthday self (Some b)).

(** ["; ".join(...)]. *)
Fixpoint join (sep : string) (l : list string) : string :=
  match l with
  | [] => []
  | [x] => x
  | x :: l' => x ++ sep ++ join sep l'
  end.

(** [__str__]. *)
Definition str (libc : Strftime.c_library) (self : t) : string :=
  let phones_str := join "; " (map Phone.value (phones self)) in
  let bd :=
    match birthday self with
    | Some b => Strftime.strftime libc (Birthday.value b)
    | None => "N/A"
    end in
  Name.value (name self) ++ ": phones: " ++ phones_str
    ++ ", birthday: " ++ bd.

End Record_.

(** ** A stable sort by key

    [list.sort(key=...)] is stable and compares keys with [<] only; the
    result of a stable sort is determined by the list and the order, so the
    insertion sort below returns what [list.sort] returns. *)

Section Sort.

Context {X : Type} (key : X -> date).

(** [x] came before every element of [l]: it goes in front of the first
    element whose key is not below its own. *)
Fixpoint insert (x : X) (l : list X) : list X :=
  match l with
  | [] => [x]
  | y :: l' =>
      if ltb (key y) (key x) then y :: insert x l' else x :: y :: l'
  end.

Fixpoint sort (l : list X) : list X :=
  match l with
  | [] => []
  | x :: l' => insert x (sort l')
  end.

End Sort.

(** ** The directory: the class [AddressBook] *)

Module AddressBook.

(** A [dict] with string keys: the entries in insertion order, one per
    key. *)
Definition dict (V : Type) : Type := list (string * V).

Fixpoint dict_get {V : Type} (k : string) (d : dict V) : option V :=
  match d with
  | [] => None
  | (k', v) :: d' => if Str.eqb k' k then Some v else dict_get k d'
  end.

(** [d[k] = v]: an existing key keeps its place, a new key goes last. *)
Fixpoint dict_set {V : Type} (k : string) (v : V) (d : dict V) : dict V :=
  match d with
  | [] => [(k, v)]
  | (k', v') :: d' =>
      if Str.eqb k' k then (k', v) :: d'
      else (k', v') :: dict_set k v d'
  end.

Definition dict_mem {V : Type} (k : string) (d : dict V) : bool :=
  match dict_get k d with Some _ => true | None => false end.

Fixpoint dict_del {V : Type} (k : string) (d : dict V) : dict V :=
  match d with
  | [] => []
  | (k', v') :: d' =>
      if Str.eqb k' k then d' else (k', v') :: dict_del k d'
  end.

Definition dict_values {V : Type} (d : dict V) : list V := map snd d.

Definition dict_keys {V : Type} (d : dict V) : list string := map fst d.

Record t : Type := mk { data : dict Record_.t }.

Definition add_record (record : Record_.t) : M t unit :=
  self <- get ;;
  put (mk (dict_set (Name.value (Record_.name record)) record (data self))).

Definition find (name : string) : M t (option Record_.t) :=
  self <- get ;;
  ret (dict_get name (data self)).

Definition delete (name : string) : M t unit :=
  self <- get ;;
  if dict_mem name (data self)
  then put (mk (dict_del name (data self)))
  else ret tt.

(** The body of the loop of [birthdays]. *)
Definition birthdays_step (today future_date : date)
    (record : Record_.t) (result : list (Name.t * date))
    : M t (list (Name.t * date)) :=
  match Record_.birthday record with
  | None => ret result
  | Some b =>
      ok <- lift (is_valid_date (Birthday.value b) today future_date) ;;
      if ok
      then ret (result ++ [(Record_.name record, Birthday.value b)])%list
      else ret result
  end.

Definition birthdays (today : date) : M t (list (Name.t * date)) :=
  future_date <- lift (add_days today 7) ;;
  self <- get ;;
  result <-
    for_each (dict_values (data self))
      (birthdays_step today future_date) [] ;;
  ret (sort snd result).

End AddressBook.

(** ** The words of the specification, as definitions *)

Module Spec.

(** A decimal digit: a character of the category Nd of Unicode, that is
    ['0'] to ['9'] or one of the ten digits of another script. *)
Definition decimal_digit (a : char) : bool :=
  existsb (fun zero => (zero <=? a) && (a <=? zero + 9))%N
    Unicode.decimal_zeros.

Definition digits (s : string) : bool := forallb decimal_digit s.

(** A string of exactly [n] decimal digits. *)
Definition digits_of_length (n : nat) (s : string) : bool :=
  (List.length s =? n)%nat && digits s.

Definition ten_digits (s : string) : bool := digits_of_length 10 s.

(** The digits ['0'] to ['9'] of ASCII. *)
Definition ascii_digit (a : char) : bool := ((48 <=? a) && (a <=? 57))%N.

Definition ascii_digits_of_length (n : nat) (s : string) : bool :=
  (List.length s =? n)%nat && forallb ascii_digit s.

(** The value of a decimal digit: its place in the ten digits of its
    script. *)
Definition digit_value (a : char) : Z :=
  match
    find (fun zero => (zero <=? a) && (a <=? zero + 9))%N
      Unicode.decimal_zeros
  with
  | Some zero => Z.of_N a - Z.of_N zero
  | None => 0
  end.

(** The number a field of a date denotes: its decimal digits, read from
    left to right. *)
Fixpoint decimal (acc : Z) (s : string) : Z :=
  match s with
  | [] => acc
  | a :: s' =>
      if decimal_digit a
      then decimal (10 * acc + digit_value a) s'
      else decimal acc s'
  end.

Definition date_of_fields (dd mm yyyy : string) : option date :=
  let y := decimal 0 yyyy in
  let m := decimal 0 mm in
  let d := decimal 0 dd in
  if check_date_fields y m d then Some (mkdate y m d) else None.

(** The fixed format: two digits, two digits, four digits, all of them
    among ['0'] to ['9']. *)
Definition fixed_format (s : string) (d : date) : Prop :=
  exists dd mm yyyy : string,
    s = dd ++ "." ++ mm ++ "." ++ yyyy
    /\ ascii_digits_of_length 2 dd = true
    /\ ascii_digits_of_length 2 mm = true
    /\ ascii_digits_of_length 4 yyyy = true
    /\ date_of_fields dd mm yyyy = Some d.

Definition between (lo hi : ascii) (a : char) : bool :=
  ((ord lo <=? a) && (a <=? ord hi))%N.

(** The format [strptime] reads.  The day is 1 to 9, 01 to 09, 10 to 29 or
    30 to 31, or a space and 1 to 9; the digits are those of ASCII, but for
    the second digit of 10 to 29, which is a decimal digit of any
    script. *)
Definition day_field (s : string) : bool :=
  match s with
  | [a] => between "1" "9" a
  | [a; b] =>
      (between "3" "3" a && between "0" "1" b)
      || (between "1" "2" a && decimal_digit b)
      || (between "0" "0" a && between "1" "9" b)
      || ((a =? ord " ")%N && between "1" "9" b)
  | _ => false
  end.

(** The month is 1 to 9, 01 to 09 or 10 to 12, in the digits of ASCII. *)
Definition month_field (s : string) : bool :=
  match s with
  | [a] => between "1" "9" a
  | [a; b] =>
      (between "1" "1" a && between "0" "2" b)
      || (between "0" "0" a && between "1" "9" b)
  | _ => false
  end.

(** The year is four decimal digits, each of any script. *)
Definition year_field (s : string) : bool := digits_of_length 4 s.

Definition lenient_format (s : string) (d : date) : Prop :=
  exists dd mm yyyy : string,
    s = dd ++ "." ++ mm ++ "." ++ yyyy
    /\ day_field dd = true
    /\ month_field mm = true
    /\ year_field yyyy = true
    /\ date_of_fields dd mm yyyy = Some d.

(** The entries of the query: the records with a birthday in the window,
    in the order of the directory. *)
Definition upcoming (today end_ : date) (records : list Record_.t)
    : list (Name.t * date) :=
  flat_map
    (fun r =>
       match Record_.birthday r with
       | Some b =>
           match is_valid_date (Birthday.value b) today end_ with
           | Ok true => [(Record_.name r, Birthday.value b)]
           | _ => []
           end
       | None => []
       end)
    records.

Definition by_stored_date (x y : Name.t * date) : Prop :=
  le (snd x) (snd y).

Definition by_adjusted_date (today end_ : date) (x y : Name.t * date)
    : Prop :=
  le (WindowSpec.adjusted (snd x) today end_)
     (WindowSpec.adjusted (snd y) today end_).

Definition on_date (k : date) (x : Name.t * date) : bool := eqb (snd x) k.

End Spec.

(** ** A directory used in the examples *)

Module Sample.

Definition run {S A : Type} (c : M S A) (s : S) : S := snd (c s).

Definition anna : Record_.t :=
  run (Record_.add_birthday "05.06.1990") (Record_.init "Anna").

Definition boris : Record_.t :=
  run (Record_.add_birthday "03.06.1995") (Record_.init "Boris").

Definition book : AddressBook.t :=
  run (_ <- AddressBook.add_record anna ;; AddressBook.add_record boris)
    (AddressBook.mk []).

Definition today : date := mkdate 2024 6 1.

Definition future_date : date := mkdate 2024 6 8.

Definition carol : Record_.t :=
  run (_ <- Record_.add_phone "1234567890" ;;
       _ <- Record_.add_phone "0987654321" ;;
       Record_.add_birthday "29.02.2000")
    (Record_.init "Carol").

(** Two numbers in the digits of other scripts: ARABIC-INDIC, U+0660 to
    U+0669, and FULLWIDTH, U+FF10 to U+FF19. *)
Definition arabic_indic : string :=
  [1632; 1633; 1634; 1635; 1636; 1637; 1638; 1639; 1640; 1641]%N.

Definition fullwidth : string :=
  [65296; 65297; 65298; 65299; 65300; 65301; 65302; 65303; 65304; 65305]%N.

End Sample.

(** ** The command layer: exceptions and outcomes

    The commands meet exceptions the classes never raise; a computation of
    the command layer ends with a value or with one of them, and keeps the
    state reached, as [M] does. *)

Inductive error : Type :=
| Lib (e : exn)
| KeyError
| IndexError
| TypeError
| EOFError.

Inductive outcome (A : Type) : Type :=
| Done (a : A)
| Fail (e : error).

Arguments Done {A} a.
Arguments Fail {A} e.

Definition Cmd (S A : Type) : Type := S -> outcome A * S.

Definition hret {S A : Type} (a : A) : Cmd S A := fun s => (Done a, s).

Definition hbind {S A B : Type} (c : Cmd S A) (k : A -> Cmd S B) : Cmd S B :=
  fun s =>
    match c s with
    | (Done a, s') => k a s'
    | (Fail e, s') => (Fail e, s')
    end.

Definition hraise {S A : Type} (e : error) : Cmd S A := fun s => (Fail e, s).

Definition outcome_of {A : Type} (r : result A) : outcome A :=
  match r with
  | Ok a => Done a
  | Raise e => Fail (Lib e)
  end.

(** A method of the classes, called from a command. *)
Definition of_M {S A : Type} (c : M S A) : Cmd S A :=
  fun s => let '(r, s') := c s in (outcome_of r, s').

Notation "x <<- c ;; k" := (hbind c (fun x => k))
  (at level 61, c at next level, right associativity).

(** ** The commands *)

Module Commands.

Import AddressBook.

(** The decorator [input_error]: the exceptions it catches become the
    reply; any other exception goes on. *)
Definition input_error (func : Cmd AddressBook.t string)
    : Cmd AddressBook.t string :=
  fun book =>
    match func book with
    | (Done reply, book') => (Done reply, book')
    | (Fail KeyError, book') => (Done "Contact not found.", book')
    | (Fail (Lib (ValueError msg)), book') => (Done msg, book')
    | (Fail IndexError, book') => (Done "Not enough arguments.", book')
    | (Fail TypeError, book') => (Done "Invalid input.", book')
    | (Fail e, book') => (Fail e, book')
    end.

(** A method called on a record of the directory.  The record is the
    object the directory holds under [key], so what the method does to it
    shows under that key, also when the method raises. *)
Definition on_record {A : Type} (key : string) (record : Record_.t)
    (method : M Record_.t A) : Cmd AddressBook.t A :=
  fun book =>
    let '(r, record') := method record in
    (outcome_of r, mk (dict_set key record' (data book))).

Definition add_contact_func (args : list string) : Cmd AddressBook.t string :=
  match args with
  | [] =>
      hraise (Lib (ValueError
        "not enough values to unpack (expected at least 2, got 0)"))
  | [_] =>
      hraise (Lib (ValueError
        "not enough values to unpack (expected at least 2, got 1)"))
  | name :: phone :: _ =>
      record <<- of_M (find name) ;;
      match record with
      | None =>
          let record := Record_.init name in
          _ <<- of_M (add_record record) ;;
          _ <<- on_record name record (Record_.add_phone phone) ;;
          hret "Contact added."
      | Some record =>
          _ <<- on_record name record (Record_.add_phone phone) ;;
          hret "Contact updated."
      end
  end.

Definition add_contact (args : list string) : Cmd AddressBook.t string :=
  input_error (add_contact_func args).

Definition change_contact_func (args : list string)
    : Cmd AddressBook.t string :=
  match args with
  | [] =>
      hraise (Lib (ValueError
        "not enough values to unpack (expected 3, got 0)"))
  | [_] =>
      hraise (Lib (ValueError
        "not enough values to unpack (expected 3, got 1)"))
  | [_; _] =>
      hraise (Lib (ValueError
        "not enough values to unpack (expected 3, got 2)"))
  | [name; old_phone; new_phone] =>
      record <<- of_M (find name) ;;
      match record with
      | None => hraise KeyError
      | Some record =>
          _ <<- on_record name record
                  (Record_.edit_phone old_phone new_phone) ;;
          hret "Phone number updated."
      end
  | _ :: _ :: _ :: _ :: _ =>
      hraise (Lib (ValueError "too many values to unpack (expected 3)"))
  end.

Definition change_contact (args : list string) : Cmd AddressBook.t string :=
  input_error (change_contact_func args).

Definition show_phones_func (args : list string)
    : Cmd AddressBook.t string :=
  match args with
  | [] => hraise IndexError
  | name :: _ =>
      record <<- of_M (find name) ;;
      match record with
      | None => hraise KeyError
      | Some record =>
          hret (Record_.join "; " (map Phone.value (Record_.phones record)))
      end
  end.

Definition show_phones (args : list string) : Cmd AddressBook.t string :=
  input_error (show_phones_func args).

Definition newline : string := [10]%N.

Definition show_all_func (libc : Strftime.c_library)
    : Cmd AddressBook.t string :=
  fun book =>
    match data book with
    | [] => (Done "Address book is empty.", book)
    | _ :: _ =>
        (Done (Record_.join newline
                 (map (Record_.str libc) (dict_values (data book)))),
         book)
    end.

Definition show_all (libc : Strftime.c_library) : Cmd AddressBook.t string :=
  input_error (show_all_func libc).

Definition add_birthday_func (args : list string)
    : Cmd AddressBook.t string :=
  match args with
  | [] =>
      hraise (Lib (ValueError
        "not enough values to unpack (expected 2, got 0)"))
  | [_] =>
      hraise (Lib (ValueError
        "not enough values to unpack (expected 2, got 1)"))
  | [name; birthday] =>
      record <<- of_M (find name) ;;
      match record with
      | None => hraise KeyError
      | Some record =>
          _ <<- on_record name record (Record_.add_birthday birthday) ;;
          hret "Birthday added."
      end
  | _ :: _ :: _ :: _ =>
      hraise (Lib (ValueError "too many values to unpack (expected 2)"))
  end.

Definition add_birthday (args : list string) : Cmd AddressBook.t string :=
  input_error (add_birthday_func args).

Definition show_birthday_func (libc : Strftime.c_library)
    (args : list string) : Cmd AddressBook.t string :=
  match args with
  | [] => hraise IndexError
  | name :: _ =>
      record <<- of_M (find name) ;;
      match record with
      | None => hraise KeyError
      | Some record =>
          match Record_.birthday record with
          | None => hret "No birthday set."
          | Some b => hret (Strftime.strftime libc (Birthday.value b))
          end
      end
  end.

Definition show_birthday (libc : Strftime.c_library) (args : list string)
    : Cmd AddressBook.t string :=
  input_error (show_birthday_func libc args).

(** [str(date)]: the ISO form, made by Python itself, with the year on
    four digits. *)
Definition isoformat (d : date) : string :=
  Strftime.pad4 (year d) ++ "-" ++ Strftime.pad2 (month d) ++ "-"
    ++ Strftime.pad2 (day d).

(** The command [birthdays]; [today] is the reading of the clock.  When the
    window test raises, the reply is the text of its [ValueError] (see
    [date_new] for that text). *)
Definition birthdays_func (today : date) : Cmd AddressBook.t string :=
  upcoming <<- of_M (AddressBook.birthdays today) ;;
  match upcoming with
  | [] => hret "No birthdays in the next 7 days."
  | _ :: _ =>
      hret (Record_.join newline
              (map (fun item : Name.t * date =>
                      Name.str (fst item) ++ ": " ++ isoformat (snd item))
                 upcoming))
  end.

Definition birthdays (today : date) : Cmd AddressBook.t string :=
  input_error (birthdays_func today).

(** [str.split()]: the words between runs of white space. *)
Fixpoint split_words (word : string) (s : string) : list string :=
  match s with
  | [] =>
      match word with
      | [] => []
      | _ :: _ => [word]
      end
  | a :: s' =>
      if Unicode.is_space a
      then match word with
           | [] => split_words [] s'
           | _ :: _ => word :: split_words [] s'
           end
      else split_words (word ++ [a]) s'
  end.

Definition split (s : string) : list string := split_words [] s.

(** What is left of a string after the case-ignorable characters at its
    front. *)
Fixpoint skip_ignorable (s : string) : string :=
  match s with
  | [] => []
  | a :: s' => if Unicode.is_case_ignorable a then skip_ignorable s' else s
  end.

(** [handle_capital_sigma]: a capital sigma is final when a cased
    character comes before it and none after it, case-ignorable characters
    apart; [before] holds the characters before the sigma, the nearest
    first. *)
Definition final_sigma (before after : string) : bool :=
  match skip_ignorable before with
  | [] => false
  | c :: _ =>
      Unicode.is_cased c
      && match skip_ignorable after with
         | [] => true
         | c' :: _ => negb (Unicode.is_cased c')
         end
  end.

(** [str.lower()]: every character gives its lower-case mapping, and the
    capital sigma U+03A3 gives the final or the common small sigma. *)
Fixpoint lower_from (before : string) (s : string) : string :=
  match s with
  | [] => []
  | a :: s' =>
      (if (a =? 931)%N
       then [if final_sigma before s' then 962 else 963]%N
       else Unicode.to_lower_full a)
      ++ lower_from (a :: before) s'
  end.

Definition lower (s : string) : string := lower_from [] s.

(** The characters [lower] leaves as they are: no capital sigma, and the
    lower-case mapping is the character itself. *)
Definition lowered (c : char) : bool :=
  negb (c =? 931)%N && Str.eqb (Unicode.to_lower_full c) [c].

Definition parse_input (user_input : string)
    : outcome (string * list string) :=
  match split user_input with
  | [] => Fail IndexError
  | command :: args => Done (lower command, args)
  end.

(** What the program writes: the prompt of [input] and the lines of
    [print]. *)
Inductive output : Type :=
| Prompted (text : string)
| Printed (text : string).

(** How [main] ends: by [break], or by an exception nothing catches. *)
Inductive ending : Type :=
| Break
| Uncaught (e : error).

(** One command of the loop, after [close] and [exit] are excluded: what
    is printed, or the exception that leaves the loop. *)
Definition dispatch (libc : Strftime.c_library) (now : date)
    (command : string) (args : list string) : Cmd AddressBook.t string :=
  if Str.eqb command "hello" then hret "How can I help you?"
  else if Str.eqb command "add" then add_contact args
  else if Str.eqb command "change" then change_contact args
  else if Str.eqb command "phone" then show_phones args
  else if Str.eqb command "all" then show_all libc
  else if Str.eqb command "add-birthday" then add_birthday args
  else if Str.eqb command "show-birthday" then show_birthday libc args
  else if Str.eqb command "birthdays" then birthdays now
  else hret "Invalid command.".

(** The loop of [main] over the lines [input] returns, each with the date
    the clock shows when it is handled; [input] raises [EOFError] when no
    line is left. *)
Fixpoint loop (libc : Strftime.c_library) (inputs : list (string * date))
    (book : AddressBook.t) : list output * ending * AddressBook.t :=
  match inputs with
  | [] => ([Prompted "Enter a command: "], Uncaught EOFError, book)
  | (user_input, now) :: inputs' =>
      match parse_input user_input with
      | Fail e => ([Prompted "Enter a command: "], Uncaught e, book)
      | Done (command, args) =>
          if Str.eqb command "close" || Str.eqb command "exit"
          then ([Prompted "Enter a command: "; Printed "Good bye!"],
                Break, book)
          else
            match dispatch libc now command args book with
            | (Fail e, book') =>
                ([Prompted "Enter a command: "], Uncaught e, book')
            | (Done reply, book') =>
                let '(out, e, book'') := loop libc inputs' book' in
                (Prompted "Enter a command: " :: Printed reply :: out,
                 e, book'')
            end
      end
  end.

Definition main (libc : Strftime.c_library) (inputs : list (string * date))
    : list output * ending * AddressBook.t :=
  let '(out, e, book) := loop libc inputs (mk []) in
  (Printed "Welcome to the assistant bot!" :: out, e, book).

End Commands.

(** ** Invariants of records and of the directory *)

Module Invariant.

(** The phones of a record are strings of ten decimal digits and its
    birthday is a calendar date. *)
Definition record_ok (r : Record_.t) : Prop :=
  Forall (fun p => Spec.ten_digits (Phone.value p) = true) (Record_.phones r)
  /\ match Record_.birthday r with
     | Some b => date_ok (Birthday.value b) = true
     | None => True
     end.

(** The keys of the directory are distinct, and each record is filed under
    its own name. *)
Definition book_ok (book : AddressBook.t) : Prop :=
  NoDup (AddressBook.dict_keys (AddressBook.data book))
  /\ Forall
       (fun entry : string * Record_.t =>
          Name.value (Record_.name (snd entry)) = fst entry
          /\ record_ok (snd entry))
       (AddressBook.data book).

End Invariant.


(** The classes of characters are tables: they are not unfolded by
    simplification. *)
Arguments Unicode.to_decimal : simpl never.
Arguments Unicode.is_decimal : simpl never.
Arguments Unicode.is_space : simpl never.
Arguments Unicode.to_lower_full : simpl never.
Arguments Unicode.is_cased : simpl never.
Arguments Unicode.is_case_ignorable : simpl never.
Arguments Re.is_digit : simpl never.
Arguments Strptime.is_space : simpl never.
Arguments Spec.decimal_digit : simpl never.
Arguments Spec.digit_value : simpl never.

(** * Properties *)

(** ** Dates *)

Lemma ltb_lt (a b : date) : ltb a b = true <-> lt a b.
Proof.
  unfold ltb, cmp, lt.
  destruct (Z.compare_spec (year a) (year b));
    destruct (Z.compare_spec (month a) (month b));
    destruct (Z.compare_spec (day a) (day b));
    split; intros; try discriminate; try reflexivity; lia.
Qed.

Lemma date_eta (a b : date) :
  year a = year b -> month a = month b -> day a = day b -> a = b.
Proof. destruct a, b; simpl; intros; subst; reflexivity. Qed.

Lemma leb_le (a b : date) : leb a b = true <-> le a b.
Proof.
  unfold leb, cmp, le, lt.
  destruct (Z.compare_spec (year a) (year b));
    destruct (Z.compare_spec (month a) (month b));
    destruct (Z.compare_spec (day a) (day b));
    split; intros; try discriminate; try reflexivity;
    try (right; apply date_eta; assumption);
    try (left; lia);
    try (destruct H2 as [H2 | H2]; [lia | subst; lia]).
Qed.

Lemma is_leap_cycle (n400 n100 n4 n1 : Z) :
  0 <= n400 -> 0 <= n100 <= 3 -> 0 <= n4 <= 24 -> 0 <= n1 <= 3 ->
  is_leap (n400 * 400 + 1 + (n100 * 100 + n4 * 4 + n1))
  = (n1 =? 3) && (negb (n4 =? 24) || (n100 =? 3)).
Proof.
  intros. unfold is_leap.
  set (y := n400 * 400 + 1 + (n100 * 100 + n4 * 4 + n1)).
  assert (E4 : y mod 4 = (n1 + 1) mod 4).
  { unfold y. replace (n400 * 400 + 1 + (n100 * 100 + n4 * 4 + n1))
      with ((n1 + 1) + (n400 * 100 + n100 * 25 + n4) * 4) by ring.
    apply Z.mod_add. lia. }
  assert (E100 : y mod 100 = (n4 * 4 + n1 + 1) mod 100).
  { unfold y. replace (n400 * 400 + 1 + (n100 * 100 + n4 * 4 + n1))
      with ((n4 * 4 + n1 + 1) + (n400 * 4 + n100) * 100) by ring.
    apply Z.mod_add. lia. }
  assert (E400 : y mod 400 = (n100 * 100 + n4 * 4 + n1 + 1) mod 400).
  { unfold y. replace (n400 * 400 + 1 + (n100 * 100 + n4 * 4 + n1))
      with ((n100 * 100 + n4 * 4 + n1 + 1) + n400 * 400) by ring.
    apply Z.mod_add. lia. }
  assert (A4 : (y mod 4 =? 0) = (n1 =? 3)).
  { rewrite E4. destruct (Z.eqb_spec n1 3) as [-> | N1]; [reflexivity|].
    rewrite Z.mod_small by lia. apply Z.eqb_neq. lia. }
  assert (A100 : (y mod 100 =? 0) = (n4 =? 24) && (n1 =? 3)).
  { rewrite E100.
    destruct (Z.eqb_spec n4 24) as [-> | N4];
      destruct (Z.eqb_spec n1 3) as [-> | N1]; cbn [andb]; try reflexivity;
      rewrite Z.mod_small by lia; apply Z.eqb_neq; lia. }
  assert (A400 : (y mod 400 =? 0) = (n100 =? 3) && (n4 =? 24) && (n1 =? 3)).
  { rewrite E400.
    destruct (Z.eqb_spec n100 3) as [-> | N100];
      destruct (Z.eqb_spec n4 24) as [-> | N4];
      destruct (Z.eqb_spec n1 3) as [-> | N1]; cbn [andb]; try reflexivity;
      rewrite Z.mod_small by lia; apply Z.eqb_neq; lia. }
  rewrite A4, A100, A400.
  destruct (n1 =? 3), (n4 =? 24), (n100 =? 3); reflexivity.
Qed.

Lemma month_day_ok (n : Z) (leapyear : bool) :
  0 <= n <= 364 ->
  let m := Z.shiftr (n + 50) 5 in
  let preceding :=
    index DAYS_BEFORE_MONTH m + Z_of_bool ((2 <? m) && leapyear) in
  (let '(m, preceding) :=
     if n <? preceding
     then (m - 1,
           preceding
           - (index DAYS_IN_MONTH (m - 1)
              + Z_of_bool ((m - 1 =? 2) && leapyear)))
     else (m, preceding) in
   (1 <=? m) && (m <=? 12)
   && ((1 <=? n - preceding + 1)
       && (n - preceding + 1
           <=? (if (m =? 2) && leapyear then 29 else index DAYS_IN_MONTH m))))
  = true.
Proof.
  intros Hn.
  assert (All : forallb (fun k : nat =>
            let n := Z.of_nat k in
            forallb (fun leapyear : bool =>
              let m := Z.shiftr (n + 50) 5 in
              let preceding :=
                index DAYS_BEFORE_MONTH m + Z_of_bool ((2 <? m) && leapyear) in
              let '(m, preceding) :=
                if n <? preceding
                then (m - 1,
                      preceding
                      - (index DAYS_IN_MONTH (m - 1)
                         + Z_of_bool ((m - 1 =? 2) && leapyear)))
                else (m, preceding) in
              (1 <=? m) && (m <=? 12)
              && ((1 <=? n - preceding + 1)
                  && (n - preceding + 1
                      <=? (if (m =? 2) && leapyear then 29
                           else index DAYS_IN_MONTH m))))
              [true; false]) (seq 0 365) = true) by (vm_compute; reflexivity).
  rewrite forallb_forall in All.
  specialize (All (Z.to_nat n)).
  rewrite Z2Nat.id in All by lia.
  assert (In (Z.to_nat n) (seq 0 365)) as HIn by (apply in_seq; lia).
  specialize (All HIn). cbv zeta in All.
  rewrite forallb_forall in All.
  assert (HI : In leapyear [true; false]) by (destruct leapyear; simpl; auto).
  cbv zeta. exact (All leapyear HI).
Qed.

Lemma ord2ymd_ok (n : Z) :
  1 <= n <= MAXORDINAL ->
  date_ok (fromordinal n) = true.
Proof.
  unfold MAXORDINAL. intros Hn. unfold date_ok, fromordinal, ord2ymd.
  set (a := n - 1).
  set (n400 := a / DI400Y). set (b := a mod DI400Y).
  set (n100 := b / DI100Y). set (c := b mod DI100Y).
  set (n4 := c / DI4Y). set (d := c mod DI4Y).
  set (n1 := d / 365). set (e := d mod 365).
  assert (0 <= n400 <= 24 /\ 0 <= b < DI400Y /\ a = DI400Y * n400 + b)
    as (H400 & Hb & Ea).
  { unfold n400, b, DI400Y.
    pose proof (Z.div_mod a 146097 ltac:(lia)).
    pose proof (Z.mod_pos_bound a 146097 ltac:(lia)). unfold a in *.
    repeat split; try lia. }
  assert (0 <= n100 <= 4 /\ 0 <= c < DI100Y /\ b = DI100Y * n100 + c)
    as (H100 & Hc & Eb).
  { unfold n100, c, DI100Y, DI400Y in *.
    pose proof (Z.div_mod b 36524 ltac:(lia)).
    pose proof (Z.mod_pos_bound b 36524 ltac:(lia)). repeat split; try lia. }
  assert (0 <= n4 <= 24 /\ 0 <= d < DI4Y /\ c = DI4Y * n4 + d)
    as (H4 & Hd & Ec).
  { unfold n4, d, DI4Y, DI100Y in *.
    pose proof (Z.div_mod c 1461 ltac:(lia)).
    pose proof (Z.mod_pos_bound c 1461 ltac:(lia)). repeat split; try lia. }
  assert (0 <= n1 <= 4 /\ 0 <= e < 365 /\ d = 365 * n1 + e)
    as (H1 & He & Ed).
  { unfold n1, e, DI4Y in *. pose proof (Z.div_mod d 365 ltac:(lia)).
    pose proof (Z.mod_pos_bound d 365 ltac:(lia)). repeat split; try lia. }
  clearbody n400 b n100 c n4 d n1 e. unfold DI400Y, DI100Y, DI4Y in *.
  assert (Hy : 1 <= n400 * 400 + 1 + (n100 * 100 + n4 * 4 + n1) <= 9999
               \/ (n1 = 4 \/ n100 = 4)) by (unfold a in *; lia).
  destruct (Z.eqb_spec n1 4) as [E1 | N1]; simpl orb.
  - cbn [year month day].
    unfold check_date_fields, MINYEAR, MAXYEAR, days_in_month.
    simpl. unfold a in *.
    replace (1 <=? _) with true by (symmetry; apply Z.leb_le; lia).
    replace (_ <=? 9999) with true by (symmetry; apply Z.leb_le; lia).
    reflexivity.
  - destruct (Z.eqb_spec n100 4) as [E100 | N100].
    + cbn [year month day].
      unfold check_date_fields, MINYEAR, MAXYEAR, days_in_month.
      simpl. unfold a in *.
      replace (1 <=? _) with true by (symmetry; apply Z.leb_le; lia).
      replace (_ <=? 9999) with true by (symmetry; apply Z.leb_le; lia).
      reflexivity.
    + pose proof (month_day_ok e
                    ((n1 =? 3) && (negb (n4 =? 24) || (n100 =? 3)))
                    ltac:(lia)) as MD.
      cbv zeta in MD.
      destruct (if e <? _ then _ else _) as [m p].
      cbn [year month day].
      unfold check_date_fields, MINYEAR, MAXYEAR, days_in_month.
      rewrite is_leap_cycle by lia.
      replace (1 <=? n400 * 400 + 1 + (n100 * 100 + n4 * 4 + n1)) with true
        by (symmetry; apply Z.leb_le; lia).
      replace (n400 * 400 + 1 + (n100 * 100 + n4 * 4 + n1) <=? 9999)
        with true by (symmetry; apply Z.leb_le; lia).
      exact MD.
Qed.

(** ** The birthday window (claim C1) *)

Section Window.

Import WindowSpec.

Lemma date_ok_fields (d : date) :
  date_ok d = true ->
  1 <= year d <= 9999 /\ 1 <= month d <= 12
  /\ 1 <= day d <= days_in_month (year d) (month d).
Proof.
  unfold date_ok, check_date_fields, MINYEAR, MAXYEAR. intros H.
  repeat (apply andb_prop in H; destruct H as [H ?]).
  repeat match goal with
         | X : (_ <=? _) = true |- _ => apply Z.leb_le in X
         end.
  lia.
Qed.

Lemma days_in_month_bounds (y m : Z) :
  1 <= m <= 12 -> 28 <= days_in_month y m <= 31.
Proof.
  intros Hm. unfold days_in_month.
  assert (m = 1 \/ m = 2 \/ m = 3 \/ m = 4 \/ m = 5 \/ m = 6 \/ m = 7
          \/ m = 8 \/ m = 9 \/ m = 10 \/ m = 11 \/ m = 12) as C by lia.
  destruct (is_leap y);
    repeat (destruct C as [-> | C]; [vm_compute; split; discriminate|]);
    subst; vm_compute; split; discriminate.
Qed.

(** Apart from February the length of a month does not depend on the
    year, and February loses its 29th day only. *)
Lemma days_in_month_other_year (y y' m d : Z) :
  1 <= m <= 12 -> d <= days_in_month y m ->
  ~ (m = 2 /\ d = 29 /\ is_leap y' = false) ->
  d <= days_in_month y' m.
Proof.
  intros Hm Hd N. unfold days_in_month in *.
  destruct (Z.eqb_spec m 2) as [-> | M2]; cbn [andb] in *.
  - change (index DAYS_IN_MONTH 2) with 28 in *.
    assert (is_leap y' = false -> d <> 29) by (intros L ->; apply N; auto).
    destruct (is_leap y'); destruct (is_leap y); lia.
  - exact Hd.
Qed.

Lemma replace_year_ok (b : date) (y : Z) :
  date_ok b = true -> 1 <= y <= 9999 -> ~ feb29_missing b y ->
  replace_year b y = Ok (with_year b y).
Proof.
  intros Hb Hy N. apply date_ok_fields in Hb. destruct Hb as (_ & Hm & Hd).
  unfold replace_year, date_new, with_year.
  assert (check_date_fields y (month b) (day b) = true) as ->; [|reflexivity].
  unfold check_date_fields, MINYEAR, MAXYEAR.
  pose proof (days_in_month_other_year (year b) y (month b) (day b) Hm
                (proj2 Hd) N).
  repeat (apply andb_true_intro; split); apply Z.leb_le; lia.
Qed.

Lemma replace_year_missing (b : date) (y : Z) :
  feb29_missing b y ->
  replace_year b y = Raise (ValueError (date_error y 2 29)).
Proof.
  intros (Hm & Hd & Hl). unfold replace_year, date_new. rewrite Hm, Hd.
  assert (check_date_fields y 2 29 = false) as ->; [|reflexivity].
  unfold check_date_fields, days_in_month. rewrite Hl.
  cbn [Z.eqb andb Pos.eqb]. change (index DAYS_IN_MONTH 2) with 28.
  change (29 <=? 28) with false. now rewrite !andb_false_r.
Qed.

(** In a year of the calendar the error names the day. *)
Lemma date_error_day (y m d : Z) :
  1 <= y <= 9999 -> 1 <= m <= 12 ->
  date_error y m d = "day is out of range for month".
Proof.
  intros Hy Hm. unfold date_error, MINYEAR, MAXYEAR.
  destruct (Z.leb_spec 1 y); [|lia]. destruct (Z.leb_spec y 9999); [|lia].
  destruct (Z.leb_spec 1 m); [|lia]. destruct (Z.leb_spec m 12); [|lia].
  reflexivity.
Qed.

Lemma add_days_ok (d e : date) (n : Z) :
  add_days d n = Ok e -> date_ok e = true.
Proof.
  unfold add_days.
  destruct ((0 <? toordinal d + n) && (toordinal d + n <=? MAXORDINAL))
    eqn:E; [|discriminate].
  intros [= <-]. apply andb_prop in E. destruct E as [E1 E2].
  apply Z.ltb_lt in E1. apply Z.leb_le in E2. apply ord2ymd_ok. lia.
Qed.

(** Away from the missing 29 February the test returns, and its result is
    the comparison of the adjusted birthday with the two ends. *)
Lemma is_valid_date_returns (b today end_ : date) :
  date_ok b = true ->
  date_ok today = true ->
  date_ok end_ = true ->
  (forall y, In y (target_years b today end_) -> ~ feb29_missing b y) ->
  is_valid_date b today end_
  = Ok (leb today (adjusted b today end_)
        && leb (adjusted b today end_) end_).
Proof.
  intros Hb Ht He Hfeb.
  pose proof (date_ok_fields _ Ht) as (Hty & _).
  pose proof (date_ok_fields _ He) as (Hey & _).
  unfold is_valid_date.
  rewrite (replace_year_ok b (year today) Hb Hty)
    by (apply Hfeb; left; reflexivity).
  cbn [rbind]. change (year (with_year b (year today))) with (year today).
  unfold adjusted, target_years in *.
  fold (readjustedb b today end_).
  destruct (readjustedb b today end_).
  - change (replace_year (with_year b (year today)) (year end_))
      with (replace_year b (year end_)).
    rewrite (replace_year_ok b (year end_) Hb Hey)
      by (apply Hfeb; right; left; reflexivity).
    cbn [rbind]. now destruct (_ && _).
  - cbn [rbind]. now destruct (_ && _).
Qed.

(** C1. For a birthday [b], a date [today] and [end_] = [today] plus the
    days of the window, and unless [b] is 29 February and a year the
    algorithm moves it to is not a leap year, [is_valid_date] returns, and
    it returns true exactly when the adjusted birthday lies in
    [[today, end_]], both ends included. *)
Theorem is_valid_date_window (b today end_ : date) (window_days : Z) :
  date_ok b = true ->
  date_ok today = true ->
  add_days today window_days = Ok end_ ->
  (forall y, In y (target_years b today end_) -> ~ feb29_missing b y) ->
  exists r : bool,
    is_valid_date b today end_ = Ok r
    /\ (r = true <-> in_window b today end_).
Proof.
  intros Hb Ht Hadd Hfeb.
  pose proof (add_days_ok _ _ _ Hadd) as He.
  exists (leb today (adjusted b today end_)
          && leb (adjusted b today end_) end_).
  split; [now apply is_valid_date_returns|].
  unfold in_window. rewrite andb_true_iff, !leb_le. reflexivity.
Qed.

(** The instance the specification works out: on 29 December 2024 with a
    window of 7 days, a birthday on 3 January is included. *)
Lemma is_valid_date_window_wraparound :
  add_days (mkdate 2024 12 29) 7 = Ok (mkdate 2025 1 5)
  /\ adjusted (mkdate 1985 1 3) (mkdate 2024 12 29) (mkdate 2025 1 5)
     = mkdate 2025 1 3
  /\ is_valid_date (mkdate 1985 1 3) (mkdate 2024 12 29) (mkdate 2025 1 5)
     = Ok true.
Proof.
  split; [reflexivity|]. split; [reflexivity|].
  destruct (is_valid_date_window
              (mkdate 1985 1 3) (mkdate 2024 12 29) (mkdate 2025 1 5) 7)
    as (r & Hr & Hw).
  - reflexivity.
  - reflexivity.
  - reflexivity.
  - intros y _ (Hm & _). discriminate Hm.
  - rewrite Hr. f_equal. apply Hw.
    split; apply leb_le; reflexivity.
Defined.

(** The case the specification leaves open: the move to a year without
    29 February raises [ValueError]. *)
Lemma is_valid_date_feb29 (b today end_ : date) :
  feb29_missing b (year today) ->
  is_valid_date b today end_
  = Raise (ValueError (date_error (year today) 2 29)).
Proof.
  intros H. unfold is_valid_date. rewrite (replace_year_missing _ _ H).
  reflexivity.
Qed.

End Window.

(** ** The stable sort *)

Section SortFacts.

Context {X : Type} (key : X -> date).

Let key_le (x y : X) : Prop := le (key x) (key y).

Lemma cmp_eq (a b : date) : cmp a b = Eq <-> a = b.
Proof.
  unfold cmp. split.
  - destruct (Z.compare_spec (year a) (year b)); try discriminate.
    destruct (Z.compare_spec (month a) (month b)); try discriminate.
    destruct (Z.compare_spec (day a) (day b)); try discriminate.
    intros _. now apply date_eta.
  - intros ->. now rewrite !Z.compare_refl.
Qed.

Lemma eqb_eq (a b : date) : eqb a b = true <-> a = b.
Proof.
  unfold eqb. rewrite <- cmp_eq. destruct (cmp a b); intuition congruence.
Qed.

Lemma ltb_false_le (a b : date) : ltb a b = false -> le b a.
Proof.
  intros H. apply leb_le. revert H. unfold ltb, leb, cmp.
  rewrite (Z.compare_antisym (year a) (year b)),
          (Z.compare_antisym (month a) (month b)),
          (Z.compare_antisym (day a) (day b)).
  destruct (year a ?= year b); cbn; try congruence.
  destruct (month a ?= month b); cbn; try congruence.
  destruct (day a ?= day b); cbn; congruence.
Qed.

Lemma ltb_true_le (a b : date) : ltb a b = true -> le a b.
Proof. intros H. left. now apply ltb_lt. Qed.

Lemma ltb_irrefl (a : date) : ltb a a = false.
Proof. unfold ltb, cmp. now rewrite !Z.compare_refl. Qed.

Lemma insert_perm (x : X) (l : list X) :
  Permutation (insert key x l) (x :: l).
Proof.
  induction l as [|y l IH]; cbn.
  - reflexivity.
  - destruct (ltb (key y) (key x)).
    + rewrite IH. apply perm_swap.
    + reflexivity.
Qed.

Lemma sort_perm (l : list X) : Permutation (sort key l) l.
Proof.
  induction l as [|x l IH]; cbn.
  - reflexivity.
  - rewrite insert_perm. now constructor.
Qed.

Lemma insert_hd (x y : X) (l : list X) :
  key_le y x -> HdRel key_le y l -> HdRel key_le y (insert key x l).
Proof.
  intros Hyx Hl. destruct l as [|z l]; cbn.
  - now constructor.
  - destruct (ltb (key z) (key x)); constructor; trivial.
    now inversion Hl.
Qed.

Lemma insert_sorted (x : X) (l : list X) :
  Sorted key_le l -> Sorted key_le (insert key x l).
Proof.
  induction 1 as [|y l Hs IH Hhd]; cbn.
  - repeat constructor.
  - destruct (ltb (key y) (key x)) eqn:E.
    + constructor; [exact IH|].
      apply insert_hd; [|exact Hhd]. now apply ltb_true_le.
    + constructor; [now constructor|].
      constructor. now apply ltb_false_le.
Qed.

Lemma sort_sorted (l : list X) : Sorted key_le (sort key l).
Proof.
  induction l as [|x l IH]; cbn.
  - constructor.
  - now apply insert_sorted.
Qed.

(** Stability: the entries that share a key keep their order. *)
Lemma insert_stable (k : date) (x : X) (l : list X) :
  filter (fun z => eqb (key z) k) (insert key x l)
  = filter (fun z => eqb (key z) k) (x :: l).
Proof.
  induction l as [|y l IH]; [reflexivity|].
  cbn [insert]. destruct (ltb (key y) (key x)) eqn:E; [|reflexivity].
  cbn [filter] in *. rewrite IH.
  destruct (eqb (key y) k) eqn:Ey; [|reflexivity].
  destruct (eqb (key x) k) eqn:Ex; [|reflexivity].
  apply eqb_eq in Ey, Ex. rewrite Ey, Ex, ltb_irrefl in E. discriminate.
Qed.

Lemma sort_stable (k : date) (l : list X) :
  filter (fun z => eqb (key z) k) (sort key l)
  = filter (fun z => eqb (key z) k) l.
Proof.
  induction l as [|x l IH]; [reflexivity|].
  cbn [sort]. rewrite insert_stable. cbn [filter]. now rewrite IH.
Qed.

End SortFacts.

(** ** The query [birthdays] (claims C2 and C9) *)

Section Birthdays.

Import AddressBook.

(** The loop collects the records of [Spec.upcoming], and leaves the
    directory alone, whether it ends or raises. *)
Lemma birthdays_step_run (today end_ : date) (r : Record_.t)
    (acc : list (Name.t * date)) (book : t) :
  birthdays_step today end_ r acc book
  = (Ok (acc ++ Spec.upcoming today end_ [r])%list, book)
  \/ exists e, birthdays_step today end_ r acc book = (Raise e, book).
Proof.
  unfold birthdays_step, Spec.upcoming. cbn [flat_map].
  destruct (Record_.birthday r) as [b|].
  - unfold bind, lift, ret.
    destruct (is_valid_date (Birthday.value b) today end_) as [[|]|e].
    + left. reflexivity.
    + left. cbn. now rewrite app_nil_r.
    + right. now exists e.
  - left. unfold ret. cbn. now rewrite app_nil_r.
Qed.

Lemma birthdays_loop (today end_ : date) (records : list Record_.t) :
  forall (acc : list (Name.t * date)) (book : t),
    for_each records (birthdays_step today end_) acc book
    = (Ok (acc ++ Spec.upcoming today end_ records)%list, book)
    \/ exists e,
         for_each records (birthdays_step today end_) acc book
         = (Raise e, book).
Proof.
  induction records as [|r records IH]; intros acc book.
  - left. cbn. now rewrite app_nil_r.
  - cbn [for_each]. unfold bind.
    destruct (birthdays_step_run today end_ r acc book) as [H | [e H]];
      rewrite H.
    + destruct (IH (acc ++ Spec.upcoming today end_ [r])%list book)
        as [IH1 | IH1]; [left | right; exact IH1].
      rewrite IH1. rewrite <- app_assoc. do 3 f_equal.
      unfold Spec.upcoming. cbn [flat_map]. now rewrite app_nil_r.
    + right. now exists e.
Qed.

Lemma birthdays_result (today : date) (book : t)
    (res : list (Name.t * date)) :
  fst (birthdays today book) = Ok res ->
  exists end_,
    add_days today 7 = Ok end_
    /\ res = sort snd (Spec.upcoming today end_ (dict_values (data book))).
Proof.
  unfold birthdays, bind, lift, get, ret.
  destruct (add_days today 7) as [end_|e]; [|discriminate].
  destruct (birthdays_loop today end_ (dict_values (data book)) [] book)
    as [H | [e H]]; rewrite H; [|discriminate].
  cbn. intros [= <-]. exists end_. split; reflexivity.
Qed.

(** The query returns when the window stays within the calendar and no
    birthday is a 29 February that a target year lacks. *)
Lemma birthdays_loop_returns (today end_ : date)
    (records : list Record_.t) :
  date_ok today = true ->
  date_ok end_ = true ->
  (forall r b,
     In r records -> Record_.birthday r = Some b ->
     date_ok (Birthday.value b) = true
     /\ forall y,
          In y (WindowSpec.target_years (Birthday.value b) today end_) ->
          ~ WindowSpec.feb29_missing (Birthday.value b) y) ->
  forall (acc : list (Name.t * date)) (book : t),
    for_each records (birthdays_step today end_) acc book
    = (Ok (acc ++ Spec.upcoming today end_ records)%list, book).
Proof.
  intros Ht He Hrec acc book.
  destruct (birthdays_loop today end_ records acc book) as [H | [e H]];
    [exact H | exfalso].
  revert acc H. induction records as [|r records IH]; intros acc H.
  - discriminate H.
  - cbn [for_each] in H. unfold bind in H.
    assert (birthdays_step today end_ r acc book
            = (Ok (acc ++ Spec.upcoming today end_ [r])%list, book)) as S.
    { destruct (birthdays_step_run today end_ r acc book) as [S | [e' S]];
        [exact S | exfalso].
      unfold birthdays_step in S.
      destruct (Record_.birthday r) as [b|] eqn:B; [|discriminate S].
      destruct (Hrec r b (or_introl eq_refl) B) as [Hb Hfeb].
      unfold bind, lift in S.
      rewrite (is_valid_date_returns _ _ _ Hb Ht He Hfeb) in S.
      destruct (_ && _); discriminate S. }
    rewrite S in H. apply (IH (fun r' b' Hin => Hrec r' b' (or_intror Hin))
                             _ H).
Qed.

Lemma birthdays_returns (today end_ : date) (book : t) :
  date_ok today = true ->
  add_days today 7 = Ok end_ ->
  (forall r b,
     In r (dict_values (data book)) -> Record_.birthday r = Some b ->
     date_ok (Birthday.value b) = true
     /\ forall y,
          In y (WindowSpec.target_years (Birthday.value b) today end_) ->
          ~ WindowSpec.feb29_missing (Birthday.value b) y) ->
  birthdays today book
  = (Ok (sort snd (Spec.upcoming today end_ (dict_values (data book)))),
     book).
Proof.
  intros Ht Hadd Hrec. pose proof (add_days_ok _ _ _ Hadd) as He.
  unfold birthdays, bind, lift, get, ret. rewrite Hadd.
  now rewrite (birthdays_loop_returns today end_ _ Ht He Hrec [] book).
Qed.

(** C9. The query leaves the directory, and so every record in it, as it
    was, whether it returns or raises. *)
Theorem birthdays_read_only (today : date) (book : t) :
  snd (birthdays today book) = book.
Proof.
  unfold birthdays, bind, lift, get, ret.
  destruct (add_days today 7) as [end_|e]; [|reflexivity].
  destruct (birthdays_loop today end_ (dict_values (data book)) [] book)
    as [H | [e H]]; rewrite H; reflexivity.
Qed.

(** C2, as amended. The entries the query returns are in ascending order
    of the stored birthday, the year of birth included; they are the
    records with a birthday in the window; and entries with the same
    stored date are in the order of the directory. *)
Theorem birthdays_sorted_by_stored_date (today : date) (book : t)
    (res : list (Name.t * date)) :
  fst (birthdays today book) = Ok res ->
  exists end_,
    add_days today 7 = Ok end_
    /\ Sorted Spec.by_stored_date res
    /\ Permutation res
         (Spec.upcoming today end_ (dict_values (data book)))
    /\ forall k,
         filter (Spec.on_date k) res
         = filter (Spec.on_date k)
             (Spec.upcoming today end_ (dict_values (data book))).
Proof.
  intros H. apply birthdays_result in H. destruct H as (end_ & Hadd & ->).
  exists end_. split; [exact Hadd|]. split; [|split].
  - apply (sort_sorted snd).
  - apply sort_perm.
  - intros k. apply (sort_stable snd).
Qed.

Lemma birthdays_sorted_by_stored_date_sample :
  exists end_,
    add_days Sample.today 7 = Ok end_
    /\ Sorted Spec.by_stored_date
         [(Name.mk "Anna", mkdate 1990 6 5);
          (Name.mk "Boris", mkdate 1995 6 3)]
    /\ Permutation
         [(Name.mk "Anna", mkdate 1990 6 5);
          (Name.mk "Boris", mkdate 1995 6 3)]
         (Spec.upcoming Sample.today end_
            (dict_values (data Sample.book)))
    /\ forall k,
         filter (Spec.on_date k)
           [(Name.mk "Anna", mkdate 1990 6 5);
            (Name.mk "Boris", mkdate 1995 6 3)]
         = filter (Spec.on_date k)
             (Spec.upcoming Sample.today end_
                (dict_values (data Sample.book))).
Proof.
  apply (birthdays_sorted_by_stored_date Sample.today Sample.book).
  reflexivity.
Defined.

(** C2, as stated, fails: Anna (5 June 1990) is listed before Boris
    (3 June 1995), although in the window of 1 June 2024 her adjusted
    date, 5 June 2024, comes after his, 3 June 2024. *)
Lemma birthdays_not_by_adjusted_date :
  add_days Sample.today 7 = Ok Sample.future_date
  /\ fst (birthdays Sample.today Sample.book)
     = Ok [(Name.mk "Anna", mkdate 1990 6 5);
           (Name.mk "Boris", mkdate 1995 6 3)]
  /\ ~ Sorted (Spec.by_adjusted_date Sample.today Sample.future_date)
         [(Name.mk "Anna", mkdate 1990 6 5);
          (Name.mk "Boris", mkdate 1995 6 3)].
Proof.
  split; [reflexivity|]. split; [reflexivity|].
  intros H. inversion H as [|x l Hs Hhd]; subst.
  inversion Hhd as [|y l' Hle]; subst.
  apply leb_le in Hle. discriminate Hle.
Qed.

End Birthdays.

(** ** Strings *)

Section Strings.

Lemma str_eqb_spec (a b : string) : reflect (a = b) (Str.eqb a b).
Proof.
  revert b. induction a as [|x a IH]; intros [|y b]; cbn;
    try (constructor; congruence).
  destruct (N.eqb_spec x y) as [-> | N]; cbn.
  - destruct (IH b) as [-> | N]; constructor; congruence.
  - constructor. congruence.
Qed.

Lemma str_eqb_refl (a : string) : Str.eqb a a = true.
Proof. now destruct (str_eqb_spec a a). Qed.

Lemma str_eq_dec (a b : string) : {a = b} + {a <> b}.
Proof. destruct (str_eqb_spec a b); [now left | now right]. Qed.

End Strings.

(** ** Phone numbers (claim C6) *)

Section Phones.

Import Re.

Lemma find_existsb {X : Type} (f : X -> bool) (l : list X) :
  existsb f l = match find f l with Some _ => true | None => false end.
Proof. induction l as [|x l IH]; cbn; [|destruct (f x)]; trivial. Qed.

Lemma find_ext {X : Type} (f g : X -> bool) (l : list X) :
  (forall x, f x = g x) -> find f l = find g l.
Proof.
  intros E. induction l as [|x l IH]; cbn; [reflexivity|].
  now rewrite E, IH.
Qed.

(** A run of ten digits, told by its first or by its last character. *)
Lemma run_of_ten (zero a : char) :
  ((zero <=? a) && (a <? zero + 10))%N = ((zero <=? a) && (a <=? zero + 9))%N.
Proof.
  destruct (N.leb_spec zero a); cbn [andb]; [|reflexivity].
  destruct (N.ltb_spec a (zero + 10)); destruct (N.leb_spec a (zero + 9));
    trivial; lia.
Qed.

Lemma to_decimal_value (a : char) :
  Unicode.to_decimal a
  = if Spec.decimal_digit a then Some (Spec.digit_value a) else None.
Proof.
  unfold Unicode.to_decimal, Spec.decimal_digit, Spec.digit_value.
  rewrite find_existsb.
  rewrite (find_ext _ (fun zero => (zero <=? a) && (a <=? zero + 9))%N)
    by (intros zero; apply run_of_ten).
  destruct (find _ _) as [zero|] eqn:F; [|reflexivity].
  apply find_some in F. destruct F as [_ F]. apply andb_prop in F.
  destruct F as [F _]. apply N.leb_le in F. f_equal. lia.
Qed.

Lemma is_digit_decimal (a : char) : is_digit a = Spec.decimal_digit a.
Proof.
  unfold is_digit, Unicode.is_decimal. rewrite to_decimal_value.
  now destruct (Spec.decimal_digit a).
Qed.

Lemma run_rep_digit (n : nat) (s : string) (g : groups) {A : Type}
    (k : string -> groups -> option A) :
  run (Rep n Digit) s g k
  = match n with
    | O => k s g
    | S n' => one is_digit s (fun s' => run (Rep n' Digit) s' g k)
    end.
Proof. destruct n; reflexivity. Qed.

Lemma fullmatch_rep_digit (n : nat) :
  forall s : string,
    match fullmatch (Rep n Digit) s with Some _ => true | None => false end
    = Spec.digits_of_length n s.
Proof.
  unfold fullmatch, Spec.digits_of_length, Spec.digits.
  induction n as [|n IH]; intros s; rewrite run_rep_digit.
  - destruct s; reflexivity.
  - destruct s as [|a s]; [reflexivity|].
    cbn [one List.length forallb Nat.eqb].
    rewrite is_digit_decimal.
    destruct (Spec.decimal_digit a).
    + rewrite IH. reflexivity.
    + now rewrite andb_false_r.
Qed.

Lemma validate_ten_digits (s : string) :
  Phone.validate s = Spec.ten_digits s.
Proof. apply (fullmatch_rep_digit 10). Qed.


(** Ten ARABIC-INDIC digits, U+0660 to U+0669, make a phone; nine digits
    and a letter do not. *)
Example phone_init_other_scripts :
  Phone.init Sample.arabic_indic = Ok (Phone.mk Sample.arabic_indic)
  /\ Phone.init "123456789a"
     = Raise (ValueError "Phone must contain exactly 10 digits.").
Proof. split; reflexivity. Qed.

End Phones.

(** ** Records (claims C3, C4 and C10) *)

Section Records.

Import Record_.

Lemma phone_eta (p : Phone.t) : p = Phone.mk (Phone.value p).
Proof. now destruct p. Qed.

Lemma find_from_none (phone : string) (ps : list Phone.t) :
  forall i,
    find_from phone ps i = None <-> ~ In phone (map Phone.value ps).
Proof.
  induction ps as [|p ps IH]; intros i; cbn.
  - tauto.
  - destruct (str_eqb_spec (Phone.value p) phone) as [E | N].
    + split; [discriminate | tauto].
    + rewrite IH. tauto.
Qed.

Lemma find_from_some (phone : string) (ps : list Phone.t) :
  forall i j,
    find_from phone ps i = Some j ->
    exists before after,
      ps = (before ++ Phone.mk phone :: after)%list
      /\ ~ In phone (map Phone.value before)
      /\ j = (i + List.length before)%nat.
Proof.
  induction ps as [|p ps IH]; intros i j; cbn; [discriminate|].
  destruct (str_eqb_spec (Phone.value p) phone) as [E | N].
  - intros [= <-]. exists [], ps. cbn. rewrite <- E, <- phone_eta.
    repeat split; [tauto | lia].
  - intros H. apply IH in H. destruct H as (before & after & -> & Hb & ->).
    exists (p :: before), after. cbn. repeat split; [tauto | lia].
Qed.

Lemma set_nth_middle {X : Type} (x y : X) (before after : list X) :
  set_nth (List.length before) x (before ++ y :: after)
  = (before ++ x :: after)%list.
Proof. induction before as [|z before IH]; cbn; congruence. Qed.



Lemma add_phone_raise (phone : string) (r r' : t) (e : exn) :
  add_phone phone r = (Raise e, r') -> r' = r.
Proof.
  unfold add_phone, bind, lift, get, put.
  destruct (Phone.init phone); intros H; congruence.
Qed.

Lemma edit_phone_raise (old new : string) (r r' : t) (e : exn) :
  edit_phone old new r = (Raise e, r') -> r' = r.
Proof.
  unfold edit_phone, find_phone, bind, get, ret, raise, put.
  destruct (find_from old (phones r) 0);
    [destruct (negb (Phone.validate new))|];
    intros H; congruence.
Qed.

Lemma add_birthday_raise (s : string) (r r' : t) (e : exn) :
  add_birthday s r = (Raise e, r') -> r' = r.
Proof.
  unfold add_birthday, bind, lift, get, put.
  destruct (Birthday.init s); intros H; congruence.
Qed.

(** C4. When [add_phone], [edit_phone] or [add_birthday] raises, the
    record is left exactly as it was before the call: name, phones and
    birthday. *)
Theorem failure_leaves_record (r r' : t) (e : exn) :
  (exists phone, add_phone phone r = (Raise e, r'))
  \/ (exists old new, edit_phone old new r = (Raise e, r'))
  \/ (exists s, add_birthday s r = (Raise e, r')) ->
  r' = r.
Proof.
  intros [[phone H] | [[old [new H]] | [s H]]].
  - exact (add_phone_raise _ _ _ _ H).
  - exact (edit_phone_raise _ _ _ _ _ H).
  - exact (add_birthday_raise _ _ _ _ H).
Qed.

(** An invalid new number leaves the old number, and an unparseable date
    leaves the birthday. *)
Lemma failure_leaves_record_sample :
  snd (edit_phone "1234567890" "12345" Sample.carol) = Sample.carol
  /\ snd (add_birthday "31.04.2001" Sample.carol) = Sample.carol
  /\ snd (add_phone "12345" Sample.carol) = Sample.carol.
Proof.
  split; [|split].
  - apply (failure_leaves_record Sample.carol _
             (ValueError "New phone must contain exactly 10 digits.")).
    right. left. exists "1234567890", "12345". reflexivity.
  - apply (failure_leaves_record Sample.carol _
             (ValueError "Invalid date format. Use DD.MM.YYYY")).
    right. right. exists "31.04.2001". reflexivity.
  - apply (failure_leaves_record Sample.carol _
             (ValueError "Phone must contain exactly 10 digits.")).
    left. exists "12345". reflexivity.
Defined.

End Records.

(** ** The directory (claims C5 and C10) *)

Section Dict.

Import AddressBook.

Context {V : Type}.

Lemma dict_get_set_same (k : string) (v : V) (d : dict V) :
  dict_get k (dict_set k v d) = Some v.
Proof.
  induction d as [|[k' v'] d IH]; cbn.
  - now rewrite str_eqb_refl.
  - destruct (str_eqb_spec k' k) as [E | N]; cbn.
    + rewrite E. now rewrite str_eqb_refl.
    + destruct (str_eqb_spec k' k); [contradiction | exact IH].
Qed.

Lemma dict_get_set_other (k k0 : string) (v : V) (d : dict V) :
  k0 <> k -> dict_get k0 (dict_set k v d) = dict_get k0 d.
Proof.
  intros N. induction d as [|[k' v'] d IH]; cbn.
  - destruct (str_eqb_spec k k0); [congruence | reflexivity].
  - destruct (str_eqb_spec k' k) as [E | N']; cbn.
    + subst k'. destruct (str_eqb_spec k k0); [congruence | reflexivity].
    + destruct (str_eqb_spec k' k0); [reflexivity | exact IH].
Qed.

Lemma dict_set_set (k : string) (v1 v2 : V) (d : dict V) :
  dict_set k v2 (dict_set k v1 d) = dict_set k v2 d.
Proof.
  induction d as [|[k' v'] d IH]; cbn.
  - now rewrite str_eqb_refl.
  - destruct (str_eqb_spec k' k) as [E | N]; cbn.
    + rewrite E. now rewrite str_eqb_refl.
    + destruct (str_eqb_spec k' k); [contradiction | now rewrite IH].
Qed.

(** The keys stay distinct, and an overwritten key keeps its place. *)
Lemma dict_set_keys (k : string) (v : V) (d : dict V) :
  dict_keys (dict_set k v d)
  = if dict_mem k d then dict_keys d else (dict_keys d ++ [k])%list.
Proof.
  unfold dict_mem, dict_keys.
  induction d as [|[k' v'] d IH]; cbn; [reflexivity|].
  destruct (str_eqb_spec k' k) as [E | N]; cbn; [reflexivity|].
  rewrite IH. now destruct (dict_get k d).
Qed.

End Dict.

Section Directory.

Import AddressBook.

(** C5. [add_record] inserts or overwrites the entry keyed by the name of
    the record and touches no other key.  After two calls with records of
    the same name the directory is the one the second call alone gives:
    the name leads to the second record, and whatever a key leads to is
    the second record or was in the directory under another key. *)
Theorem add_record_last_write_wins (book : AddressBook.t)
    (first second : Record_.t) :
  Name.value (Record_.name first) = Name.value (Record_.name second) ->
  let n := Name.value (Record_.name second) in
  let book1 := snd (add_record first book) in
  let book2 := snd (add_record second book1) in
  fst (find n book1) = Ok (Some first)
  /\ (forall k, k <> n -> fst (find k book1) = fst (find k book))
  /\ fst (find n book2) = Ok (Some second)
  /\ book2 = snd (add_record second book)
  /\ forall k r,
       fst (find k book2) = Ok (Some r) ->
       r = second \/ (k <> n /\ fst (find k book) = Ok (Some r)).
Proof.
  intros E n book1 book2. subst n book1 book2.
  unfold add_record, find, bind, get, put, ret. cbn [fst snd data].
  rewrite E. split; [|split; [|split; [|split]]].
  - now rewrite dict_get_set_same.
  - intros k N. now rewrite dict_get_set_other.
  - now rewrite dict_get_set_same.
  - now rewrite dict_set_set.
  - intros k r. rewrite dict_set_set.
    destruct (str_eq_dec k (Name.value (Record_.name second))) as [-> | N].
    + rewrite dict_get_set_same. intros [= ->]. now left.
    + rewrite dict_get_set_other by exact N. intros H. right. now split.
Qed.

Lemma add_record_last_write_wins_sample :
  let twin := Record_.init "Anna" in
  let book2 :=
    snd (add_record twin (snd (add_record Sample.anna (mk [])))) in
  fst (find "Anna" book2) = Ok (Some twin)
  /\ dict_values (data book2) = [twin].
Proof.
  intros twin book2.
  destruct (add_record_last_write_wins (mk []) Sample.anna twin eq_refl)
    as (_ & _ & H & _).
  split; [exact H | reflexivity].
Defined.

(** C10. [Record(name)] checks nothing: for every string, the empty one
    included, it gives a record with that name, no phone and no birthday,
    and [add_record] files the record under exactly that string. *)
Theorem record_init_any_name (s : string) :
  Name.value (Record_.name (Record_.init s)) = s
  /\ Record_.phones (Record_.init s) = []
  /\ Record_.birthday (Record_.init s) = None
  /\ Record_.init [] = Record_.mk (Name.mk []) [] None
  /\ forall book,
       fst (find s (snd (add_record (Record_.init s) book)))
       = Ok (Some (Record_.init s))
       /\ dict_keys (data (snd (add_record (Record_.init s) book)))
          = if dict_mem s (data book)
            then dict_keys (data book)
            else (dict_keys (data book) ++ [s])%list.
Proof.
  repeat split.
  - unfold add_record, find, bind, get, put, ret. cbn.
    now rewrite dict_get_set_same.
  - unfold add_record, bind, get, put. cbn. apply dict_set_keys.
Qed.

End Directory.
(** ** The regular expressions of [strptime] *)

Section Classes.

Import Re.

Lemma char_is_eq (c : ascii) (a : char) : char_is c a = true -> a = ord c.
Proof. unfold char_is. apply N.eqb_eq. Qed.

Lemma in_range_bounds (lo hi : ascii) (a : char) :
  in_range lo hi a = true <-> (ord lo <= a <= ord hi)%N.
Proof.
  unfold in_range. rewrite andb_true_iff, !N.leb_le. reflexivity.
Qed.

Lemma between_bounds (lo hi : ascii) (a : char) :
  Spec.between lo hi a = true <-> (ord lo <= a <= ord hi)%N.
Proof.
  unfold Spec.between. rewrite andb_true_iff, !N.leb_le. reflexivity.
Qed.

Lemma ascii_digit_bounds (a : char) :
  Spec.ascii_digit a = true <-> (48 <= a <= 57)%N.
Proof.
  unfold Spec.ascii_digit. rewrite andb_true_iff, !N.leb_le. reflexivity.
Qed.

Lemma consumed_app (p r : string) : consumed (p ++ r) r = p.
Proof.
  unfold consumed. rewrite length_app.
  replace (List.length p + List.length r - List.length r)%nat
    with (List.length p + 0)%nat by lia.
  rewrite firstn_app_2. cbn [firstn]. apply app_nil_r.
Qed.

Lemma one_some {A : Type} (p : char -> bool) (s : string)
    (k : string -> option A) (x : A) :
  one p s k = Some x ->
  exists a s', s = a :: s' /\ p a = true /\ k s' = Some x.
Proof.
  destruct s as [|a s']; cbn; [discriminate|].
  destruct (p a) eqn:E; [|discriminate].
  intros H. now exists a, s'.
Qed.

Lemma one_dot_some {A : Type} (s : string) (k : string -> option A)
    (x : A) :
  one (char_is ".") s k = Some x ->
  exists rest, s = ord "." :: rest /\ k rest = Some x.
Proof.
  intros H. apply one_some in H. destruct H as (a & s1 & -> & Ha & H).
  apply char_is_eq in Ha. subst a. now exists s1.
Qed.

Lemma alt_some {A : Type} (u v : option A) (x : A) :
  match u with Some y => Some y | None => v end = Some x ->
  u = Some x \/ v = Some x.
Proof. destruct u; auto. Qed.

(** The digits of ASCII are the first run of decimal digits. *)
Lemma ascii_digit_decimal (a : char) :
  (48 <= a <= 57)%N ->
  Spec.decimal_digit a = true /\ Spec.digit_value a = Z.of_N a - 48.
Proof.
  intros H. unfold Spec.decimal_digit, Spec.digit_value.
  change Unicode.decimal_zeros with (48%N :: tl Unicode.decimal_zeros).
  cbn [existsb find].
  assert (((48 <=? a) && (a <=? 48 + 9))%N = true) as ->.
  { apply andb_true_intro. split; apply N.leb_le; lia. }
  split; reflexivity.
Qed.

(** Every decimal digit is one of the ten characters of a run. *)
Lemma decimal_digit_listed (a : char) :
  Spec.decimal_digit a = true -> In a Unicode.decimal_digits.
Proof.
  unfold Spec.decimal_digit, Unicode.decimal_digits. intros H.
  apply existsb_exists in H. destruct H as (zero & Hz & H).
  apply andb_prop in H. destruct H as [H1 H2].
  apply N.leb_le in H1, H2.
  apply in_flat_map. exists zero. split; [exact Hz|].
  apply in_map_iff. exists (a - zero)%N. split; [lia|].
  assert (a - zero = 0 \/ a - zero = 1 \/ a - zero = 2 \/ a - zero = 3
          \/ a - zero = 4 \/ a - zero = 5 \/ a - zero = 6
          \/ a - zero = 7 \/ a - zero = 8 \/ a - zero = 9)%N as C by lia.
  cbn [In]. intuition auto.
Qed.

(** What holds of the listed digits holds of every decimal digit. *)
Lemma decimal_digit_all (p : char -> bool) (a : char) :
  forallb p Unicode.decimal_digits = true ->
  Spec.decimal_digit a = true -> p a = true.
Proof.
  intros H Ha. apply decimal_digit_listed in Ha.
  rewrite forallb_forall in H. now apply H.
Qed.

Lemma digit_value_bounds (a : char) :
  Spec.decimal_digit a = true -> 0 <= Spec.digit_value a <= 9.
Proof.
  intros H.
  pose proof (decimal_digit_all
                (fun a => (0 <=? Spec.digit_value a)
                          && (Spec.digit_value a <=? 9)) a) as P.
  cbv beta in P. apply andb_prop in P; [|now vm_compute|exact H].
  destruct P as [P1 P2]. apply Z.leb_le in P1, P2. lia.
Qed.

End Classes.

(** Hypotheses on character classes, as facts on code points. *)
Ltac class_facts :=
  repeat match goal with
         | H : Re.char_is _ _ = true |- _ =>
             apply char_is_eq in H; cbn in H; subst
         | H : Re.in_range _ _ _ = true |- _ =>
             apply in_range_bounds in H; cbn in H
         | H : Spec.between _ _ _ = true |- _ =>
             apply between_bounds in H; cbn in H
         | H : Re.is_digit _ = true |- _ => rewrite is_digit_decimal in H
         | H : (_ =? _)%N = true |- _ => apply N.eqb_eq in H; cbn in H; subst
         | H : _ && _ = true |- _ => apply andb_prop in H; destruct H
         end.

(** Decide the tests on code points one after the other. *)
Ltac decide_codes :=
  repeat (match goal with
          | H : ?t = true |- context [?t] => rewrite H
          | |- context [(?x =? ?y)%N] => destruct (N.eqb_spec x y)
          | |- context [(?x <=? ?y)%N] => destruct (N.leb_spec x y)
          end; cbn [andb orb negb]);
  try reflexivity; try lia; try congruence.

Section Directives.

Import Re Strptime.

Context {A : Type} (k : string -> groups -> option A).

Lemma run_d_sound (s : string) (g : groups) (x : A) :
  run directive_d s g k = Some x ->
  exists dd rest,
    s = dd ++ rest
    /\ Spec.day_field dd = true
    /\ k rest (("d", dd) :: g) = Some x.
Proof.
  unfold directive_d. cbn [run]. intros H.
  repeat (apply alt_some in H; destruct H as [H | H]);
    apply one_some in H; destruct H as (a & s1 & -> & Ha & H);
    try (apply one_some in H; destruct H as (b & s2 & -> & Hb & H)).
  - exists [a; b], s2. change (a :: b :: s2) with ([a; b] ++ s2) in H.
    rewrite consumed_app in H. class_facts. repeat split; trivial.
    unfold Spec.day_field, Spec.between. cbn. decide_codes.
  - exists [a; b], s2. change (a :: b :: s2) with ([a; b] ++ s2) in H.
    rewrite consumed_app in H. class_facts. repeat split; trivial.
    unfold Spec.day_field, Spec.between. cbn -[Spec.decimal_digit].
    decide_codes.
  - exists [a; b], s2. change (a :: b :: s2) with ([a; b] ++ s2) in H.
    rewrite consumed_app in H. class_facts. repeat split; trivial.
    unfold Spec.day_field, Spec.between. cbn -[Spec.decimal_digit].
    decide_codes; now rewrite !orb_true_r.
  - exists [a], s1. change (a :: s1) with ([a] ++ s1) in H.
    rewrite consumed_app in H. class_facts. repeat split; trivial.
    unfold Spec.day_field, Spec.between. cbn. decide_codes.
  - exists [a; b], s2. change (a :: b :: s2) with ([a; b] ++ s2) in H.
    rewrite consumed_app in H. class_facts. repeat split; trivial.
    unfold Spec.day_field, Spec.between. cbn -[Spec.decimal_digit].
    decide_codes; now rewrite !orb_true_r.
Qed.

Lemma run_m_sound (s : string) (g : groups) (x : A) :
  run directive_m s g k = Some x ->
  exists mm rest,
    s = mm ++ rest
    /\ Spec.month_field mm = true
    /\ k rest (("m", mm) :: g) = Some x.
Proof.
  unfold directive_m. cbn [run]. intros H.
  repeat (apply alt_some in H; destruct H as [H | H]);
    apply one_some in H; destruct H as (a & s1 & -> & Ha & H);
    try (apply one_some in H; destruct H as (b & s2 & -> & Hb & H)).
  - exists [a; b], s2. change (a :: b :: s2) with ([a; b] ++ s2) in H.
    rewrite consumed_app in H. class_facts. repeat split; trivial.
    unfold Spec.month_field, Spec.between. cbn. decide_codes.
  - exists [a; b], s2. change (a :: b :: s2) with ([a; b] ++ s2) in H.
    rewrite consumed_app in H. class_facts. repeat split; trivial.
    unfold Spec.month_field, Spec.between. cbn. decide_codes.
  - exists [a], s1. change (a :: s1) with ([a] ++ s1) in H.
    rewrite consumed_app in H. class_facts. repeat split; trivial.
    unfold Spec.month_field, Spec.between. cbn. decide_codes.
Qed.

Lemma run_Y_sound (s : string) (g : groups) (x : A) :
  run directive_Y s g k = Some x ->
  exists yyyy rest,
    s = yyyy ++ rest
    /\ Spec.year_field yyyy = true
    /\ k rest (("Y", yyyy) :: g) = Some x.
Proof.
  unfold directive_Y. cbn [run]. intros H.
  apply one_some in H; destruct H as (a & s1 & -> & Ha & H).
  apply one_some in H; destruct H as (b & s2 & -> & Hb & H).
  apply one_some in H; destruct H as (c & s3 & -> & Hc & H).
  apply one_some in H; destruct H as (d & s4 & -> & Hd & H).
  exists [a; b; c; d], s4.
  change (a :: b :: c :: d :: s4) with ([a; b; c; d] ++ s4) in H.
  rewrite consumed_app in H. class_facts. repeat split; trivial.
  unfold Spec.year_field, Spec.digits_of_length, Spec.digits.
  cbn [List.length Nat.eqb forallb andb]. now rewrite Ha, Hb, Hc, Hd.
Qed.

End Directives.

(** ** [int] on the groups of the format *)

Section Int.

Import Re Strptime.

(** A decimal digit is no white space, no sign and no underscore. *)
Lemma digit_plain (a : char) :
  Spec.decimal_digit a = true ->
  is_space a = false /\ a <> ord "+" /\ a <> ord "-" /\ a <> ord "_".
Proof.
  intros H.
  pose proof (decimal_digit_all
                (fun a => negb (is_space a) && negb (a =? ord "+")%N
                          && negb (a =? ord "-")%N
                          && negb (a =? ord "_")%N) a) as P.
  cbv beta in P.
  assert (negb (is_space a) && negb (a =? ord "+")%N
          && negb (a =? ord "-")%N && negb (a =? ord "_")%N = true) as Q
    by (apply P; [now vm_compute | exact H]).
  repeat (apply andb_prop in Q; destruct Q as [Q ?]).
  repeat match goal with
         | X : negb _ = true |- _ => apply negb_true_iff in X
         end.
  repeat split; trivial; now apply N.eqb_neq.
Qed.

Lemma lstrip_digits (s : string) : Spec.digits s = true -> lstrip s = s.
Proof.
  destruct s as [|a s]; [reflexivity|]. unfold Spec.digits. cbn.
  intros H. apply andb_prop in H.
  now rewrite (proj1 (digit_plain a (proj1 H))).
Qed.

Lemma rstrip_digits (s : string) : Spec.digits s = true -> rstrip s = s.
Proof.
  unfold Spec.digits. induction s as [|a s IH]; cbn; [reflexivity|].
  intros H. apply andb_prop in H. destruct H as [Ha Hs].
  rewrite (IH Hs). destruct s; [|reflexivity].
  now rewrite (proj1 (digit_plain a Ha)).
Qed.

Lemma digits_value_decimal (s : string) :
  forall acc after_digit,
    Spec.digits s = true ->
    s <> [] \/ after_digit = true ->
    digits_value acc after_digit s = Some (Spec.decimal acc s).
Proof.
  unfold Spec.digits.
  induction s as [|a s IH]; intros acc after_digit H N; cbn.
  - destruct N as [N | ->]; [congruence | reflexivity].
  - cbn in H. apply andb_prop in H. destruct H as [Ha Hs].
    rewrite to_decimal_value, Ha. apply IH; [exact Hs | now right].
Qed.

Lemma int_digits (s : string) :
  Spec.digits s = true -> s <> [] ->
  int_ s = Ok (Spec.decimal 0 s).
Proof.
  intros H N. unfold int_.
  rewrite (lstrip_digits s H), (rstrip_digits s H).
  destruct s as [|a s]; [congruence|].
  assert (Spec.decimal_digit a = true) as Ha.
  { unfold Spec.digits in H. cbn in H. now apply andb_prop in H. }
  destruct (digit_plain a Ha) as (_ & Hp & Hm & _).
  destruct (N.eqb_spec a (ord "+")); [contradiction|].
  destruct (N.eqb_spec a (ord "-")); [contradiction|].
  rewrite (digits_value_decimal (a :: s) 0 false H) by (left; discriminate).
  f_equal. lia.
Qed.

Lemma digits_of_length_digits (n : nat) (s : string) :
  Spec.digits_of_length (S n) s = true ->
  Spec.digits s = true /\ s <> [].
Proof.
  unfold Spec.digits_of_length. intros H. apply andb_prop in H.
  destruct H as [L D]. split; [exact D|]. intros ->. discriminate L.
Qed.

(** The characters of the fields are ASCII digits, but for the places the
    pattern gives to [\d]. *)
Lemma day_field_cases (dd : string) :
  Spec.day_field dd = true ->
  (exists a, dd = [a] /\ (49 <= a <= 57)%N)
  \/ (exists a b, dd = [a; b] /\ a = 51%N /\ (48 <= b <= 49)%N)
  \/ (exists a b, dd = [a; b] /\ (49 <= a <= 50)%N
                  /\ Spec.decimal_digit b = true)
  \/ (exists a b, dd = [a; b] /\ a = 48%N /\ (49 <= b <= 57)%N)
  \/ (exists a b, dd = [a; b] /\ a = 32%N /\ (49 <= b <= 57)%N).
Proof.
  destruct dd as [|a [|b [|c t]]]; cbn [Spec.day_field];
    try discriminate; intros H.
  - left. exists a. class_facts. now split.
  - right.
    repeat (apply orb_prop in H; destruct H as [H | H]); class_facts.
    + left. exists a, b. repeat split; trivial; lia.
    + right. left. now exists a, b.
    + right. right. left. exists a, b. repeat split; trivial; lia.
    + right. right. right. now exists 32%N, b.
Qed.

Lemma month_field_cases (mm : string) :
  Spec.month_field mm = true ->
  (exists a, mm = [a] /\ (49 <= a <= 57)%N)
  \/ (exists a b, mm = [a; b] /\ a = 49%N /\ (48 <= b <= 50)%N)
  \/ (exists a b, mm = [a; b] /\ a = 48%N /\ (49 <= b <= 57)%N).
Proof.
  destruct mm as [|a [|b [|c t]]]; cbn [Spec.month_field];
    try discriminate; intros H.
  - left. exists a. class_facts. now split.
  - right.
    repeat (apply orb_prop in H; destruct H as [H | H]); class_facts.
    + left. exists a, b. repeat split; trivial; lia.
    + right. exists a, b. repeat split; trivial; lia.
Qed.

Lemma digits_2 (a b : char) :
  Spec.decimal_digit a = true -> Spec.decimal_digit b = true ->
  Spec.digits [a; b] = true.
Proof. intros Ha Hb. unfold Spec.digits. cbn. now rewrite Ha, Hb. Qed.

Lemma int_month_field (mm : string) :
  Spec.month_field mm = true -> int_ mm = Ok (Spec.decimal 0 mm).
Proof.
  intros H.
  destruct (month_field_cases mm H)
    as [(a & -> & Ha) | [(a & b & -> & Ha & Hb) | (a & b & -> & Ha & Hb)]];
    apply int_digits; try discriminate.
  - unfold Spec.digits. cbn.
    now rewrite (proj1 (ascii_digit_decimal a ltac:(lia))).
  - apply digits_2; apply ascii_digit_decimal; lia.
  - apply digits_2; apply ascii_digit_decimal; lia.
Qed.

Lemma int_year_field (yyyy : string) :
  Spec.year_field yyyy = true -> int_ yyyy = Ok (Spec.decimal 0 yyyy).
Proof.
  unfold Spec.year_field. intros H. apply digits_of_length_digits in H.
  now apply int_digits.
Qed.

Lemma int_day_field (dd : string) :
  Spec.day_field dd = true -> int_ dd = Ok (Spec.decimal 0 dd).
Proof.
  intros H.
  destruct (day_field_cases dd H)
    as [(a & -> & Ha)
       | [(a & b & -> & Ha & Hb)
         | [(a & b & -> & Ha & Hb)
           | [(a & b & -> & Ha & Hb) | (a & b & -> & Ha & Hb)]]]].
  - apply int_digits; [|discriminate]. unfold Spec.digits. cbn.
    now rewrite (proj1 (ascii_digit_decimal a ltac:(lia))).
  - apply int_digits; [|discriminate].
    apply digits_2; apply ascii_digit_decimal; lia.
  - apply int_digits; [|discriminate].
    apply digits_2; [apply ascii_digit_decimal; lia | exact Hb].
  - apply int_digits; [|discriminate].
    apply digits_2; apply ascii_digit_decimal; lia.
  - subst a.
    assert (Spec.digits [b] = true) as D.
    { unfold Spec.digits. cbn.
      now rewrite (proj1 (ascii_digit_decimal b ltac:(lia))). }
    pose proof (int_digits [b] D ltac:(discriminate)) as I.
    unfold int_ in *. change (lstrip [32%N; b]) with (lstrip [b]).
    rewrite I. reflexivity.
Qed.

End Int.

(** ** What [strptime] accepts *)

Section Parsing.

Import Re Strptime.

Lemma format_regex_sound (s rest : string) (found : groups) :
  match_ format_regex s = Some (rest, found) ->
  exists dd mm yyyy,
    s = dd ++ "." ++ mm ++ "." ++ yyyy ++ rest
    /\ Spec.day_field dd = true
    /\ Spec.month_field mm = true
    /\ Spec.year_field yyyy = true
    /\ found = [("Y", yyyy); ("m", mm); ("d", dd)].
Proof.
  unfold match_, format_regex. cbn [run]. intros H.
  apply run_d_sound in H. destruct H as (dd & r1 & -> & Hd & H).
  apply one_dot_some in H. destruct H as (r2 & -> & H).
  apply run_m_sound in H. destruct H as (mm & r3 & -> & Hm & H).
  apply one_dot_some in H. destruct H as (r4 & -> & H).
  apply run_Y_sound in H. destruct H as (yyyy & r5 & -> & Hy & H).
  injection H as <- <-. now exists dd, mm, yyyy.
Qed.

Lemma fields_date (dd mm yyyy : string) :
  Spec.day_field dd = true ->
  Spec.month_field mm = true ->
  Spec.year_field yyyy = true ->
  (y <~ group_int "Y" [("Y", yyyy); ("m", mm); ("d", dd)] ;;
   m <~ group_int "m" [("Y", yyyy); ("m", mm); ("d", dd)] ;;
   d <~ group_int "d" [("Y", yyyy); ("m", mm); ("d", dd)] ;;
   date_new y m d)
  = date_new (Spec.decimal 0 yyyy) (Spec.decimal 0 mm) (Spec.decimal 0 dd).
Proof.
  intros Hd Hm Hy. unfold group_int.
  change (group "Y" [("Y", yyyy); ("m", mm); ("d", dd)]) with (Some yyyy).
  change (group "m" [("Y", yyyy); ("m", mm); ("d", dd)]) with (Some mm).
  change (group "d" [("Y", yyyy); ("m", mm); ("d", dd)]) with (Some dd).
  cbv beta iota.
  now rewrite (int_year_field _ Hy), (int_month_field _ Hm),
    (int_day_field _ Hd).
Qed.

Lemma date_new_fields (dd mm yyyy : string) (d : date) :
  date_new (Spec.decimal 0 yyyy) (Spec.decimal 0 mm) (Spec.decimal 0 dd)
  = Ok d
  <-> Spec.date_of_fields dd mm yyyy = Some d.
Proof.
  unfold date_new, Spec.date_of_fields.
  destruct (check_date_fields _ _ _); split; congruence.
Qed.

Lemma strptime_sound (s : string) (d : date) :
  strptime s = Ok d -> Spec.lenient_format s d.
Proof.
  unfold strptime.
  destruct (match_ format_regex s) as [[rest found]|] eqn:M; [|discriminate].
  destruct rest; [|discriminate].
  apply format_regex_sound in M.
  destruct M as (dd & mm & yyyy & -> & Hd & Hm & Hy & ->).
  rewrite (fields_date dd mm yyyy Hd Hm Hy), date_new_fields. intros H.
  exists dd, mm, yyyy. rewrite app_nil_r. repeat split; assumption.
Qed.

(** [strptime] raises nothing but [ValueError]. *)
Lemma strptime_raises (s : string) (e : exn) :
  strptime s = Raise e -> exists msg, e = ValueError msg.
Proof.
  unfold strptime.
  destruct (match_ format_regex s) as [[rest found]|] eqn:M.
  - destruct rest; [|intros [= <-]; eauto].
    apply format_regex_sound in M.
    destruct M as (dd & mm & yyyy & _ & Hd & Hm & Hy & ->).
    rewrite (fields_date dd mm yyyy Hd Hm Hy). unfold date_new.
    destruct (check_date_fields _ _ _); [discriminate|].
    intros [= <-]; eauto.
  - intros [= <-]; eauto.
Qed.

End Parsing.

Section Completeness.

Import Re Strptime.

Context {A : Type} (k : string -> groups -> option A).

Lemma is_digit_dot : is_digit (ord ".") = false.
Proof. reflexivity. Qed.

Lemma run_d_complete (dd tail : string) (g : groups) (x : A) :
  Spec.day_field dd = true ->
  k (ord "." :: tail) (("d", dd) :: g) = Some x ->
  run directive_d (dd ++ ord "." :: tail) g k = Some x.
Proof.
  intros F H.
  destruct (day_field_cases dd F)
    as [(a & -> & Ha)
       | [(a & b & -> & Ha & Hb)
         | [(a & b & -> & Ha & Hb)
           | [(a & b & -> & Ha & Hb) | (a & b & -> & Ha & Hb)]]]].
  - pose proof (consumed_app [a] (ord "." :: tail)) as C.
    cbn -[consumed] in C, H. unfold directive_d.
    cbn -[consumed]. rewrite C, H.
    unfold char_is, in_range. cbn -[consumed].
    change (is_digit 46%N) with false. decide_codes.
  - pose proof (consumed_app [a; b] (ord "." :: tail)) as C.
    cbn -[consumed] in C, H. unfold directive_d.
    cbn -[consumed]. rewrite C, H. subst a.
    unfold char_is, in_range. cbn -[consumed]. decide_codes.
  - pose proof (consumed_app [a; b] (ord "." :: tail)) as C.
    cbn -[consumed] in C, H. unfold directive_d.
    cbn -[consumed]. rewrite C, H. rewrite <- is_digit_decimal in Hb.
    rewrite Hb. unfold char_is, in_range. cbn -[consumed]. decide_codes.
  - pose proof (consumed_app [a; b] (ord "." :: tail)) as C.
    cbn -[consumed] in C, H. unfold directive_d.
    cbn -[consumed]. rewrite C, H. subst a.
    unfold char_is, in_range. cbn -[consumed]. decide_codes.
  - pose proof (consumed_app [a; b] (ord "." :: tail)) as C.
    cbn -[consumed] in C, H. unfold directive_d.
    cbn -[consumed]. rewrite C, H. subst a.
    unfold char_is, in_range. cbn -[consumed]. decide_codes.
Qed.

Lemma run_m_complete (mm tail : string) (g : groups) (x : A) :
  Spec.month_field mm = true ->
  k (ord "." :: tail) (("m", mm) :: g) = Some x ->
  run directive_m (mm ++ ord "." :: tail) g k = Some x.
Proof.
  intros F H.
  destruct (month_field_cases mm F)
    as [(a & -> & Ha) | [(a & b & -> & Ha & Hb) | (a & b & -> & Ha & Hb)]].
  - pose proof (consumed_app [a] (ord "." :: tail)) as C.
    cbn -[consumed] in C, H. unfold directive_m.
    cbn -[consumed]. rewrite C, H.
    unfold char_is, in_range. cbn -[consumed]. decide_codes.
  - pose proof (consumed_app [a; b] (ord "." :: tail)) as C.
    cbn -[consumed] in C, H. unfold directive_m.
    cbn -[consumed]. rewrite C, H. subst a.
    unfold char_is, in_range. cbn -[consumed]. decide_codes.
  - pose proof (consumed_app [a; b] (ord "." :: tail)) as C.
    cbn -[consumed] in C, H. unfold directive_m.
    cbn -[consumed]. rewrite C, H. subst a.
    unfold char_is, in_range. cbn -[consumed]. decide_codes.
Qed.

Lemma run_Y_complete (yyyy tail : string) (g : groups) :
  Spec.year_field yyyy = true ->
  run directive_Y (yyyy ++ tail) g k = k tail (("Y", yyyy) :: g).
Proof.
  unfold Spec.year_field, Spec.digits_of_length, Spec.digits. intros F.
  destruct yyyy as [|a [|b [|c [|d [|e t]]]]]; try discriminate F.
  cbn [List.length Nat.eqb forallb andb] in F.
  repeat (apply andb_prop in F; destruct F as [? F]).
  pose proof (consumed_app [a; b; c; d] tail) as C. cbn [app] in C.
  unfold directive_Y. cbn -[consumed]. rewrite C.
  rewrite !is_digit_decimal.
  repeat match goal with X : Spec.decimal_digit _ = true |- _ =>
           rewrite X; clear X end.
  reflexivity.
Qed.

End Completeness.

Section Shapes.

Abbreviation digit a := (48 <= a <= 57)%N.

Abbreviation value a := (Z.of_N a - 48).

Lemma ascii_digits_of_length_2 (s : string) :
  Spec.ascii_digits_of_length 2 s = true ->
  exists a b, s = [a; b] /\ digit a /\ digit b.
Proof.
  destruct s as [|a [|b [|c t]]]; try discriminate.
  unfold Spec.ascii_digits_of_length. cbn.
  rewrite andb_true_r. intros H. apply andb_prop in H.
  destruct H as [Ha Hb]. apply ascii_digit_bounds in Ha, Hb.
  now exists a, b.
Qed.

Lemma ascii_digits_of_length_4 (s : string) :
  Spec.ascii_digits_of_length 4 s = true ->
  exists a b c d,
    s = [a; b; c; d] /\ digit a /\ digit b /\ digit c /\ digit d.
Proof.
  destruct s as [|a [|b [|c [|d [|e t]]]]]; try discriminate.
  unfold Spec.ascii_digits_of_length. cbn.
  rewrite andb_true_r. intros H.
  apply andb_prop in H. destruct H as [Ha H].
  apply andb_prop in H. destruct H as [Hb H].
  apply andb_prop in H. destruct H as [Hc Hd].
  apply ascii_digit_bounds in Ha, Hb, Hc, Hd.
  exists a, b, c, d. repeat split; lia.
Qed.

Lemma decimal_step (acc : Z) (a : char) (s : string) :
  digit a -> Spec.decimal acc (a :: s) = Spec.decimal (10 * acc + value a) s.
Proof.
  intros Ha. destruct (ascii_digit_decimal a Ha) as [D V].
  cbn [Spec.decimal]. now rewrite D, V.
Qed.

Lemma decimal_1 (a : char) : digit a -> Spec.decimal 0 [a] = value a.
Proof. intros Ha. rewrite decimal_step by exact Ha. cbn. lia. Qed.

Lemma decimal_2 (a b : char) :
  digit a -> digit b -> Spec.decimal 0 [a; b] = 10 * value a + value b.
Proof.
  intros Ha Hb. rewrite !decimal_step by assumption. cbn [Spec.decimal]. lia.
Qed.

Lemma decimal_4 (a b c d : char) :
  digit a -> digit b -> digit c -> digit d ->
  Spec.decimal 0 [a; b; c; d]
  = 1000 * value a + 100 * value b + 10 * value c + value d.
Proof.
  intros Ha Hb Hc Hd. rewrite !decimal_step by assumption.
  cbn [Spec.decimal]. lia.
Qed.

End Shapes.

Section Accepting.

Import Re Strptime.

Abbreviation digit a := (48 <= a <= 57)%N.

Abbreviation value a := (Z.of_N a - 48).

Lemma date_of_fields_bounds (dd mm yyyy : string) (d : date) :
  Spec.date_of_fields dd mm yyyy = Some d ->
  1 <= Spec.decimal 0 mm <= 12 /\ 1 <= Spec.decimal 0 dd <= 31.
Proof.
  unfold Spec.date_of_fields.
  destruct (check_date_fields _ _ _) eqn:E; [|discriminate]. intros _.
  pose proof (date_ok_fields
                (mkdate (Spec.decimal 0 yyyy) (Spec.decimal 0 mm)
                   (Spec.decimal 0 dd)) E) as (_ & Hm & Hd).
  cbn [year month day] in *.
  pose proof (days_in_month_bounds (Spec.decimal 0 yyyy) _ Hm). lia.
Qed.

Lemma format_regex_complete (dd mm yyyy : string) :
  Spec.day_field dd = true ->
  Spec.month_field mm = true ->
  Spec.year_field yyyy = true ->
  match_ format_regex (dd ++ "." ++ mm ++ "." ++ yyyy)
  = Some ([], [("Y", yyyy); ("m", mm); ("d", dd)]).
Proof.
  intros Hd Hm Hy. unfold match_, format_regex. cbn [run app].
  apply run_d_complete; trivial. cbn [one].
  change (char_is "." (ord ".")) with true. cbv iota.
  apply run_m_complete; trivial. cbn [one].
  change (char_is "." (ord ".")) with true. cbv iota.
  rewrite <- (app_nil_r yyyy) at 1.
  now rewrite run_Y_complete.
Qed.

Lemma strptime_complete (s : string) (d : date) :
  Spec.lenient_format s d -> strptime s = Ok d.
Proof.
  intros (dd & mm & yyyy & -> & Hd & Hm & Hy & Hdate).
  unfold strptime. rewrite (format_regex_complete dd mm yyyy) by trivial.
  rewrite (fields_date dd mm yyyy Hd Hm Hy). now apply date_new_fields.
Qed.

Lemma strptime_lenient (s : string) (d : date) :
  strptime s = Ok d <-> Spec.lenient_format s d.
Proof. split; [apply strptime_sound | apply strptime_complete]. Qed.

(** A calendar date in the fixed format is in the format [strptime]
    reads. *)
Lemma fixed_is_lenient (s : string) (d : date) :
  Spec.fixed_format s d -> Spec.lenient_format s d.
Proof.
  intros (dd & mm & yyyy & E & Hd & Hm & Hy & Hdate).
  pose proof (date_of_fields_bounds _ _ _ _ Hdate) as (Vm & Vd).
  exists dd, mm, yyyy. repeat split; trivial.
  - apply ascii_digits_of_length_2 in Hd.
    destruct Hd as (a & b & -> & Ha & Hb).
    rewrite (decimal_2 a b Ha Hb) in Vd.
    destruct (ascii_digit_decimal b Hb) as [Db _].
    unfold Spec.day_field, Spec.between. rewrite Db. cbn -[N.leb N.eqb].
    decide_codes.
  - apply ascii_digits_of_length_2 in Hm.
    destruct Hm as (a & b & -> & Ha & Hb).
    rewrite (decimal_2 a b Ha Hb) in Vm.
    unfold Spec.month_field, Spec.between. cbn -[N.leb N.eqb].
    decide_codes.
  - apply ascii_digits_of_length_4 in Hy.
    destruct Hy as (a & b & c & e & -> & Ha & Hb & Hc & He).
    unfold Spec.year_field, Spec.digits_of_length, Spec.digits.
    cbn [List.length Nat.eqb forallb andb].
    now rewrite (proj1 (ascii_digit_decimal a Ha)),
      (proj1 (ascii_digit_decimal b Hb)),
      (proj1 (ascii_digit_decimal c Hc)),
      (proj1 (ascii_digit_decimal e He)).
Qed.

Lemma birthday_init_strptime (s : string) (d : date) :
  Birthday.init s = Ok (Birthday.mk d) <-> strptime s = Ok d.
Proof.
  unfold Birthday.init. destruct (strptime s) as [d'|[msg|msg]];
    split; congruence.
Qed.

(** A stored birthday is a calendar date. *)
Lemma birthday_init_date_ok (s : string) (b : Birthday.t) :
  Birthday.init s = Ok b -> date_ok (Birthday.value b) = true.
Proof.
  destruct b as [d]. rewrite birthday_init_strptime. intros H.
  apply strptime_sound in H.
  destruct H as (dd & mm & yyyy & _ & _ & _ & _ & H).
  unfold Spec.date_of_fields in H.
  destruct (check_date_fields _ _ _) eqn:E; [|discriminate].
  injection H as <-. exact E.
Qed.

(** C7, as amended. [Birthday(s)] accepts exactly the strings
    day.month.year that denote a calendar date, where the day is written
    1 to 9, 01 to 09, 10 to 31 or a space and 1 to 9, the month 1 to 9,
    01 to 09 or 10 to 12, and the year with four decimal digits; it stores
    that date.  The digits are ['0'] to ['9'], but for the four digits of
    the year and the second digit of the days 10 to 29, which may be
    decimal digits of any script.  Every other string, an impossible date
    included, raises the [ValueError] of the invalid format.  Two digits
    for the day and the month are not required. *)
Theorem birthday_init_accepts (s : string) :
  (forall d,
     Birthday.init s = Ok (Birthday.mk d) <-> Spec.lenient_format s d)
  /\ ((forall d, ~ Spec.lenient_format s d) ->
      Birthday.init s
      = Raise (ValueError "Invalid date format. Use DD.MM.YYYY")).
Proof.
  split.
  - intros d. rewrite birthday_init_strptime. apply strptime_lenient.
  - intros N. unfold Birthday.init.
    destruct (strptime s) as [d|e] eqn:E.
    + apply strptime_sound in E. now apply N in E.
    + apply strptime_raises in E. destruct E as [msg ->]. reflexivity.
Qed.

(** An unpadded date is read, and so are an ARABIC-INDIC year (U+0661
    U+0669 U+0669 U+0660) and the day 15 with an ARABIC-INDIC five
    (U+0665); 31 April is refused, and so is the day 05 in ARABIC-INDIC
    digits (U+0660 U+0665). *)
Lemma birthday_init_accepts_sample :
  Spec.lenient_format "5.3.1990" (mkdate 1990 3 5)
  /\ Spec.lenient_format ("05.03." ++ [1633; 1641; 1641; 1632]%N)
       (mkdate 1990 3 5)
  /\ Spec.lenient_format ("1" ++ [1637]%N ++ ".03.1990") (mkdate 1990 3 15)
  /\ Birthday.init "31.04.2001"
     = Raise (ValueError "Invalid date format. Use DD.MM.YYYY")
  /\ Birthday.init ([1632; 1637]%N ++ ".03.1990")
     = Raise (ValueError "Invalid date format. Use DD.MM.YYYY").
Proof.
  split; [|split; [|split; [|split]]].
  - apply (proj1 (birthday_init_accepts "5.3.1990")). reflexivity.
  - apply (proj1 (birthday_init_accepts
                    ("05.03." ++ [1633; 1641; 1641; 1632]%N))).
    reflexivity.
  - apply (proj1 (birthday_init_accepts ("1" ++ [1637]%N ++ ".03.1990"))).
    reflexivity.
  - apply (proj2 (birthday_init_accepts "31.04.2001")).
    intros d H.
    apply (proj1 (birthday_init_accepts "31.04.2001")) in H.
    discriminate H.
  - apply (proj2 (birthday_init_accepts ([1632; 1637]%N ++ ".03.1990"))).
    intros d H.
    apply (proj1 (birthday_init_accepts ([1632; 1637]%N ++ ".03.1990")))
      in H.
    discriminate H.
Defined.

(** C7, as stated, fails: ["5.3.1990"], with a one-digit day and month,
    is not in the fixed two-digit format and is accepted. *)
Lemma birthday_init_accepts_unpadded :
  Birthday.init "5.3.1990" = Ok (Birthday.mk (mkdate 1990 3 5))
  /\ forall d, ~ Spec.fixed_format "5.3.1990" d.
Proof.
  split; [reflexivity|].
  intros d (dd & mm & yyyy & E & Hd & _).
  apply ascii_digits_of_length_2 in Hd. destruct Hd as (a & b & -> & Ha & Hb).
  cbn in E. injection E as <- <- _. lia.
Qed.

End Accepting.
(** ** Formatting a date back (claim C8) *)

Section RoundTrip.

Import Strftime.

Abbreviation digit a := (48 <= a <= 57)%N.

Abbreviation value a := (Z.of_N a - 48).

Lemma digit_char_value (a : char) : digit a -> digit_char (value a) = a.
Proof.
  intros Ha. unfold digit_char.
  lia.
Qed.

Lemma pad2_value (a b : char) :
  digit a -> digit b ->
  pad2 (10 * value a + value b) = [a; b].
Proof.
  intros Ha Hb. unfold pad2.
  replace ((10 * value a + value b) / 10 mod 10) with (value a)
    by (Z.div_mod_to_equations; lia).
  replace ((10 * value a + value b) mod 10) with (value b)
    by (Z.div_mod_to_equations; lia).
  now rewrite !digit_char_value.
Qed.

Lemma pad4_value (a b c d : char) :
  digit a -> digit b -> digit c -> digit d ->
  pad4 (1000 * value a + 100 * value b + 10 * value c + value d)
  = [a; b; c; d].
Proof.
  intros Ha Hb Hc Hd. unfold pad4, pad2.
  set (n := 1000 * value a + 100 * value b + 10 * value c + value d).
  replace (n / 1000 mod 10) with (value a)
    by (unfold n; Z.div_mod_to_equations; lia).
  replace (n / 100 mod 10) with (value b)
    by (unfold n; Z.div_mod_to_equations; lia).
  replace (n / 10 mod 10) with (value c)
    by (unfold n; Z.div_mod_to_equations; lia).
  replace (n mod 10) with (value d)
    by (unfold n; Z.div_mod_to_equations; lia).
  now rewrite !digit_char_value.
Qed.

Lemma unpadded_from_1000 (n : Z) : 1000 <= n -> unpadded n = pad4 n.
Proof.
  intros H. unfold unpadded.
  destruct (Z.ltb_spec n 10); [lia|].
  destruct (Z.ltb_spec n 100); [lia|].
  destruct (Z.ltb_spec n 1000); [lia | reflexivity].
Qed.

Lemma strftime_fields (libc : c_library) (dd mm yyyy : string) (d : date) :
  Spec.ascii_digits_of_length 2 dd = true ->
  Spec.ascii_digits_of_length 2 mm = true ->
  Spec.ascii_digits_of_length 4 yyyy = true ->
  Spec.date_of_fields dd mm yyyy = Some d ->
  libc = FourDigitYear \/ 1000 <= year d ->
  strftime libc d = dd ++ "." ++ mm ++ "." ++ yyyy.
Proof.
  intros Hd Hm Hy Hdate Hlibc.
  apply ascii_digits_of_length_2 in Hd, Hm.
  apply ascii_digits_of_length_4 in Hy.
  destruct Hd as (d1 & d2 & -> & Hd1 & Hd2).
  destruct Hm as (m1 & m2 & -> & Hm1 & Hm2).
  destruct Hy as (y1 & y2 & y3 & y4 & -> & Hy1 & Hy2 & Hy3 & Hy4).
  unfold Spec.date_of_fields in Hdate.
  rewrite (decimal_2 d1 d2), (decimal_2 m1 m2), (decimal_4 y1 y2 y3 y4)
    in Hdate by assumption.
  destruct (check_date_fields _ _ _); [|discriminate].
  assert (d = mkdate
                (1000 * value y1 + 100 * value y2 + 10 * value y3
                 + value y4)
                (10 * value m1 + value m2) (10 * value d1 + value d2))
    as -> by congruence.
  unfold strftime. cbn [year month day] in *.
  assert (year_text libc
            (1000 * value y1 + 100 * value y2 + 10 * value y3 + value y4)
          = pad4 (1000 * value y1 + 100 * value y2 + 10 * value y3
                  + value y4)) as ->.
  { destruct Hlibc as [-> | Hy]; [reflexivity|].
    destruct libc; [|reflexivity]. now apply unpadded_from_1000. }
  rewrite pad2_value, pad2_value, pad4_value by assumption.
  reflexivity.
Qed.

(** C8, as amended. A string that is a calendar date written as
    dd.mm.yyyy, with a year from 1000 on, is accepted by [Birthday], which
    stores that date, and formatting the stored date with ["%d.%m.%Y"], as
    [Record.__str__] does, gives the string back, whatever the C library. *)
Theorem birthday_round_trip (libc : c_library) (s : string) (d : date) :
  Spec.fixed_format s d ->
  1000 <= year d ->
  Birthday.init s = Ok (Birthday.mk d)
  /\ strftime libc (Birthday.value (Birthday.mk d)) = s
  /\ forall r,
       Record_.birthday r = Some (Birthday.mk d) ->
       Record_.str libc r
       = Name.value (Record_.name r) ++ ": phones: "
         ++ Record_.join "; " (map Phone.value (Record_.phones r))
         ++ ", birthday: " ++ s.
Proof.
  intros F Hy.
  assert (strftime libc d = s) as S.
  { destruct F as (dd & mm & yyyy & -> & Hd & Hm & Hyy & Hdate).
    apply strftime_fields; auto. }
  split; [|split].
  - apply birthday_init_strptime, strptime_complete.
    now apply fixed_is_lenient.
  - exact S.
  - intros r Hr. unfold Record_.str. rewrite Hr. cbn [Birthday.value].
    now rewrite S.
Qed.

Lemma birthday_round_trip_sample :
  Birthday.init "05.03.1990" = Ok (Birthday.mk (mkdate 1990 3 5))
  /\ strftime Glibc (mkdate 1990 3 5) = "05.03.1990".
Proof.
  destruct (birthday_round_trip Glibc "05.03.1990" (mkdate 1990 3 5))
    as (H1 & H2 & _).
  - exists "05", "03", "1990". repeat split; reflexivity.
  - cbn. lia.
  - split; [exact H1 | exact H2].
Defined.

(** C8, as stated, fails: ["01.01.0999"] is a calendar date written as
    dd.mm.yyyy and is accepted, and with glibc the stored date is formatted
    back as ["01.01.999"]. *)
Lemma birthday_round_trip_year_999 :
  Spec.fixed_format "01.01.0999" (mkdate 999 1 1)
  /\ Birthday.init "01.01.0999" = Ok (Birthday.mk (mkdate 999 1 1))
  /\ strftime Glibc (mkdate 999 1 1) = "01.01.999"
  /\ strftime Glibc (mkdate 999 1 1) <> "01.01.0999".
Proof.
  split; [|split; [|split]].
  - exists "01", "01", "0999". repeat split; reflexivity.
  - reflexivity.
  - reflexivity.
  - discriminate.
Qed.

(** With a C library that prints the year on four digits the round trip
    holds for every year. *)
Lemma birthday_round_trip_four_digit_year (s : string) (d : date) :
  Spec.fixed_format s d ->
  Birthday.init s = Ok (Birthday.mk d) /\ strftime FourDigitYear d = s.
Proof.
  intros F. split.
  - apply birthday_init_strptime, strptime_complete.
    now apply fixed_is_lenient.
  - destruct F as (dd & mm & yyyy & -> & Hd & Hm & Hyy & Hdate).
    apply strftime_fields; auto.
Qed.

End RoundTrip.
(** * Further properties of the code *)

(** ** The methods of [Record] *)

Section RecordMethods.

Import Record_.

(** X1. [add_phone] succeeds exactly on the strings of ten decimal digits,
    the digits of any script, and then puts the number last, after the
    phones the record has, duplicates included; name and birthday stay. *)
Theorem add_phone_appends (r : t) (phone : string) :
  add_phone phone r
  = if Spec.ten_digits phone
    then (Ok tt,
          mk (name r) (phones r ++ [Phone.mk phone])%list (birthday r))
    else (Raise (ValueError "Phone must contain exactly 10 digits."), r).
Proof.
  unfold add_phone, bind, lift, get, put, Phone.init.
  rewrite validate_ten_digits. now destruct (Spec.ten_digits phone).
Qed.

(** X2. [find_phone] changes nothing and never raises; it returns the
    first entry whose value is the number, and nothing exactly when no
    entry has that value. *)
Theorem find_phone_first (r : t) (phone : string) :
  exists found,
    find_phone phone r = (Ok found, r)
    /\ match found with
       | None => ~ In phone (map Phone.value (phones r))
       | Some i =>
           exists before after,
             phones r = (before ++ Phone.mk phone :: after)%list
             /\ ~ In phone (map Phone.value before)
             /\ i = List.length before
       end.
Proof.
  unfold find_phone, bind, get, ret.
  exists (find_from phone (phones r) 0). split; [reflexivity|].
  destruct (find_from phone (phones r) 0) as [i|] eqn:F.
  - apply find_from_some in F. destruct F as (before & after & ? & ? & ->).
    now exists before, after.
  - now apply find_from_none in F.
Qed.

Lemma del_nth_middle {X : Type} (y : X) (before after : list X) :
  del_nth (List.length before) (before ++ y :: after)
  = (before ++ after)%list.
Proof. induction before as [|z before IH]; cbn; congruence. Qed.

(** X3. [remove_phone] never raises.  When no entry has the number the
    record is left as it was; otherwise the first entry with that value is
    taken out, and the other entries, later duplicates included, keep their
    order. *)
Theorem remove_phone_first (r : t) (phone : string) :
  exists r',
    remove_phone phone r = (Ok tt, r')
    /\ ((~ In phone (map Phone.value (phones r)) /\ r' = r)
        \/ exists before after,
             phones r = (before ++ Phone.mk phone :: after)%list
             /\ ~ In phone (map Phone.value before)
             /\ r' = mk (name r) (before ++ after)%list (birthday r)).
Proof.
  unfold remove_phone, find_phone, bind, get, ret, put.
  destruct (find_from phone (phones r) 0) as [i|] eqn:F.
  - apply find_from_some in F.
    destruct F as (before & after & Hps & Hb & ->).
    eexists. split; [reflexivity|]. right. exists before, after.
    repeat split; trivial. unfold set_phones. rewrite Hps. cbn [Nat.add].
    now rewrite del_nth_middle.
  - apply find_from_none in F. exists r. split; [reflexivity|]. now left.
Qed.

Lemma edit_phone_done (r r' : t) (old new : string) :
  edit_phone old new r = (Ok tt, r') ->
  Spec.ten_digits new = true
  /\ exists before after,
       phones r = (before ++ Phone.mk old :: after)%list
       /\ ~ In old (map Phone.value before)
       /\ r' = mk (name r) (before ++ Phone.mk new :: after)%list
                 (birthday r).
Proof.
  unfold edit_phone, find_phone, bind, get, ret, raise, put.
  rewrite validate_ten_digits.
  destruct (find_from old (phones r) 0) as [i|] eqn:F; [|discriminate].
  destruct (Spec.ten_digits new); cbn [negb]; [|discriminate].
  intros [= <-]. split; [reflexivity|].
  apply find_from_some in F. destruct F as (before & after & Hps & Hb & ->).
  exists before, after. repeat split; trivial.
  unfold set_phones. rewrite Hps. cbn [Nat.add]. now rewrite set_nth_middle.
Qed.

Lemma find_phone_none (r : t) (phone : string) :
  fst (find_phone phone r) = Ok None
  <-> ~ In phone (map Phone.value (phones r)).
Proof.
  unfold find_phone, bind, get, ret. cbn [fst].
  rewrite <- (find_from_none phone (phones r) 0).
  split; [now intros [= ->] | now intros ->].
Qed.

Lemma find_phone_some (r : t) (phone : string) :
  In phone (map Phone.value (phones r)) ->
  exists i, fst (find_phone phone r) = Ok (Some i).
Proof.
  intros HIn. unfold find_phone, bind, get, ret. cbn [fst].
  destruct (find_from phone (phones r) 0) as [i|] eqn:F; [now exists i|].
  apply find_from_none in F. contradiction.
Qed.

(** X4. After a successful [edit_phone(old, new)] the record has as many
    phones as before and [find_phone(new)] finds one; [find_phone(old)]
    finds nothing exactly when [old] differs from [new] and the record held
    [old] once: of several entries equal to [old] only the first is
    changed. *)
Theorem edit_phone_then_find (r r' : t) (old new : string) :
  edit_phone old new r = (Ok tt, r') ->
  List.length (phones r') = List.length (phones r)
  /\ (exists i, fst (find_phone new r') = Ok (Some i))
  /\ (fst (find_phone old r') = Ok None
      <-> old <> new
          /\ count_occ str_eq_dec (map Phone.value (phones r)) old = 1%nat).
Proof.
  intros E. apply edit_phone_done in E.
  destruct E as (_ & before & after & Hps & Hb & ->).
  cbn [phones]. rewrite Hps. split; [|split].
  - rewrite !length_app. reflexivity.
  - apply find_phone_some. cbn [phones]. rewrite map_app.
    apply in_or_app. right. now left.
  - rewrite find_phone_none. cbn [phones].
    rewrite !map_app, count_occ_app, in_app_iff. cbn [map Phone.value].
    rewrite (proj1 (count_occ_not_In str_eq_dec _ _) Hb).
    cbn [count_occ In]. destruct (str_eq_dec old old) as [_|N]; [|congruence].
    pose proof (count_occ_In str_eq_dec (map Phone.value after) old) as C.
    split.
    + intros N. split; [intros ->; tauto|].
      destruct (count_occ str_eq_dec (map Phone.value after) old) eqn:Z;
        [reflexivity|]. exfalso. apply N. right. right. apply C. lia.
    + intros [N Z] [H | [H | H]]; [tauto | congruence |].
      apply C in H. lia.
Qed.

Lemma edit_phone_then_find_sample :
  exists i,
    fst (find_phone "0000000000"
           (snd (edit_phone "1234567890" "0000000000" Sample.carol)))
    = Ok (Some i).
Proof.
  apply (edit_phone_then_find Sample.carol _ "1234567890" "0000000000").
  reflexivity.
Defined.

(** X5. [add_birthday] on a string of the format [strptime] reads
    ([Spec.lenient_format], with its decimal digits of any script for the
    year) stores the date it denotes in place of any birthday the record
    had and keeps name and phones; on every other string it raises the
    [ValueError] of the invalid format and changes nothing. *)
Theorem add_birthday_cases (r : t) (s : string) :
  (exists d,
     Spec.lenient_format s d
     /\ add_birthday s r
        = (Ok tt, mk (name r) (phones r) (Some (Birthday.mk d))))
  \/ ((forall d, ~ Spec.lenient_format s d)
      /\ add_birthday s r
         = (Raise (ValueError "Invalid date format. Use DD.MM.YYYY"), r)).
Proof.
  unfold add_birthday, bind, lift, get, put, Birthday.init.
  destruct (Strptime.strptime s) as [d|e] eqn:E.
  - left. exists d. split; [now apply strptime_sound | reflexivity].
  - right. split.
    + intros d H. apply strptime_complete in H. congruence.
    + apply strptime_raises in E. destruct E as [msg ->]. reflexivity.
Qed.

(** X23. Adding a phone and removing it again.  When the record did not
    hold the number, [add_phone] followed by [remove_phone] gives the record
    back.  When it did, [remove_phone] takes out the earlier entry, not the
    one just added, which stays last. *)
Theorem add_phone_then_remove (r : t) (phone : string) :
  Spec.ten_digits phone = true ->
  (~ In phone (map Phone.value (phones r)) ->
   snd (remove_phone phone (snd (add_phone phone r))) = r)
  /\ forall before after,
       phones r = (before ++ Phone.mk phone :: after)%list ->
       ~ In phone (map Phone.value before) ->
       snd (remove_phone phone (snd (add_phone phone r)))
       = mk (name r) (before ++ after ++ [Phone.mk phone])%list (birthday r).
Proof.
  intros Hp.
  assert (add_phone phone r
          = (Ok tt,
             mk (name r) (phones r ++ [Phone.mk phone])%list (birthday r)))
    as E.
  { unfold add_phone, bind, lift, get, put, Phone.init.
    now rewrite validate_ten_digits, Hp. }
  rewrite E. cbn [snd].
  unfold remove_phone, find_phone, bind, get, ret, put. cbn [phones].
  split.
  - intros N.
    destruct (find_from phone (phones r ++ [Phone.mk phone]) 0) as [i|] eqn:F.
    + apply find_from_some in F.
      destruct F as (before & after & Hps & Hb & ->).
      cbn [snd set_phones phones name birthday Nat.add].
      rewrite Hps, del_nth_middle.
      destruct after as [|p after].
      * apply app_inj_tail in Hps. destruct Hps as [<- _].
        unfold set_phones. cbn [name birthday]. rewrite app_nil_r.
        now destruct r.
      * exfalso. apply N.
        assert (phones r
                = (before ++ Phone.mk phone :: removelast (p :: after))%list)
          as ->.
        { rewrite <- (removelast_last (phones r) (Phone.mk phone)), Hps.
          now rewrite removelast_app by discriminate. }
        rewrite map_app. apply in_or_app. right. now left.
    + apply find_from_none in F. exfalso. apply F. rewrite map_app.
      apply in_or_app. right. now left.
  - intros before after Hps Hb.
    assert (find_from phone (phones r ++ [Phone.mk phone]) 0
            = Some (List.length before)) as F.
    { rewrite Hps, <- app_assoc. cbn [app]. clear Hps.
      change (List.length before) with (0 + List.length before)%nat.
      generalize 0%nat as i. induction before as [|q before IH]; intros i.
      - cbn. rewrite str_eqb_refl. f_equal. lia.
      - cbn. destruct (str_eqb_spec (Phone.value q) phone) as [Eq | Nq].
        + exfalso. apply Hb. now left.
        + rewrite IH by (intros H; apply Hb; now right). f_equal. lia. }
    rewrite F. cbn [snd set_phones phones name birthday].
    rewrite Hps, <- app_assoc. cbn [app]. now rewrite del_nth_middle.
Qed.

Lemma add_phone_then_remove_sample :
  snd (remove_phone "5555555555"
         (snd (add_phone "5555555555" Sample.carol)))
  = Sample.carol.
Proof.
  apply (add_phone_then_remove Sample.carol "5555555555").
  - reflexivity.
  - cbn. intros [H | [H | []]]; discriminate H.
Defined.

End RecordMethods.

(** ** The invariant of a record *)

Section RecordInvariant.

Import Record_ Invariant.

Lemma record_ok_init (name : string) : record_ok (Record_.init name).
Proof. split; [constructor | exact I]. Qed.

Lemma add_phone_keeps (r : t) (phone : string) :
  record_ok r ->
  record_ok (snd (add_phone phone r))
  /\ name (snd (add_phone phone r)) = name r.
Proof.
  intros [Hp Hb]. unfold add_phone, bind, lift, get, put, Phone.init.
  rewrite validate_ten_digits.
  destruct (Spec.ten_digits phone) eqn:E; cbn; split; trivial;
    split; trivial.
  apply Forall_app. split; [exact Hp|]. now repeat constructor.
Qed.

Lemma remove_phone_keeps (r : t) (phone : string) :
  record_ok r ->
  record_ok (snd (remove_phone phone r))
  /\ name (snd (remove_phone phone r)) = name r.
Proof.
  intros [Hp Hb]. unfold remove_phone, find_phone, bind, get, ret, put.
  destruct (find_from phone (phones r) 0) as [i|] eqn:F; cbn;
    split; trivial; split; trivial.
  apply find_from_some in F. destruct F as (before & after & Hps & _ & ->).
  rewrite Hps in *. cbn [Nat.add]. rewrite del_nth_middle.
  apply Forall_app in Hp. destruct Hp as [H1 H2].
  apply Forall_app. split; [exact H1 | now inversion H2].
Qed.

Lemma edit_phone_keeps (r : t) (old new : string) :
  record_ok r ->
  record_ok (snd (edit_phone old new r))
  /\ name (snd (edit_phone old new r)) = name r.
Proof.
  intros [Hp Hb]. unfold edit_phone, find_phone, bind, get, ret, raise, put.
  rewrite validate_ten_digits.
  destruct (find_from old (phones r) 0) as [i|] eqn:F; cbn;
    [|split; trivial; split; trivial].
  destruct (Spec.ten_digits new) eqn:E; cbn; split; trivial;
    split; trivial.
  apply find_from_some in F. destruct F as (before & after & Hps & _ & ->).
  rewrite Hps in *. cbn [Nat.add]. rewrite set_nth_middle.
  apply Forall_app in Hp. destruct Hp as [H1 H2].
  apply Forall_app. split; [exact H1|].
  inversion H2; subst. now constructor.
Qed.

Lemma add_birthday_keeps (r : t) (s : string) :
  record_ok r ->
  record_ok (snd (add_birthday s r))
  /\ name (snd (add_birthday s r)) = name r.
Proof.
  intros [Hp Hb]. unfold add_birthday, bind, lift, get, put.
  destruct (Birthday.init s) as [bd|e] eqn:E; cbn; split; trivial;
    split; trivial.
  now apply (birthday_init_date_ok s).
Qed.

(** X6. A record whose phones are strings of ten decimal digits, the
    digits of any script, and whose birthday is a calendar date stays so
    under every method, whether the call succeeds or raises; no method
    changes the name. *)
Theorem record_ok_kept (r : t) :
  record_ok r ->
  forall a b : string,
    (record_ok (snd (add_phone a r))
     /\ name (snd (add_phone a r)) = name r)
    /\ (record_ok (snd (remove_phone a r))
        /\ name (snd (remove_phone a r)) = name r)
    /\ (record_ok (snd (edit_phone a b r))
        /\ name (snd (edit_phone a b r)) = name r)
    /\ (record_ok (snd (add_birthday a r))
        /\ name (snd (add_birthday a r)) = name r).
Proof.
  intros Hr a b. split; [|split; [|split]].
  - now apply add_phone_keeps.
  - now apply remove_phone_keeps.
  - now apply edit_phone_keeps.
  - now apply add_birthday_keeps.
Qed.

Lemma record_ok_kept_sample :
  record_ok (snd (edit_phone "1234567890" Sample.fullwidth Sample.carol))
  /\ record_ok (snd (add_phone Sample.arabic_indic Sample.carol)).
Proof.
  split.
  - apply (record_ok_kept Sample.carol).
    split; [repeat constructor | reflexivity].
  - apply (record_ok_kept Sample.carol).
    + split; [repeat constructor | reflexivity].
    + exact [].
Defined.

End RecordInvariant.

(** ** The directory: lookup, deletion and its invariant *)

Section DictFacts.

Import AddressBook.

Context {V : Type}.

Lemma dict_get_none (k : string) (d : dict V) :
  dict_get k d = None <-> ~ In k (dict_keys d).
Proof.
  unfold dict_keys. induction d as [|[k' v'] d IH]; cbn; [tauto|].
  destruct (str_eqb_spec k' k) as [E | N].
  - split; [discriminate | tauto].
  - rewrite IH. tauto.
Qed.

Lemma dict_del_keys_sub (k k0 : string) (d : dict V) :
  In k0 (dict_keys (dict_del k d)) -> In k0 (dict_keys d).
Proof.
  unfold dict_keys. induction d as [|[k' v'] d IH]; cbn; [tauto|].
  destruct (str_eqb_spec k' k); cbn; tauto.
Qed.

Lemma dict_del_nodup (k : string) (d : dict V) :
  NoDup (dict_keys d) -> NoDup (dict_keys (dict_del k d)).
Proof.
  unfold dict_keys. induction d as [|[k' v'] d IH]; cbn; [trivial|].
  intros Hd. inversion Hd as [|? ? Hn Hd']; subst.
  destruct (str_eqb_spec k' k); cbn; [exact Hd'|].
  constructor; [|now apply IH].
  intros HIn. apply Hn. now apply (dict_del_keys_sub k).
Qed.

Lemma dict_get_del_same (k : string) (d : dict V) :
  NoDup (dict_keys d) -> dict_get k (dict_del k d) = None.
Proof.
  unfold dict_keys. induction d as [|[k' v'] d IH]; cbn; [trivial|].
  intros Hd. inversion Hd as [|? ? Hn Hd']; subst.
  destruct (str_eqb_spec k' k) as [E | N]; cbn.
  - subst k'. now apply dict_get_none.
  - destruct (str_eqb_spec k' k); [contradiction | now apply IH].
Qed.

Lemma dict_get_del_other (k k0 : string) (d : dict V) :
  k0 <> k -> dict_get k0 (dict_del k d) = dict_get k0 d.
Proof.
  intros N. induction d as [|[k' v'] d IH]; cbn; [trivial|].
  destruct (str_eqb_spec k' k) as [E | N']; cbn.
  - subst k'. destruct (str_eqb_spec k k0); [congruence | reflexivity].
  - destruct (str_eqb_spec k' k0); [reflexivity | exact IH].
Qed.

Lemma dict_del_absent (k : string) (d : dict V) :
  dict_get k d = None -> dict_del k d = d.
Proof.
  induction d as [|[k' v'] d IH]; cbn; [trivial|].
  destruct (str_eqb_spec k' k); [discriminate|].
  intros H. now rewrite IH.
Qed.

Lemma dict_del_forall (P : string * V -> Prop) (k : string) (d : dict V) :
  Forall P d -> Forall P (dict_del k d).
Proof.
  induction 1 as [|[k' v'] d Hx Hd IH]; cbn; [constructor|].
  destruct (Str.eqb k' k); [exact Hd | now constructor].
Qed.

Lemma dict_set_nodup (k : string) (v : V) (d : dict V) :
  NoDup (dict_keys d) -> NoDup (dict_keys (dict_set k v d)).
Proof.
  intros Hd. rewrite dict_set_keys. unfold dict_mem.
  destruct (dict_get k d) eqn:E; [exact Hd|].
  apply dict_get_none in E.
  apply NoDup_app; [exact Hd | repeat constructor; intros [] |].
  intros x Hx [<- | []]. contradiction.
Qed.

Lemma dict_set_forall (P : string * V -> Prop) (k : string) (v : V)
    (d : dict V) :
  P (k, v) -> Forall P d -> Forall P (dict_set k v d).
Proof.
  intros Hv. induction 1 as [|[k' v'] d Hx Hd IH]; cbn.
  - now repeat constructor.
  - destruct (str_eqb_spec k' k) as [-> | N]; now constructor.
Qed.

Lemma dict_set_absent_last (k : string) (v : V) (d : dict V) :
  dict_get k d = None -> dict_set k v d = (d ++ [(k, v)])%list.
Proof.
  induction d as [|[k' v'] d IH]; cbn; [reflexivity|].
  destruct (str_eqb_spec k' k) as [E | N]; [discriminate|].
  intros H. now rewrite IH.
Qed.

Lemma dict_get_in (k : string) (v : V) (d : dict V) :
  dict_get k d = Some v -> In (k, v) d.
Proof.
  induction d as [|[k' v'] d IH]; cbn; [discriminate|].
  destruct (str_eqb_spec k' k) as [-> | N].
  - intros [= ->]. now left.
  - intros H. right. now apply IH.
Qed.

End DictFacts.

Section DirectoryInvariant.

Import AddressBook Invariant.

Lemma book_ok_empty : book_ok (mk []).
Proof. split; constructor. Qed.

Lemma book_ok_set (book : AddressBook.t) (r : Record_.t) :
  book_ok book -> record_ok r ->
  book_ok (mk (dict_set (Name.value (Record_.name r)) r (data book))).
Proof.
  intros [Hk He] Hr. split; cbn [data].
  - now apply dict_set_nodup.
  - apply dict_set_forall; [|exact He]. cbn. now split.
Qed.

Lemma book_ok_find (book : AddressBook.t) (k : string) (r : Record_.t) :
  book_ok book -> dict_get k (data book) = Some r ->
  Name.value (Record_.name r) = k /\ record_ok r.
Proof.
  intros [_ He] H. apply dict_get_in in H.
  rewrite Forall_forall in He. exact (He _ H).
Qed.

(** X7. On a directory with distinct keys [delete] never raises; after it
    [find] of the name finds nothing, every other name leads to what it led
    to, a name that was absent leaves the directory as it was, and the
    invariant of the directory is kept. *)
Theorem delete_then_find (book : AddressBook.t) (name : string) :
  book_ok book ->
  exists book',
    delete name book = (Ok tt, book')
    /\ fst (find name book') = Ok None
    /\ (forall k, k <> name -> fst (find k book') = fst (find k book))
    /\ (fst (find name book) = Ok None -> book' = book)
    /\ book_ok book'.
Proof.
  intros [Hk He].
  unfold delete, find, bind, get, put, ret, dict_mem. cbn [fst].
  destruct (dict_get name (data book)) as [r|] eqn:G.
  - eexists. split; [reflexivity|]. cbn [data fst].
    split; [|split; [|split]].
    + now rewrite dict_get_del_same.
    + intros k N. now rewrite dict_get_del_other.
    + discriminate.
    + split; cbn [data]; [now apply dict_del_nodup|].
      now apply dict_del_forall.
  - exists book. split; [reflexivity|]. rewrite G.
    repeat split; trivial.
Qed.

Lemma book_ok_sample : book_ok Sample.book.
Proof.
  split.
  - cbn. repeat constructor; cbn; intuition discriminate.
  - repeat constructor.
Defined.

Lemma delete_then_find_sample :
  exists book',
    delete "Anna" Sample.book = (Ok tt, book')
    /\ fst (find "Anna" book') = Ok None
    /\ (forall k, k <> "Anna" ->
        fst (find k book') = fst (find k Sample.book))
    /\ (fst (find "Anna" Sample.book) = Ok None -> book' = Sample.book)
    /\ book_ok book'.
Proof. apply (delete_then_find Sample.book "Anna"), book_ok_sample. Defined.

(** X8. The directory keeps its invariant under [add_record] of a record
    with phones of ten digits and a calendar birthday: the keys stay
    distinct, every record is filed under its own name, and the records
    stay well formed.  A new name goes last and a name already there keeps
    its place. *)
Theorem add_record_keeps_invariant (book : AddressBook.t)
    (r : Record_.t) :
  book_ok book ->
  record_ok r ->
  fst (add_record r book) = Ok tt
  /\ book_ok (snd (add_record r book))
  /\ dict_keys (data (snd (add_record r book)))
     = if dict_mem (Name.value (Record_.name r)) (data book)
       then dict_keys (data book)
       else (dict_keys (data book) ++ [Name.value (Record_.name r)])%list.
Proof.
  intros Hb Hr. unfold add_record, bind, get, put. cbn [fst snd].
  split; [reflexivity|]. split; [now apply book_ok_set|].
  cbn [data]. apply dict_set_keys.
Qed.

Lemma add_record_keeps_invariant_sample :
  book_ok (snd (add_record Sample.carol Sample.book)).
Proof.
  apply (add_record_keeps_invariant Sample.book Sample.carol).
  - exact book_ok_sample.
  - split; [repeat constructor | reflexivity].
Defined.

(** X24. [add_record] of a record whose name the directory does not have,
    followed by [delete] of that name, gives the directory back. *)
Theorem add_record_then_delete (book : AddressBook.t) (r : Record_.t) :
  fst (find (Name.value (Record_.name r)) book) = Ok None ->
  delete (Name.value (Record_.name r)) (snd (add_record r book))
  = (Ok tt, book).
Proof.
  unfold find, add_record, delete, bind, get, put, ret, dict_mem.
  cbn [fst snd data]. intros [= G].
  rewrite dict_get_set_same, (dict_set_absent_last _ _ _ G).
  f_equal. destruct book as [d]. cbn [data] in *. f_equal.
  clear - G. induction d as [|[k v] d IH]; cbn in *.
  - now rewrite str_eqb_refl.
  - destruct (str_eqb_spec k (Name.value (Record_.name r)));
      [discriminate|].
    now rewrite IH.
Qed.

Lemma add_record_then_delete_sample :
  delete "Carol" (snd (add_record Sample.carol Sample.book))
  = (Ok tt, Sample.book).
Proof.
  apply (add_record_then_delete Sample.book Sample.carol). reflexivity.
Defined.

End DirectoryInvariant.
(** ** Dates and ordinals

    [toordinal] and [fromordinal] are inverse to each other and follow the
    order of the dates. *)

Section Ordinals.

Lemma days_before_year_succ (y : Z) :
  1 <= y ->
  days_before_year (y + 1) = days_before_year y + 365 + Z_of_bool (is_leap y).
Proof.
  intros Hy. unfold days_before_year, is_leap, Z_of_bool.
  replace (y + 1 - 1) with y by lia.
  destruct (Z.eqb_spec (y mod 4) 0) as [E4 | E4];
    destruct (Z.eqb_spec (y mod 100) 0) as [E100 | E100];
    destruct (Z.eqb_spec (y mod 400) 0) as [E400 | E400];
    cbn [negb andb orb];
    Z.div_mod_to_equations; lia.
Qed.

Lemma days_before_year_mono (y y' : Z) :
  1 <= y <= y' -> days_before_year y + 365 * (y' - y) <= days_before_year y'.
Proof.
  intros [Hy Hyy]. replace y' with (y + (y' - y)) at 2 by lia.
  assert (0 <= y' - y) as Hk by lia. revert Hk.
  generalize (y' - y) as k. clear y' Hyy.
  apply (natlike_ind
           (fun k => days_before_year y + 365 * k
                     <= days_before_year (y + k))).
  - replace (y + 0) with y by lia. lia.
  - intros k Hk IH. replace (y + Z.succ k) with ((y + k) + 1) by lia.
    rewrite days_before_year_succ by lia.
    destruct (is_leap (y + k)); cbn [Z_of_bool]; lia.
Qed.

(** The months of a year, one after the other. *)
Lemma days_before_month_next (y m : Z) :
  1 <= m <= 11 ->
  days_before_month y (m + 1) = days_before_month y m + days_in_month y m.
Proof.
  intros Hm. unfold days_before_month, days_in_month.
  assert (m = 1 \/ m = 2 \/ m = 3 \/ m = 4 \/ m = 5 \/ m = 6 \/ m = 7
          \/ m = 8 \/ m = 9 \/ m = 10 \/ m = 11) as C by lia.
  destruct (is_leap y);
    repeat (destruct C as [-> | C]; [reflexivity|]); subst; reflexivity.
Qed.

Lemma days_before_month_december (y : Z) :
  days_before_month y 12 + 31 = 365 + Z_of_bool (is_leap y).
Proof. unfold days_before_month. now destruct (is_leap y). Qed.

Lemma days_before_month_mono (y m m' : Z) :
  1 <= m -> m < m' -> m' <= 12 ->
  days_before_month y m + days_in_month y m <= days_before_month y m'.
Proof.
  intros H1 H2 H3. replace m' with ((m + 1) + (m' - (m + 1))) by lia.
  assert (0 <= m' - (m + 1)) as Hk by lia.
  assert (m + 1 + (m' - (m + 1)) <= 12) as Hb by lia.
  revert Hk Hb. generalize (m' - (m + 1)) as k. clear m' H2 H3.
  apply (natlike_ind
           (fun k => m + 1 + k <= 12 ->
                     days_before_month y m + days_in_month y m
                     <= days_before_month y (m + 1 + k))).
  - intros Hb. replace (m + 1 + 0) with (m + 1) by lia.
    rewrite days_before_month_next by lia. lia.
  - intros k Hk IH Hb.
    replace (m + 1 + Z.succ k) with ((m + 1 + k) + 1) by lia.
    rewrite days_before_month_next by lia.
    pose proof (days_in_month_bounds y (m + 1 + k) ltac:(lia)).
    specialize (IH ltac:(lia)). lia.
Qed.

Lemma days_before_month_bounds (y m : Z) :
  1 <= m <= 12 ->
  0 <= days_before_month y m
  /\ days_before_month y m + days_in_month y m
     <= 365 + Z_of_bool (is_leap y).
Proof.
  intros Hm. split.
  - unfold days_before_month.
    assert (m = 1 \/ m = 2 \/ m = 3 \/ m = 4 \/ m = 5 \/ m = 6 \/ m = 7
            \/ m = 8 \/ m = 9 \/ m = 10 \/ m = 11 \/ m = 12) as C by lia.
    destruct (is_leap y);
      repeat (destruct C as [-> | C]; [vm_compute; discriminate|]);
      subst; vm_compute; discriminate.
  - destruct (Z.eq_dec m 12) as [-> | N].
    + pose proof (days_before_month_december y).
      pose proof (days_in_month_bounds y 12 ltac:(lia)). lia.
    + pose proof (days_before_month_mono y m 12 ltac:(lia) ltac:(lia)
                    ltac:(lia)).
      pose proof (days_before_month_december y). lia.
Qed.

Lemma toordinal_bounds (d : date) :
  date_ok d = true ->
  days_before_year (year d) + 1 <= toordinal d
  /\ toordinal d <= days_before_year (year d + 1).
Proof.
  intros Hd. apply date_ok_fields in Hd. destruct Hd as (Hy & Hm & Hdd).
  pose proof (days_before_month_bounds (year d) (month d) Hm).
  rewrite days_before_year_succ by lia.
  unfold toordinal, ymd2ord. lia.
Qed.

Lemma toordinal_range (d : date) :
  date_ok d = true -> 1 <= toordinal d <= MAXORDINAL.
Proof.
  intros Hd. pose proof (toordinal_bounds d Hd) as [H1 H2].
  apply date_ok_fields in Hd. destruct Hd as (Hy & _).
  pose proof (days_before_year_mono 1 (year d) ltac:(lia)).
  pose proof (days_before_year_mono (year d + 1) 10000 ltac:(lia)).
  change (days_before_year 1) with 0 in *.
  change (days_before_year 10000) with 3652059 in *.
  unfold MAXORDINAL. lia.
Qed.

(** [toordinal] follows the order of the dates. *)
Lemma toordinal_lt (a b : date) :
  date_ok a = true -> date_ok b = true ->
  lt a b -> toordinal a < toordinal b.
Proof.
  intros Ha Hb H.
  pose proof (toordinal_bounds a Ha) as [A1 A2].
  pose proof (toordinal_bounds b Hb) as [B1 B2].
  apply date_ok_fields in Ha, Hb.
  destruct Ha as (Hya & Hma & Hda), Hb as (Hyb & Hmb & Hdb).
  destruct H as [Hy | (Ey & [Hm | (Em & Hd)])].
  - pose proof (days_before_year_mono (year a + 1) (year b) ltac:(lia)).
    lia.
  - pose proof (days_before_month_mono (year a) (month a) (month b)
                  ltac:(lia) Hm ltac:(lia)).
    unfold toordinal, ymd2ord. rewrite <- Ey. lia.
  - unfold toordinal, ymd2ord. rewrite Ey, Em. lia.
Qed.

Lemma lt_total (a b : date) : lt a b \/ a = b \/ lt b a.
Proof.
  unfold lt.
  destruct (Z.lt_trichotomy (year a) (year b)) as [H | [H | H]];
    [tauto | | tauto].
  destruct (Z.lt_trichotomy (month a) (month b)) as [H' | [H' | H']];
    [tauto | | intuition lia].
  destruct (Z.lt_trichotomy (day a) (day b)) as [H'' | [H'' | H'']];
    [tauto | | intuition lia].
  right. left. now apply date_eta.
Qed.

Lemma toordinal_inj (a b : date) :
  date_ok a = true -> date_ok b = true ->
  toordinal a = toordinal b -> a = b.
Proof.
  intros Ha Hb E. destruct (lt_total a b) as [H | [H | H]]; trivial.
  - pose proof (toordinal_lt a b Ha Hb H). lia.
  - pose proof (toordinal_lt b a Hb Ha H). lia.
Qed.

Lemma toordinal_le (a b : date) :
  date_ok a = true -> date_ok b = true ->
  (le a b <-> toordinal a <= toordinal b).
Proof.
  intros Ha Hb. split.
  - intros [H | ->]; [|lia]. pose proof (toordinal_lt a b Ha Hb H). lia.
  - intros H. destruct (lt_total a b) as [L | [E | L]].
    + now left.
    + now right.
    + pose proof (toordinal_lt b a Hb Ha L). lia.
Qed.

Lemma month_day_ordinal (n : Z) (leapyear : bool) :
  0 <= n <= 364 ->
  (let m := Z.shiftr (n + 50) 5 in
   let preceding :=
     index DAYS_BEFORE_MONTH m + Z_of_bool ((2 <? m) && leapyear) in
   let '(m, preceding) :=
     if n <? preceding
     then (m - 1,
           preceding
           - (index DAYS_IN_MONTH (m - 1)
              + Z_of_bool ((m - 1 =? 2) && leapyear)))
     else (m, preceding) in
   index DAYS_BEFORE_MONTH m + Z_of_bool ((2 <? m) && leapyear)
   + (n - preceding + 1) =? n + 1)
  = true.
Proof.
  intros Hn.
  assert (All : forallb (fun k : nat =>
            let n := Z.of_nat k in
            forallb (fun leapyear : bool =>
              let m := Z.shiftr (n + 50) 5 in
              let preceding :=
                index DAYS_BEFORE_MONTH m + Z_of_bool ((2 <? m) && leapyear) in
              let '(m, preceding) :=
                if n <? preceding
                then (m - 1,
                      preceding
                      - (index DAYS_IN_MONTH (m - 1)
                         + Z_of_bool ((m - 1 =? 2) && leapyear)))
                else (m, preceding) in
              index DAYS_BEFORE_MONTH m + Z_of_bool ((2 <? m) && leapyear)
              + (n - preceding + 1) =? n + 1)
              [true; false]) (seq 0 365) = true) by (vm_compute; reflexivity).
  rewrite forallb_forall in All.
  specialize (All (Z.to_nat n)).
  rewrite Z2Nat.id in All by lia.
  assert (In (Z.to_nat n) (seq 0 365)) as HIn by (apply in_seq; lia).
  specialize (All HIn). cbv zeta in All.
  rewrite forallb_forall in All.
  assert (HI : In leapyear [true; false]) by (destruct leapyear; simpl; auto).
  cbv zeta. exact (All leapyear HI).
Qed.

(** The ordinal of the date of an ordinal. *)
Lemma toordinal_fromordinal (n : Z) :
  1 <= n <= MAXORDINAL -> toordinal (fromordinal n) = n.
Proof.
  unfold MAXORDINAL. intros Hn. unfold toordinal, fromordinal, ord2ymd.
  set (a := n - 1).
  set (n400 := a / DI400Y). set (b := a mod DI400Y).
  set (n100 := b / DI100Y). set (c := b mod DI100Y).
  set (n4 := c / DI4Y). set (d := c mod DI4Y).
  set (n1 := d / 365). set (e := d mod 365).
  assert (0 <= n400 <= 24 /\ 0 <= b < DI400Y /\ a = DI400Y * n400 + b)
    as (H400 & Hb & Ea).
  { unfold n400, b, DI400Y.
    pose proof (Z.div_mod a 146097 ltac:(lia)).
    pose proof (Z.mod_pos_bound a 146097 ltac:(lia)). unfold a in *.
    repeat split; try lia. }
  assert (0 <= n100 <= 4 /\ 0 <= c < DI100Y /\ b = DI100Y * n100 + c)
    as (H100 & Hc & Eb).
  { unfold n100, c, DI100Y, DI400Y in *.
    pose proof (Z.div_mod b 36524 ltac:(lia)).
    pose proof (Z.mod_pos_bound b 36524 ltac:(lia)). repeat split; try lia. }
  assert (0 <= n4 <= 24 /\ 0 <= d < DI4Y /\ c = DI4Y * n4 + d)
    as (H4 & Hd & Ec).
  { unfold n4, d, DI4Y, DI100Y in *.
    pose proof (Z.div_mod c 1461 ltac:(lia)).
    pose proof (Z.mod_pos_bound c 1461 ltac:(lia)). repeat split; try lia. }
  assert (0 <= n1 <= 4 /\ 0 <= e < 365 /\ d = 365 * n1 + e)
    as (H1 & He & Ed).
  { unfold n1, e, DI4Y in *. pose proof (Z.div_mod d 365 ltac:(lia)).
    pose proof (Z.mod_pos_bound d 365 ltac:(lia)). repeat split; try lia. }
  clearbody n400 b n100 c n4 d n1 e. unfold DI400Y, DI100Y, DI4Y in *.
  assert (En : n = 146097 * n400 + 36524 * n100 + 1461 * n4 + 365 * n1
                   + e + 1) by (unfold a in *; lia).
  clear Ea. clearbody a.
  destruct ((n1 =? 4) || (n100 =? 4)) eqn:Sp.
  - cbn [year month day]. unfold ymd2ord.
    set (Y := n400 * 400 + 1 + (n100 * 100 + n4 * 4 + n1) - 1).
    pose proof (days_before_month_december Y) as D.
    pose proof (days_before_year_succ Y) as S.
    assert (days_before_year (Y + 1)
            = 146097 * n400 + 36524 * n100 + 1461 * n4 + 365 * n1 + e + 1).
    { unfold days_before_year. replace (Y + 1 - 1) with Y by lia.
      apply orb_prop in Sp. unfold Y.
      destruct Sp as [Sp | Sp]; apply Z.eqb_eq in Sp; subst;
        Z.div_mod_to_equations; lia. }
    assert (1 <= Y).
    { apply orb_prop in Sp. unfold Y.
      destruct Sp as [Sp | Sp]; apply Z.eqb_eq in Sp; lia. }
    specialize (S ltac:(lia)). lia.
  - apply orb_false_elim in Sp. destruct Sp as [N1 N100].
    apply Z.eqb_neq in N1, N100.
    pose proof (month_day_ordinal e
                  ((n1 =? 3) && (negb (n4 =? 24) || (n100 =? 3)))
                  ltac:(lia)) as MD.
    cbv zeta in MD.
    destruct (if e <? _ then _ else _) as [m p].
    cbn [year month day]. unfold ymd2ord, days_before_month.
    rewrite is_leap_cycle by lia. apply Z.eqb_eq in MD.
    assert (days_before_year (n400 * 400 + 1 + (n100 * 100 + n4 * 4 + n1))
            = 146097 * n400 + 36524 * n100 + 1461 * n4 + 365 * n1).
    { unfold days_before_year. Z.div_mod_to_equations. lia. }
    lia.
Qed.

Lemma fromordinal_toordinal (d : date) :
  date_ok d = true -> fromordinal (toordinal d) = d.
Proof.
  intros Hd. pose proof (toordinal_range d Hd) as R.
  apply toordinal_inj; trivial.
  - now apply ord2ymd_ok.
  - now apply toordinal_fromordinal.
Qed.

End Ordinals.

(** ** Adding days *)

Section AddDays.

Lemma add_days_ordinal (d e : date) (n : Z) :
  add_days d n = Ok e ->
  1 <= toordinal d + n <= MAXORDINAL
  /\ e = fromordinal (toordinal d + n)
  /\ toordinal e = toordinal d + n.
Proof.
  unfold add_days.
  destruct ((0 <? toordinal d + n) && (toordinal d + n <=? MAXORDINAL))
    eqn:E; [|discriminate].
  intros [= <-]. apply andb_prop in E. destruct E as [E1 E2].
  apply Z.ltb_lt in E1. apply Z.leb_le in E2.
  repeat split; try lia. apply toordinal_fromordinal. lia.
Qed.

Lemma add_days_in_range (d : date) (n : Z) :
  1 <= toordinal d + n <= MAXORDINAL ->
  add_days d n = Ok (fromordinal (toordinal d + n)).
Proof.
  intros H. unfold add_days.
  replace (0 <? toordinal d + n) with true by (symmetry; apply Z.ltb_lt; lia).
  replace (toordinal d + n <=? MAXORDINAL) with true
    by (symmetry; apply Z.leb_le; lia).
  reflexivity.
Qed.

(** Within a year the date reached lies in the same or in the next
    calendar year. *)
Lemma add_days_year (d e : date) (n : Z) :
  date_ok d = true -> 0 <= n <= 365 -> add_days d n = Ok e ->
  le d e /\ year d <= year e <= year d + 1.
Proof.
  intros Hd Hn Hadd. pose proof (add_days_ok _ _ _ Hadd) as He.
  apply add_days_ordinal in Hadd. destruct Hadd as (_ & _ & Ho).
  assert (le d e) as L by (apply toordinal_le; trivial; lia).
  split; [exact L|].
  pose proof (toordinal_bounds d Hd) as [D1 D2].
  pose proof (toordinal_bounds e He) as [E1 E2].
  pose proof (date_ok_fields _ Hd) as (Hyd & _).
  pose proof (date_ok_fields _ He) as (Hye & _).
  split.
  - destruct L as [[L | (L & _)] | ->]; lia.
  - destruct (Z_le_gt_dec (year e) (year d + 1)) as [|G]; trivial.
    pose proof (days_before_year_mono (year d + 1) (year e) ltac:(lia)).
    lia.
Qed.

End AddDays.

(** ** The window, day by day *)

Section WindowDays.

Import WindowSpec.

Lemma with_year_ok (b : date) (y : Z) :
  date_ok b = true -> 1 <= y <= 9999 -> ~ feb29_missing b y ->
  date_ok (with_year b y) = true.
Proof.
  intros Hb Hy N. pose proof (replace_year_ok b y Hb Hy N) as R.
  unfold replace_year, date_new in R. unfold date_ok, with_year.
  cbn [year month day].
  destruct (check_date_fields y (month b) (day b)); [reflexivity|].
  discriminate R.
Qed.

Lemma same_day_with_year (b x : date) :
  month x = month b -> day x = day b -> x = with_year b (year x).
Proof. intros Hm Hd. apply date_eta; cbn; congruence. Qed.

Lemma le_year (a b : date) : le a b -> year a <= year b.
Proof. intros [[H | [H _]] | ->]; lia. Qed.

Lemma lt_le_false (a b : date) : lt a b -> le b a -> False.
Proof. unfold le, lt. intros H [H' | ->]; lia. Qed.

(** A window within two calendar years holds the adjusted birthday exactly
    when it holds a date with the month and the day of the birthday. *)
Lemma in_window_dates (b today end_ : date) :
  date_ok b = true -> date_ok today = true -> date_ok end_ = true ->
  year end_ <= year today + 1 ->
  (forall y, In y (target_years b today end_) -> ~ feb29_missing b y) ->
  in_window b today end_
  <-> exists x,
        date_ok x = true /\ le today x /\ le x end_
        /\ month x = month b /\ day x = day b.
Proof.
  intros Hb Ht He Hy Hfeb.
  pose proof (date_ok_fields _ Ht) as (Hty & _).
  pose proof (date_ok_fields _ He) as (Hey & _).
  unfold in_window, adjusted, target_years in *.
  destruct (readjustedb b today end_) eqn:R.
  - split.
    + intros [H1 H2]. exists (with_year b (year end_)).
      repeat split; trivial.
      apply with_year_ok; trivial. apply Hfeb. right. now left.
    + intros (x & Hx & H1 & H2 & Hm & Hd).
      unfold readjustedb in R. apply andb_prop in R. destruct R as [R1 R2].
      apply ltb_lt in R1. apply negb_true_iff, Z.eqb_neq in R2.
      rewrite (same_day_with_year b x Hm Hd) in H1, H2.
      pose proof (le_year _ _ H1) as Y1. pose proof (le_year _ _ H2) as Y2.
      cbn [year with_year] in Y1, Y2.
      assert (year x = year end_) as Ex;
        [|rewrite Ex in H1, H2; now split].
      destruct (Z.eq_dec (year x) (year end_)) as [|N]; trivial.
      assert (year x = year today) as E by lia. rewrite E in H1.
      exfalso. exact (lt_le_false _ _ R1 H1).
  - split.
    + intros [H1 H2]. exists (with_year b (year today)).
      repeat split; trivial.
      apply with_year_ok; trivial. apply Hfeb. now left.
    + intros (x & Hx & H1 & H2 & Hm & Hd).
      rewrite (same_day_with_year b x Hm Hd) in H1, H2.
      pose proof (le_year _ _ H1) as Y1. pose proof (le_year _ _ H2) as Y2.
      cbn [year with_year] in Y1, Y2.
      destruct (Z.eq_dec (year x) (year today)) as [E | N].
      * rewrite E in H1, H2. now split.
      * unfold readjustedb in R. apply andb_false_iff in R.
        assert (year today <> year end_) by lia.
        destruct R as [R | R];
          [|apply negb_false_iff, Z.eqb_eq in R; contradiction].
        apply ltb_false_le in R. split; [exact R|].
        left. left. cbn [year with_year]. lia.
Qed.

Lemma window_dates_days (today end_ : date) (n : Z) (P : date -> Prop) :
  date_ok today = true -> add_days today n = Ok end_ ->
  (exists x, date_ok x = true /\ le today x /\ le x end_ /\ P x)
  <-> exists k x, 0 <= k <= n /\ add_days today k = Ok x /\ P x.
Proof.
  intros Ht Hadd. pose proof (add_days_ok _ _ _ Hadd) as He.
  pose proof (add_days_ordinal _ _ _ Hadd) as (Hr & _ & Ho).
  pose proof (toordinal_range today Ht) as Rt.
  split.
  - intros (x & Hx & H1 & H2 & HP).
    apply toordinal_le in H1, H2; trivial.
    exists (toordinal x - toordinal today), x. split; [lia|].
    split; [|exact HP].
    rewrite add_days_in_range by lia.
    replace (toordinal today + (toordinal x - toordinal today))
      with (toordinal x) by lia.
    now rewrite fromordinal_toordinal.
  - intros (k & x & Hk & Hx & HP).
    pose proof (add_days_ok _ _ _ Hx) as Hxo.
    apply add_days_ordinal in Hx. destruct Hx as (_ & _ & Hox).
    exists x. repeat split; trivial; apply toordinal_le; trivial; lia.
Qed.

Lemma is_valid_date_true_days (b today end_ : date) (n : Z) :
  date_ok b = true ->
  date_ok today = true ->
  0 <= n <= 365 ->
  add_days today n = Ok end_ ->
  (forall y, In y (target_years b today end_) -> ~ feb29_missing b y) ->
  is_valid_date b today end_ = Ok true
  <-> exists k x,
        0 <= k <= n /\ add_days today k = Ok x
        /\ month x = month b /\ day x = day b.
Proof.
  intros Hb Ht Hn Hadd Hfeb.
  pose proof (add_days_ok _ _ _ Hadd) as He.
  pose proof (add_days_year _ _ _ Ht Hn Hadd) as (_ & _ & Hy).
  rewrite (is_valid_date_returns b today end_ Hb Ht He Hfeb).
  rewrite <- (window_dates_days today end_ n
                (fun x => month x = month b /\ day x = day b) Ht Hadd).
  rewrite <- (in_window_dates b today end_ Hb Ht He Hy Hfeb).
  unfold in_window. rewrite <- !leb_le, <- andb_true_iff.
  split; [now intros [= ->] | now intros ->].
Qed.

(** X9. For a window of at most a year that starts at [today], and unless
    the birthday is a 29 February that a target year lacks,
    [is_valid_date] returns, and it returns true exactly when one of the
    days [today], [today] + 1, ..., [today] + [n] has the month and the day
    of the birthday. *)
Theorem is_valid_date_days (b today end_ : date) (n : Z) :
  date_ok b = true ->
  date_ok today = true ->
  0 <= n <= 365 ->
  add_days today n = Ok end_ ->
  (forall y, In y (target_years b today end_) -> ~ feb29_missing b y) ->
  exists r : bool,
    is_valid_date b today end_ = Ok r
    /\ (r = true
        <-> exists k x,
              0 <= k <= n /\ add_days today k = Ok x
              /\ month x = month b /\ day x = day b).
Proof.
  intros Hb Ht Hn Hadd Hfeb.
  pose proof (add_days_ok _ _ _ Hadd) as He.
  pose proof (is_valid_date_returns b today end_ Hb Ht He Hfeb) as R.
  exists (leb today (adjusted b today end_)
          && leb (adjusted b today end_) end_).
  split; [exact R|].
  rewrite <- (is_valid_date_true_days b today end_ n Hb Ht Hn Hadd Hfeb).
  rewrite R. split; [now intros -> | now intros [= ->]].
Qed.

Lemma is_valid_date_days_sample :
  exists r : bool,
    is_valid_date (mkdate 1985 1 3) (mkdate 2024 12 29) (mkdate 2025 1 5)
    = Ok r
    /\ (r = true
        <-> exists k x,
              0 <= k <= 7 /\ add_days (mkdate 2024 12 29) k = Ok x
              /\ month x = 1 /\ day x = 3).
Proof.
  apply (is_valid_date_days (mkdate 1985 1 3) (mkdate 2024 12 29)
           (mkdate 2025 1 5) 7).
  - reflexivity.
  - reflexivity.
  - lia.
  - reflexivity.
  - intros y _ (Hm & _). discriminate Hm.
Defined.

(** [is_valid_date] raises nothing but [ValueError]. *)
Lemma is_valid_date_raises (b today end_ : date) (e : exn) :
  is_valid_date b today end_ = Raise e -> exists msg, e = ValueError msg.
Proof.
  unfold is_valid_date, replace_year, date_new.
  destruct (check_date_fields (year today) (month b) (day b));
    cbn [rbind]; [|intros [= <-]; eauto].
  destruct (ltb _ _ && negb _); cbn [year month day].
  - destruct (check_date_fields (year end_) (month b) (day b));
      cbn [rbind]; [|intros [= <-]; eauto].
    destruct (_ && _); discriminate.
  - cbn [rbind]. destruct (_ && _); discriminate.
Qed.

(** X10. A birthday on 29 February makes [is_valid_date] raise
    [ValueError] whenever the year of [start] is not a leap year, whatever
    the window. *)
Theorem is_valid_date_feb29_raises (b start end_ : date) :
  month b = 2 -> day b = 29 -> is_leap (year start) = false ->
  exists msg, is_valid_date b start end_ = Raise (ValueError msg).
Proof.
  intros Hm Hd Hl. eexists.
  apply is_valid_date_feb29. now repeat split.
Qed.

Lemma is_valid_date_feb29_raises_sample :
  exists msg,
    is_valid_date (mkdate 2000 2 29) (mkdate 2023 2 25) (mkdate 2023 3 4)
    = Raise (ValueError msg).
Proof.
  apply (is_valid_date_feb29_raises (mkdate 2000 2 29)); reflexivity.
Defined.

End WindowDays.

(** ** The query [birthdays], day by day *)

Section BirthdaysDays.

Import AddressBook Invariant.

Lemma add_days_week (today : date) :
  date_ok today = true -> year today < 9999 ->
  exists end_, add_days today 7 = Ok end_.
Proof.
  intros Ht Hy. pose proof (toordinal_range today Ht) as R.
  pose proof (toordinal_bounds today Ht) as [_ B].
  pose proof (date_ok_fields _ Ht) as (Hty & _).
  pose proof (days_before_year_mono (year today + 1) 9999 ltac:(lia)).
  change (days_before_year 9999) with 3651694 in *.
  eexists. apply add_days_in_range. unfold MAXORDINAL in *. lia.
Qed.

Lemma in_upcoming (today end_ : date) (records : list Record_.t)
    (n : Name.t) (d : date) :
  In (n, d) (Spec.upcoming today end_ records)
  <-> exists r,
        In r records /\ Record_.name r = n
        /\ Record_.birthday r = Some (Birthday.mk d)
        /\ is_valid_date d today end_ = Ok true.
Proof.
  unfold Spec.upcoming. rewrite in_flat_map. split.
  - intros (r & Hr & H). exists r. split; [exact Hr|].
    destruct (Record_.birthday r) as [[d']|]; [|contradiction].
    cbn [Birthday.value] in H.
    destruct (is_valid_date d' today end_) as [[|]|e] eqn:V;
      try contradiction.
    destruct H as [[= <- <-] | []]. now repeat split.
  - intros (r & Hr & Hn & Hb & V). exists r. split; [exact Hr|].
    rewrite Hb. cbn [Birthday.value]. rewrite V, Hn. now left.
Qed.

(** X11. The entries the query returns are the records with a birthday for
    which the window test says true, each with its name and its stored
    date; a record without a birthday is never among them. *)
Theorem birthdays_entries (today : date) (book : AddressBook.t)
    (res : list (Name.t * date)) :
  fst (birthdays today book) = Ok res ->
  exists end_,
    add_days today 7 = Ok end_
    /\ forall n d,
         In (n, d) res
         <-> exists r,
               In r (dict_values (data book)) /\ Record_.name r = n
               /\ Record_.birthday r = Some (Birthday.mk d)
               /\ is_valid_date d today end_ = Ok true.
Proof.
  intros H. apply birthdays_result in H. destruct H as (end_ & Hadd & ->).
  exists end_. split; [exact Hadd|]. intros n d.
  rewrite <- in_upcoming. split; apply Permutation_in.
  - apply sort_perm.
  - symmetry. apply sort_perm.
Qed.

Lemma birthdays_entries_sample :
  exists end_,
    add_days Sample.today 7 = Ok end_
    /\ forall n d,
         In (n, d)
           [(Name.mk "Anna", mkdate 1990 6 5);
            (Name.mk "Boris", mkdate 1995 6 3)]
         <-> exists r,
               In r (dict_values (data Sample.book)) /\ Record_.name r = n
               /\ Record_.birthday r = Some (Birthday.mk d)
               /\ is_valid_date d Sample.today end_ = Ok true.
Proof.
  apply (birthdays_entries Sample.today Sample.book). reflexivity.
Defined.

Lemma book_ok_values (book : AddressBook.t) (r : Record_.t) :
  book_ok book -> In r (dict_values (data book)) -> record_ok r.
Proof.
  intros [_ He] H. unfold dict_values in H. apply in_map_iff in H.
  destruct H as ([k r'] & <- & H). rewrite Forall_forall in He.
  exact (proj2 (He _ H)).
Qed.

(** X12. For a well-formed directory in which nobody is born on
    29 February, and a date [today] before the year 9999, the query
    returns, leaves the directory as it is, and lists exactly the records
    whose birthday has the month and the day of one of the eight days from
    [today] to [today] + 7, in ascending order of the stored date. *)
Theorem birthdays_next_seven_days (today : date) (book : AddressBook.t) :
  book_ok book ->
  date_ok today = true ->
  year today < 9999 ->
  (forall r b,
     In r (dict_values (data book)) -> Record_.birthday r = Some b ->
     ~ (month (Birthday.value b) = 2 /\ day (Birthday.value b) = 29)) ->
  exists res,
    birthdays today book = (Ok res, book)
    /\ Sorted Spec.by_stored_date res
    /\ forall n d,
         In (n, d) res
         <-> exists r,
               In r (dict_values (data book)) /\ Record_.name r = n
               /\ Record_.birthday r = Some (Birthday.mk d)
               /\ exists k x,
                    0 <= k <= 7 /\ add_days today k = Ok x
                    /\ month x = month d /\ day x = day d.
Proof.
  intros Hbook Ht Hy Hfeb.
  destruct (add_days_week today Ht Hy) as [end_ Hadd].
  assert (forall r b,
            In r (dict_values (data book)) -> Record_.birthday r = Some b ->
            date_ok (Birthday.value b) = true
            /\ forall y,
                 In y (WindowSpec.target_years (Birthday.value b) today end_)
                 -> ~ WindowSpec.feb29_missing (Birthday.value b) y) as Hrec.
  { intros r b Hr Hb. split.
    - pose proof (book_ok_values book r Hbook Hr) as [_ Hd].
      now rewrite Hb in Hd.
    - intros y _ (Hm & Hd & _). now apply (Hfeb r b Hr Hb). }
  eexists. split; [now apply (birthdays_returns today end_)|].
  split; [apply (sort_sorted snd)|]. intros n d. split.
  - intros H. apply (Permutation_in _ (sort_perm snd _)) in H.
    apply in_upcoming in H. destruct H as (r & Hr & Hn & Hb & V).
    exists r. repeat split; trivial.
    destruct (Hrec r _ Hr Hb) as [Hd Hf]. cbn [Birthday.value] in *.
    now apply (is_valid_date_true_days d today end_ 7 Hd Ht ltac:(lia)
                 Hadd Hf).
  - intros (r & Hr & Hn & Hb & Hk).
    apply (Permutation_in _ (Permutation_sym (sort_perm snd _))).
    apply in_upcoming. exists r. repeat split; trivial.
    destruct (Hrec r _ Hr Hb) as [Hd Hf]. cbn [Birthday.value] in *.
    now apply (is_valid_date_true_days d today end_ 7 Hd Ht ltac:(lia)
                 Hadd Hf).
Qed.

Lemma birthdays_next_seven_days_sample :
  exists res,
    birthdays Sample.today Sample.book = (Ok res, Sample.book)
    /\ Sorted Spec.by_stored_date res
    /\ forall n d,
         In (n, d) res
         <-> exists r,
               In r (dict_values (data Sample.book)) /\ Record_.name r = n
               /\ Record_.birthday r = Some (Birthday.mk d)
               /\ exists k x,
                    0 <= k <= 7 /\ add_days Sample.today k = Ok x
                    /\ month x = month d /\ day x = day d.
Proof.
  apply (birthdays_next_seven_days Sample.today Sample.book).
  - exact book_ok_sample.
  - reflexivity.
  - reflexivity.
  - intros r b [<- | [<- | []]] [= <-] [Hm _]; discriminate Hm.
Defined.

Lemma birthdays_step_raises (today end_ : date) (r : Record_.t)
    (acc : list (Name.t * date)) (book book' : AddressBook.t) (e : exn) :
  birthdays_step today end_ r acc book = (Raise e, book') ->
  exists msg, e = ValueError msg.
Proof.
  unfold birthdays_step, bind, lift, ret.
  destruct (Record_.birthday r) as [b|]; [|discriminate].
  destruct (is_valid_date (Birthday.value b) today end_) as [[|]|e'] eqn:V;
    try discriminate.
  intros [= <- _]. now apply is_valid_date_raises in V.
Qed.

Lemma birthdays_loop_raises (today end_ : date)
    (records : list Record_.t) :
  (exists r b,
     In r records /\ Record_.birthday r = Some b
     /\ WindowSpec.feb29_missing (Birthday.value b) (year today)) ->
  forall (acc : list (Name.t * date)) (book : AddressBook.t),
    exists msg,
      for_each records (birthdays_step today end_) acc book
      = (Raise (ValueError msg), book).
Proof.
  induction records as [|r0 records IH]; intros (r & b & Hr & Hb & Hf).
  - destruct Hr.
  - intros acc book. cbn [for_each]. unfold bind.
    destruct (birthdays_step_run today end_ r0 acc book) as [S | [e S]].
    + rewrite S. destruct Hr as [-> | Hr].
      * exfalso. unfold birthdays_step, bind, lift in S. rewrite Hb in S.
        rewrite (is_valid_date_feb29 _ _ _ Hf) in S. discriminate S.
      * apply IH. now exists r, b.
    + rewrite S. apply birthdays_step_raises in S. destruct S as [msg ->].
      now exists msg.
Qed.

(** X13. One record born on 29 February makes the whole query raise
    [ValueError] in every year that is not a leap year, whatever the other
    records are; the directory is left as it is. *)
Theorem birthdays_feb29_raises (today : date) (book : AddressBook.t)
    (r : Record_.t) (b : Birthday.t) :
  date_ok today = true ->
  year today < 9999 ->
  is_leap (year today) = false ->
  In r (dict_values (data book)) ->
  Record_.birthday r = Some b ->
  month (Birthday.value b) = 2 ->
  day (Birthday.value b) = 29 ->
  exists msg, birthdays today book = (Raise (ValueError msg), book).
Proof.
  intros Ht Hy Hl Hr Hb Hm Hd.
  destruct (add_days_week today Ht Hy) as [end_ Hadd].
  unfold birthdays, bind, lift, get, ret. rewrite Hadd.
  destruct (birthdays_loop_raises today end_ (dict_values (data book)))
    with (acc := @nil (Name.t * date)) (book := book) as [msg E].
  - exists r, b. now repeat split.
  - rewrite E. now exists msg.
Qed.

Lemma birthdays_feb29_raises_sample :
  exists msg,
    birthdays (mkdate 2023 2 25)
      (snd (add_record Sample.carol Sample.book))
    = (Raise (ValueError msg), snd (add_record Sample.carol Sample.book)).
Proof.
  apply (birthdays_feb29_raises (mkdate 2023 2 25) _ Sample.carol
           (Birthday.mk (mkdate 2000 2 29))); try reflexivity.
  cbn. right. right. left. reflexivity.
Defined.

End BirthdaysDays.
(** ** The commands *)

Section CommandFacts.

Import AddressBook Invariant Commands.

Lemma book_eta (book : AddressBook.t) : mk (data book) = book.
Proof. now destruct book. Qed.

Lemma dict_set_same {V : Type} (k : string) (v : V) (d : dict V) :
  dict_get k d = Some v -> dict_set k v d = d.
Proof.
  induction d as [|[k' v'] d IH]; cbn; [discriminate|].
  destruct (str_eqb_spec k' k) as [E | N].
  - now intros [= ->].
  - intros H. now rewrite IH.
Qed.

Lemma on_record_run {A : Type} (key : string) (record : Record_.t)
    (method : M Record_.t A) (book : AddressBook.t) :
  on_record key record method book
  = (outcome_of (fst (method record)),
     mk (dict_set key (snd (method record)) (data book))).
Proof. unfold on_record. now destruct (method record). Qed.

Lemma add_phone_run (r : Record_.t) (phone : string) :
  Record_.add_phone phone r
  = if Spec.ten_digits phone
    then (Ok tt,
          Record_.mk (Record_.name r)
            (Record_.phones r ++ [Phone.mk phone])%list
            (Record_.birthday r))
    else (Raise (ValueError "Phone must contain exactly 10 digits."), r).
Proof.
  unfold Record_.add_phone, bind, lift, get, put, Phone.init.
  rewrite validate_ten_digits. now destruct (Spec.ten_digits phone).
Qed.

Lemma add_contact_run_new (book : AddressBook.t) (name phone : string)
    (rest : list string) :
  dict_get name (data book) = None ->
  add_contact (name :: phone :: rest) book
  = if Spec.ten_digits phone
    then (Done "Contact added.",
          mk (data book
              ++ [(name,
                   Record_.mk (Name.mk name) [Phone.mk phone] None)])%list)
    else (Done "Phone must contain exactly 10 digits.",
          mk (data book ++ [(name, Record_.init name)])%list).
Proof.
  intros G.
  unfold add_contact, input_error, add_contact_func, hbind, of_M, find,
    add_record, bind, get, put, ret, hret.
  cbn [outcome_of]. rewrite G.
  cbn [outcome_of Name.value Record_.name Record_.init Name.init].
  rewrite on_record_run, add_phone_run. cbn [data].
  rewrite dict_set_set, dict_set_absent_last by exact G.
  now destruct (Spec.ten_digits phone).
Qed.

Lemma add_contact_run_old (book : AddressBook.t) (name phone : string)
    (rest : list string) (r : Record_.t) :
  dict_get name (data book) = Some r ->
  add_contact (name :: phone :: rest) book
  = if Spec.ten_digits phone
    then (Done "Contact updated.",
          mk (dict_set name
                (Record_.mk (Record_.name r)
                   (Record_.phones r ++ [Phone.mk phone])%list
                   (Record_.birthday r))
                (data book)))
    else (Done "Phone must contain exactly 10 digits.", book).
Proof.
  intros G.
  unfold add_contact, input_error, add_contact_func, hbind, of_M, find,
    bind, get, ret, hret.
  cbn [outcome_of]. rewrite G.
  rewrite on_record_run, add_phone_run.
  destruct (Spec.ten_digits phone); cbn [fst snd outcome_of];
    [reflexivity|].
  now rewrite (dict_set_same _ _ _ G), book_eta.
Qed.

(** X14. [add_contact] with a name and a phone.  For a name the directory
    does not have, a record with that name is added last, with the phone
    when it is ten decimal digits, of any script (reply "Contact added."),
    and without any phone otherwise: the reply is then the text of the
    error, and the empty record stays.  For a name it has, the phone is added after the phones
    of that record (reply "Contact updated."), or the directory is left as
    it is when the phone is not valid.  Further arguments are ignored. *)
Theorem add_contact_cases (book : AddressBook.t) (name phone : string)
    (rest : list string) :
  add_contact (name :: phone :: rest) book
  = match dict_get name (data book), Spec.ten_digits phone with
    | None, true =>
        (Done "Contact added.",
         mk (data book
             ++ [(name, Record_.mk (Name.mk name) [Phone.mk phone] None)])%list)
    | None, false =>
        (Done "Phone must contain exactly 10 digits.",
         mk (data book ++ [(name, Record_.init name)])%list)
    | Some r, true =>
        (Done "Contact updated.",
         mk (dict_set name
               (Record_.mk (Record_.name r)
                  (Record_.phones r ++ [Phone.mk phone])%list
                  (Record_.birthday r))
               (data book)))
    | Some r, false => (Done "Phone must contain exactly 10 digits.", book)
    end.
Proof.
  destruct (dict_get name (data book)) as [r|] eqn:G.
  - rewrite (add_contact_run_old book name phone rest r G).
    now destruct (Spec.ten_digits phone).
  - rewrite (add_contact_run_new book name phone rest G).
    now destruct (Spec.ten_digits phone).
Qed.

(** X15. What a failed [add_contact] leaves behind shows in the next
    call: after a phone that is not ten decimal digits was given for a new
    name, [find] finds an empty record under that name, and [add_contact]
    with a phone of ten decimal digits for it answers "Contact updated.",
    not "Contact added.". *)
Theorem add_contact_retry (book : AddressBook.t) (name bad good : string) :
  dict_get name (data book) = None ->
  Spec.ten_digits bad = false ->
  Spec.ten_digits good = true ->
  let book1 := snd (add_contact [name; bad] book) in
  fst (add_contact [name; bad] book)
  = Done "Phone must contain exactly 10 digits."
  /\ fst (find name book1) = Ok (Some (Record_.init name))
  /\ fst (add_contact [name; good] book1) = Done "Contact updated.".
Proof.
  intros G Hbad Hgood book1. subst book1.
  rewrite (add_contact_run_new book name bad [] G), Hbad.
  cbn [fst snd]. split; [reflexivity|].
  assert (dict_get name (data book ++ [(name, Record_.init name)])%list
          = Some (Record_.init name)) as G1.
  { rewrite <- (dict_set_absent_last name (Record_.init name) (data book) G).
    apply dict_get_set_same. }
  split.
  - unfold find, bind, get, ret. cbn [fst data]. now rewrite G1.
  - unfold add_contact, input_error, add_contact_func, hbind, of_M, find,
      bind, get, ret, hret. cbn [outcome_of data]. rewrite G1.
    rewrite on_record_run, add_phone_run, Hgood. reflexivity.
Qed.

Lemma add_contact_retry_sample :
  let book1 := snd (add_contact ["Dora"; "12345"] Sample.book) in
  fst (add_contact ["Dora"; "12345"] Sample.book)
  = Done "Phone must contain exactly 10 digits."
  /\ fst (find "Dora" book1) = Ok (Some (Record_.init "Dora"))
  /\ fst (add_contact ["Dora"; "1234567890"] book1)
     = Done "Contact updated.".
Proof.
  apply (add_contact_retry Sample.book "Dora" "12345" "1234567890");
    reflexivity.
Defined.

Lemma edit_phone_run (r : Record_.t) (old new : string) :
  (~ In old (map Phone.value (Record_.phones r)) ->
   Record_.edit_phone old new r = (Raise (ValueError "Phone not found"), r))
  /\ (In old (map Phone.value (Record_.phones r)) ->
      Spec.ten_digits new = false ->
      Record_.edit_phone old new r
      = (Raise (ValueError "New phone must contain exactly 10 digits."), r))
  /\ (In old (map Phone.value (Record_.phones r)) ->
      Spec.ten_digits new = true ->
      exists before after,
        Record_.phones r = (before ++ Phone.mk old :: after)%list
        /\ ~ In old (map Phone.value before)
        /\ Record_.edit_phone old new r
           = (Ok tt,
              Record_.mk (Record_.name r)
                (before ++ Phone.mk new :: after)%list
                (Record_.birthday r))).
Proof.
  unfold Record_.edit_phone, Record_.find_phone, bind, get, ret, raise, put.
  rewrite validate_ten_digits.
  destruct (Record_.find_from old (Record_.phones r) 0) as [j|] eqn:F.
  - pose proof (find_from_some _ _ _ _ F)
      as (before & after & Hps & Hb & ->).
    assert (In old (map Phone.value (Record_.phones r))) as HIn.
    { rewrite Hps, map_app. apply in_or_app. right. now left. }
    split; [tauto|]. split; intros _ ->; cbn [negb].
    + reflexivity.
    + exists before, after. repeat split; trivial.
      unfold Record_.set_phones. rewrite Hps. cbn [Nat.add].
      now rewrite set_nth_middle.
  - apply find_from_none in F. split; [reflexivity|]. tauto.
Qed.

(** X16. [change_contact] with a name, an old and a new phone.  For a name
    the directory does not have the reply is "Contact not found."; for a
    record without the old phone it is "Phone not found"; for a new phone
    that is not ten decimal digits, of any script, it is the text of that
    error; in these cases the directory is left as it is.  Otherwise the first entry equal to the old
    phone gets the new value, under the same name and at the same place,
    and the reply is "Phone number updated.". *)
Theorem change_contact_cases (book : AddressBook.t)
    (name old new : string) :
  (dict_get name (data book) = None ->
   change_contact [name; old; new] book = (Done "Contact not found.", book))
  /\ forall r,
       dict_get name (data book) = Some r ->
       (~ In old (map Phone.value (Record_.phones r)) ->
        change_contact [name; old; new] book
        = (Done "Phone not found", book))
       /\ (In old (map Phone.value (Record_.phones r)) ->
           Spec.ten_digits new = false ->
           change_contact [name; old; new] book
           = (Done "New phone must contain exactly 10 digits.", book))
       /\ (In old (map Phone.value (Record_.phones r)) ->
           Spec.ten_digits new = true ->
           exists before after,
             Record_.phones r = (before ++ Phone.mk old :: after)%list
             /\ ~ In old (map Phone.value before)
             /\ change_contact [name; old; new] book
                = (Done "Phone number updated.",
                   mk (dict_set name
                         (Record_.mk (Record_.name r)
                            (before ++ Phone.mk new :: after)%list
                            (Record_.birthday r))
                         (data book)))).
Proof.
  unfold change_contact, input_error, change_contact_func, hbind, of_M, find,
    bind, get, ret, hret, hraise.
  cbn [outcome_of]. split.
  - intros ->. reflexivity.
  - intros r G. rewrite G. rewrite on_record_run.
    destruct (edit_phone_run r old new) as (E1 & E2 & E3).
    split; [|split].
    + intros N. rewrite (E1 N). cbn [fst snd outcome_of].
      now rewrite (dict_set_same _ _ _ G), book_eta.
    + intros HIn Hn. rewrite (E2 HIn Hn). cbn [fst snd outcome_of].
      now rewrite (dict_set_same _ _ _ G), book_eta.
    + intros HIn Hn. destruct (E3 HIn Hn) as (before & after & Hps & Hb & E).
      exists before, after. repeat split; trivial. now rewrite E.
Qed.

(** The four cases on a directory that holds the record of Carol, with
    her two phones; the new number of the last case is written in
    ARABIC-INDIC digits. *)
Lemma change_contact_cases_sample :
  let book := mk [("Carol", Sample.carol)] in
  change_contact ["Zed"; "1234567890"; "0000000000"] book
  = (Done "Contact not found.", book)
  /\ change_contact ["Carol"; "5555555555"; "0000000000"] book
     = (Done "Phone not found", book)
  /\ change_contact ["Carol"; "0987654321"; "12345"] book
     = (Done "New phone must contain exactly 10 digits.", book)
  /\ exists before after,
       Record_.phones Sample.carol
       = (before ++ Phone.mk "0987654321" :: after)%list
       /\ ~ In "0987654321" (map Phone.value before)
       /\ change_contact ["Carol"; "0987654321"; Sample.arabic_indic] book
          = (Done "Phone number updated.",
             mk (dict_set "Carol"
                   (Record_.mk (Record_.name Sample.carol)
                      (before ++ Phone.mk Sample.arabic_indic :: after)%list
                      (Record_.birthday Sample.carol))
                   (data book))).
Proof.
  intros book. split; [|split; [|split]].
  - apply (proj1 (change_contact_cases book "Zed" "1234567890"
                    "0000000000")).
    reflexivity.
  - apply (proj2 (change_contact_cases book "Carol" "5555555555"
                    "0000000000") Sample.carol eq_refl).
    cbn. intros [H | [H | []]]; discriminate H.
  - apply (proj2 (change_contact_cases book "Carol" "0987654321" "12345")
             Sample.carol eq_refl).
    + cbn. right. left. reflexivity.
    + reflexivity.
  - apply (proj2 (change_contact_cases book "Carol" "0987654321"
                    Sample.arabic_indic) Sample.carol eq_refl).
    + cbn. right. left. reflexivity.
    + reflexivity.
Defined.

(** The phones a name has in the directory. *)
Lemma show_phones_run (book : AddressBook.t) (name : string)
    (rest : list string) :
  show_phones (name :: rest) book
  = match dict_get name (data book) with
    | Some r =>
        (Done (Record_.join "; " (map Phone.value (Record_.phones r))), book)
    | None => (Done "Contact not found.", book)
    end.
Proof.
  unfold show_phones, input_error, show_phones_func, hbind, of_M, find,
    bind, get, ret, hret, hraise.
  cbn [outcome_of]. now destruct (dict_get name (data book)).
Qed.

(** X17. After [add_contact] with a phone of ten digits, [show_phones] for
    that name replies with the phones the name had before, in their order,
    followed by the new one, joined by "; ". *)
Theorem add_contact_then_show_phones (book : AddressBook.t)
    (name phone : string) (rest : list string) :
  Spec.ten_digits phone = true ->
  let before :=
    match dict_get name (data book) with
    | Some r => map Phone.value (Record_.phones r)
    | None => []
    end in
  let book' := snd (add_contact (name :: phone :: rest) book) in
  show_phones [name] book'
  = (Done (Record_.join "; " (before ++ [phone])%list), book').
Proof.
  intros Hp before book'. subst before book'.
  rewrite show_phones_run.
  destruct (dict_get name (data book)) as [r|] eqn:G.
  - rewrite (add_contact_run_old book name phone rest r G), Hp.
    cbn [snd data]. rewrite dict_get_set_same. cbn [Record_.phones].
    now rewrite map_app.
  - rewrite (add_contact_run_new book name phone rest G), Hp.
    cbn [snd data].
    rewrite <- (dict_set_absent_last name _ (data book) G), dict_get_set_same.
    reflexivity.
Qed.

Lemma add_contact_then_show_phones_sample :
  show_phones ["Anna"]
    (snd (add_contact ["Anna"; "1234567890"] Sample.book))
  = (Done "1234567890",
     snd (add_contact ["Anna"; "1234567890"] Sample.book)).
Proof.
  apply (add_contact_then_show_phones Sample.book "Anna" "1234567890" []).
  reflexivity.
Defined.

(** X18. After [add_birthday] with a date string [strptime] reads, for a
    name the directory has, the reply is "Birthday added." and
    [show_birthday] replies with the stored date formatted as day.month.year
    on two, two and four digits; this is the string given when that string
    is written as dd.mm.yyyy with a year from 1000 on. *)
Theorem add_birthday_then_show (libc : Strftime.c_library)
    (book : AddressBook.t) (name s : string) (r : Record_.t) (d : date) :
  dict_get name (data book) = Some r ->
  Spec.lenient_format s d ->
  let book' := snd (add_birthday [name; s] book) in
  fst (add_birthday [name; s] book) = Done "Birthday added."
  /\ show_birthday libc [name] book'
     = (Done (Strftime.strftime libc d), book')
  /\ (Spec.fixed_format s d -> 1000 <= year d ->
      Strftime.strftime libc d = s).
Proof.
  intros G L book'. subst book'.
  assert (Record_.add_birthday s r
          = (Ok tt,
             Record_.mk (Record_.name r) (Record_.phones r)
               (Some (Birthday.mk d)))) as E.
  { unfold Record_.add_birthday, bind, lift, get, put.
    now rewrite (proj2 (birthday_init_strptime s d)
                   (strptime_complete s d L)). }
  unfold add_birthday, input_error, add_birthday_func, hbind, of_M, find,
    bind, get, ret, hret, hraise.
  cbn [outcome_of]. rewrite G, on_record_run, E. cbn [fst snd outcome_of].
  split; [reflexivity|]. split.
  - unfold show_birthday, input_error, show_birthday_func, hbind, of_M,
      find, bind, get, ret, hret, hraise.
    cbn [outcome_of data]. rewrite dict_get_set_same. reflexivity.
  - intros (dd & mm & yyyy & -> & Hd & Hm & Hy & Hdate) Hyear.
    apply strftime_fields; auto.
Qed.

Lemma add_birthday_then_show_sample :
  show_birthday Strftime.Glibc ["Anna"]
    (snd (add_birthday ["Anna"; "5.3.1990"] Sample.book))
  = (Done "05.03.1990",
     snd (add_birthday ["Anna"; "5.3.1990"] Sample.book)).
Proof.
  apply (add_birthday_then_show Strftime.Glibc Sample.book "Anna" "5.3.1990"
           Sample.anna (mkdate 1990 3 5)).
  - reflexivity.
  - exists "5", "3", "1990". repeat split; reflexivity.
Defined.

End CommandFacts.

(** ** No command lets an exception through *)

Section CommandsTotal.

Import AddressBook Invariant Commands.

Lemma on_record_ok {A : Type} (key : string) (record : Record_.t)
    (method : M Record_.t A) (book : AddressBook.t) :
  book_ok book ->
  record_ok (snd (method record)) ->
  Name.value (Record_.name (snd (method record))) = key ->
  book_ok (snd (on_record key record method book)).
Proof.
  intros Hb Hr Hn. rewrite on_record_run. cbn [snd]. rewrite <- Hn.
  now apply book_ok_set.
Qed.

Lemma outcome_of_value_error {A : Type} (r : result A) :
  (forall e, r = Raise e -> exists msg, e = ValueError msg) ->
  (exists a, outcome_of r = Done a)
  \/ exists msg, outcome_of r = Fail (Lib (ValueError msg)).
Proof.
  destruct r as [a|e]; intros H; [left; now exists a|].
  right. destruct (H e eq_refl) as [msg ->]. now exists msg.
Qed.

Lemma phone_init_raises (s : string) (e : exn) :
  Phone.init s = Raise e -> exists msg, e = ValueError msg.
Proof.
  unfold Phone.init. destruct (negb (Phone.validate s)); [|discriminate].
  intros [= <-]. eauto.
Qed.

Lemma birthday_init_raises (s : string) (e : exn) :
  Birthday.init s = Raise e -> exists msg, e = ValueError msg.
Proof.
  unfold Birthday.init. destruct (Strptime.strptime s) as [d|[msg|msg]] eqn:E.
  - discriminate.
  - intros [= <-]. eauto.
  - apply strptime_raises in E. destruct E as [msg' E]. discriminate E.
Qed.

Lemma add_phone_raises (r r' : Record_.t) (phone : string) (e : exn) :
  Record_.add_phone phone r = (Raise e, r') -> exists msg, e = ValueError msg.
Proof.
  rewrite add_phone_run. destruct (Spec.ten_digits phone); [discriminate|].
  intros [= <- _]. eauto.
Qed.

Lemma edit_phone_raises (r r' : Record_.t) (old new : string) (e : exn) :
  Record_.edit_phone old new r = (Raise e, r') ->
  exists msg, e = ValueError msg.
Proof.
  unfold Record_.edit_phone, Record_.find_phone, bind, get, ret, raise, put.
  destruct (Record_.find_from old (Record_.phones r) 0);
    [destruct (negb (Phone.validate new))|]; try discriminate;
    intros [= <- _]; eauto.
Qed.

Lemma add_birthday_raises (r r' : Record_.t) (s : string) (e : exn) :
  Record_.add_birthday s r = (Raise e, r') -> exists msg, e = ValueError msg.
Proof.
  unfold Record_.add_birthday, bind, lift, get, put.
  destruct (Birthday.init s) as [b|e'] eqn:E; [discriminate|].
  intros [= <- _]. now apply birthday_init_raises in E.
Qed.

Lemma add_contact_done (book : AddressBook.t) (args : list string) :
  book_ok book ->
  exists reply book',
    add_contact args book = (Done reply, book') /\ book_ok book'.
Proof.
  intros Hb. destruct args as [|name [|phone rest]].
  - now exists "not enough values to unpack (expected at least 2, got 0)",
      book.
  - now exists "not enough values to unpack (expected at least 2, got 1)",
      book.
  - destruct (dict_get name (data book)) as [r|] eqn:G.
    + rewrite (add_contact_run_old book name phone rest r G).
      destruct (book_ok_find book name r Hb G) as [Hn Hr].
      destruct (Spec.ten_digits phone) eqn:E; eexists; eexists;
        (split; [reflexivity|]); trivial.
      rewrite <- Hn.
      apply (book_ok_set book
               (Record_.mk (Record_.name r)
                  (Record_.phones r ++ [Phone.mk phone])%list
                  (Record_.birthday r))); trivial.
      destruct Hr as [Hp Hbd]. split; [|exact Hbd]. cbn [Record_.phones].
      apply Forall_app. split; [exact Hp|]. now repeat constructor.
    + rewrite (add_contact_run_new book name phone rest G).
      rewrite <- !(dict_set_absent_last name _ (data book) G).
      destruct (Spec.ten_digits phone) eqn:E; eexists; eexists;
        (split; [reflexivity|]).
      * apply (book_ok_set book
                 (Record_.mk (Name.mk name) [Phone.mk phone] None)); trivial.
        split; [now repeat constructor | exact I].
      * apply (book_ok_set book (Record_.init name)); trivial.
        apply record_ok_init.
Qed.

Lemma change_contact_done (book : AddressBook.t) (args : list string) :
  book_ok book ->
  exists reply book',
    change_contact args book = (Done reply, book') /\ book_ok book'.
Proof.
  intros Hb. destruct args as [|name [|old [|new [|extra rest]]]];
    try (eexists; eexists; split; [reflexivity | exact Hb]).
  unfold change_contact, input_error, change_contact_func, hbind, of_M, find,
    bind, get, ret, hret, hraise.
  cbn [outcome_of]. destruct (dict_get name (data book)) as [r|] eqn:G;
    [|eexists; eexists; split; [reflexivity | exact Hb]].
  destruct (book_ok_find book name r Hb G) as [Hn Hr].
  pose proof (on_record_ok name r (Record_.edit_phone old new) book Hb
                (proj1 (edit_phone_keeps r old new Hr))) as Hok.
  rewrite (proj2 (edit_phone_keeps r old new Hr)) in Hok.
  specialize (Hok Hn). rewrite on_record_run in *. cbn [snd] in Hok.
  destruct (Record_.edit_phone old new r) as [[[]|e] r'] eqn:E;
    cbn [fst snd outcome_of] in *.
  - eexists; eexists; split; [reflexivity | exact Hok].
  - apply edit_phone_raises in E. destruct E as [msg ->].
    eexists; eexists; split; [reflexivity | exact Hok].
Qed.

Lemma add_birthday_done (book : AddressBook.t) (args : list string) :
  book_ok book ->
  exists reply book',
    add_birthday args book = (Done reply, book') /\ book_ok book'.
Proof.
  intros Hb. destruct args as [|name [|s [|extra rest]]];
    try (eexists; eexists; split; [reflexivity | exact Hb]).
  unfold add_birthday, input_error, add_birthday_func, hbind, of_M, find,
    bind, get, ret, hret, hraise.
  cbn [outcome_of]. destruct (dict_get name (data book)) as [r|] eqn:G;
    [|eexists; eexists; split; [reflexivity | exact Hb]].
  destruct (book_ok_find book name r Hb G) as [Hn Hr].
  pose proof (on_record_ok name r (Record_.add_birthday s) book Hb
                (proj1 (add_birthday_keeps r s Hr))) as Hok.
  rewrite (proj2 (add_birthday_keeps r s Hr)) in Hok.
  specialize (Hok Hn). rewrite on_record_run in *. cbn [snd] in Hok.
  destruct (Record_.add_birthday s r) as [[[]|e] r'] eqn:E;
    cbn [fst snd outcome_of] in *.
  - eexists; eexists; split; [reflexivity | exact Hok].
  - apply add_birthday_raises in E. destruct E as [msg ->].
    eexists; eexists; split; [reflexivity | exact Hok].
Qed.

Lemma show_phones_done (book : AddressBook.t) (args : list string) :
  exists reply, show_phones args book = (Done reply, book).
Proof.
  destruct args as [|name rest]; [now eexists|].
  rewrite show_phones_run. destruct (dict_get name (data book)); now eexists.
Qed.

Lemma show_all_done (libc : Strftime.c_library) (book : AddressBook.t) :
  exists reply, show_all libc book = (Done reply, book).
Proof.
  unfold show_all, input_error, show_all_func.
  destruct (data book); now eexists.
Qed.

Lemma show_birthday_done (libc : Strftime.c_library) (book : AddressBook.t)
    (args : list string) :
  exists reply, show_birthday libc args book = (Done reply, book).
Proof.
  destruct args as [|name rest]; [now eexists|].
  unfold show_birthday, input_error, show_birthday_func, hbind, of_M, find,
    bind, get, ret, hret, hraise.
  cbn [outcome_of]. destruct (dict_get name (data book)) as [r|];
    [|now eexists].
  destruct (Record_.birthday r); now eexists.
Qed.

Lemma birthdays_loop_exn (today end_ : date) (records : list Record_.t) :
  forall (acc : list (Name.t * date)) (book book' : AddressBook.t) (e : exn),
    for_each records (AddressBook.birthdays_step today end_) acc book
    = (Raise e, book') ->
    exists msg, e = ValueError msg.
Proof.
  induction records as [|r records IH]; intros acc book book' e;
    [discriminate|].
  cbn [for_each]. unfold bind.
  destruct (birthdays_step_run today end_ r acc book) as [S | [e' S]];
    rewrite S.
  - apply IH.
  - intros [= <- _]. now apply birthdays_step_raises in S.
Qed.

Lemma birthdays_query_run (today : date) (book : AddressBook.t) :
  (exists res, AddressBook.birthdays today book = (Ok res, book))
  \/ (exists msg,
        AddressBook.birthdays today book = (Raise (ValueError msg), book))
  \/ (add_days today 7 = Raise (OverflowError "date value out of range")
      /\ AddressBook.birthdays today book
         = (Raise (OverflowError "date value out of range"), book)).
Proof.
  unfold AddressBook.birthdays, bind, lift, get, ret.
  destruct (add_days today 7) as [end_|e] eqn:A.
  - destruct (birthdays_loop today end_ (dict_values (data book)) [] book)
      as [L | [e L]]; rewrite L.
    + left. now eexists.
    + right. left. apply birthdays_loop_exn in L. destruct L as [msg ->].
      now exists msg.
  - right. right. unfold add_days in A.
    destruct (_ && _); [discriminate|]. injection A as <-. now split.
Qed.

Lemma birthdays_done (today : date) (book : AddressBook.t) :
  (exists reply, birthdays today book = (Done reply, book))
  \/ (add_days today 7 = Raise (OverflowError "date value out of range")
      /\ birthdays today book
         = (Fail (Lib (OverflowError "date value out of range")), book)).
Proof.
  unfold birthdays, input_error, birthdays_func, hbind, of_M, hret.
  destruct (birthdays_query_run today book) as [[res E] | [[msg E] | [A E]]];
    rewrite E; cbn [outcome_of].
  - left. destruct res; now eexists.
  - left. now eexists.
  - right. now split.
Qed.

(** X19. On a well-formed directory (distinct keys, every record under its
    own name, phones of ten decimal digits of any script, birthdays that
    are calendar dates) no command lets an exception through, except
    [birthdays] past the last week of the calendar: [add_contact],
    [change_contact] and [add_birthday] always reply and keep the directory
    well formed, whatever the arguments and their number; [show_phones],
    [show_all] and [show_birthday] always reply and leave the directory as
    it is; [birthdays] leaves the directory as it is and either replies or
    fails with the [OverflowError] of [today] + 7 days. *)
Theorem commands_reply (libc : Strftime.c_library) (today : date)
    (book : AddressBook.t) (args : list string) :
  book_ok book ->
  (exists reply book',
     add_contact args book = (Done reply, book') /\ book_ok book')
  /\ (exists reply book',
        change_contact args book = (Done reply, book') /\ book_ok book')
  /\ (exists reply book',
        add_birthday args book = (Done reply, book') /\ book_ok book')
  /\ (exists reply, show_phones args book = (Done reply, book))
  /\ (exists reply, show_all libc book = (Done reply, book))
  /\ (exists reply, show_birthday libc args book = (Done reply, book))
  /\ ((exists reply, birthdays today book = (Done reply, book))
      \/ (add_days today 7 = Raise (OverflowError "date value out of range")
          /\ birthdays today book
             = (Fail (Lib (OverflowError "date value out of range")),
                book))).
Proof.
  intros Hb. split; [now apply add_contact_done|].
  split; [now apply change_contact_done|].
  split; [now apply add_birthday_done|].
  split; [apply show_phones_done|].
  split; [apply show_all_done|].
  split; [apply show_birthday_done | apply birthdays_done].
Qed.

Lemma commands_reply_sample :
  (exists reply book',
     add_contact ["Anna"] Sample.book = (Done reply, book')
     /\ book_ok book')
  /\ (exists reply book',
        add_contact ["Dora"; Sample.arabic_indic] Sample.book
        = (Done reply, book')
        /\ book_ok book').
Proof.
  split.
  - apply (commands_reply Strftime.Glibc Sample.today Sample.book ["Anna"]).
    exact book_ok_sample.
  - apply (commands_reply Strftime.Glibc Sample.today Sample.book
             ["Dora"; Sample.arabic_indic]).
    exact book_ok_sample.
Defined.

End CommandsTotal.
(** ** Reading a command line *)

Section ParseInput.

Import Commands.

Lemma append_not_empty (u : string) (a : char) : u ++ [a] <> [].
Proof. destruct u; discriminate. Qed.

Lemma split_words_words (s : string) :
  forall word,
    (word = []
     \/ forallb (fun a => negb (Unicode.is_space a)) word = true) ->
    Forall
      (fun w =>
         w <> []
         /\ forallb (fun a => negb (Unicode.is_space a)) w = true)
      (split_words word s).
Proof.
  induction s as [|a s IH]; intros word Hw; cbn [split_words].
  - destruct word as [|c word]; constructor; [|constructor].
    split; [discriminate|]. destruct Hw as [Hw | Hw]; [discriminate | exact Hw].
  - destruct (Unicode.is_space a) eqn:Sp.
    + destruct word as [|c word]; [apply IH; now left|].
      constructor; [|apply IH; now left].
      split; [discriminate|].
      destruct Hw as [Hw | Hw]; [discriminate | exact Hw].
    + apply IH. right. rewrite forallb_app. cbn [forallb].
      rewrite Sp. cbn [negb andb]. rewrite andb_true_r.
      destruct Hw as [-> | Hw]; [reflexivity | exact Hw].
Qed.

Lemma split_words_nil (s : string) :
  forall word,
    split_words word s = []
    <-> word = [] /\ forallb Unicode.is_space s = true.
Proof.
  induction s as [|a s IH]; intros word; cbn [split_words].
  - destruct word; cbn; intuition discriminate.
  - cbn [forallb].
    destruct (Unicode.is_space a) eqn:Sp; cbn [andb].
    + destruct word as [|c word]; [apply IH|]. intuition discriminate.
    + rewrite IH. split; [|intuition discriminate].
      intros [H _]. now apply append_not_empty in H.
Qed.

Lemma in_lower_range_chars (c : char) (r : char * char * N * char) :
  Unicode.in_lower_range c r = true -> In c (Unicode.lower_range_chars r).
Proof.
  destruct r as [[[first last] step] target].
  unfold Unicode.in_lower_range, Unicode.lower_range_chars. intros H.
  apply andb_prop in H. destruct H as [H H3].
  apply andb_prop in H. destruct H as [H1 H2].
  apply N.leb_le in H1, H2. apply N.eqb_eq in H3.
  apply in_map_iff. exists (N.to_nat ((c - first) / step)). split.
  - rewrite N2Nat.id.
    pose proof (N.Div0.div_mod (c - first) step) as E. rewrite H3 in E.
    revert E. generalize ((c - first) / step)%N. intros x E. lia.
  - apply in_seq. split; [apply Nat.le_0_l|]. cbn [Nat.add].
    pose proof (N.Div0.div_le_mono (c - first) (last - first) step
                  ltac:(lia)) as L.
    revert L. generalize ((c - first) / step)%N ((last - first) / step)%N.
    intros x y L. lia.
Qed.

Lemma find_lower_domain (c : char) (r : char * char * N * char) :
  find (Unicode.in_lower_range c) Unicode.lower_ranges = Some r ->
  In c Unicode.lower_domain.
Proof.
  intros F. apply find_some in F. destruct F as [Hr Hc].
  unfold Unicode.lower_domain. apply in_flat_map. exists r.
  split; [exact Hr | now apply in_lower_range_chars].
Qed.

Lemma lower_domain_lowered :
  forallb (fun c => forallb lowered (Unicode.to_lower_full c))
    Unicode.lower_domain
  = true.
Proof. now vm_compute. Qed.

(** The lower-case mapping of every character gives lowered characters. *)
Lemma to_lower_full_lowered (c : char) :
  forallb lowered (Unicode.to_lower_full c) = true.
Proof.
  destruct (find (Unicode.in_lower_range c) Unicode.lower_ranges)
    as [r|] eqn:F.
  - apply find_lower_domain in F.
    pose proof lower_domain_lowered as L. rewrite forallb_forall in L.
    now apply L.
  - destruct (N.eqb_spec c 304) as [-> | N304]; [now vm_compute|].
    destruct (N.eqb_spec c 931) as [-> | N931]; [now vm_compute in F|].
    assert (Unicode.to_lower_full c = [c]) as E.
    { unfold Unicode.to_lower_full. rewrite F.
      now destruct (N.eqb_spec c 304). }
    rewrite E. cbn [forallb]. unfold lowered. rewrite E, str_eqb_refl.
    now destruct (N.eqb_spec c 931).
Qed.

Lemma lower_from_lowered (s : string) :
  forall before, forallb lowered (lower_from before s) = true.
Proof.
  induction s as [|a s IH]; intros before; cbn [lower_from];
    [reflexivity|].
  rewrite forallb_app, IH, andb_true_r.
  destruct (N.eqb_spec a 931); [|apply to_lower_full_lowered].
  now destruct (final_sigma before s).
Qed.

Lemma lower_from_fixed (s : string) :
  forall before, forallb lowered s = true -> lower_from before s = s.
Proof.
  induction s as [|a s IH]; intros before H; cbn [lower_from];
    [reflexivity|].
  cbn [forallb] in H. apply andb_prop in H. destruct H as [Ha Hs].
  unfold lowered in Ha. apply andb_prop in Ha. destruct Ha as [Ha1 Ha2].
  apply negb_true_iff in Ha1. rewrite Ha1.
  destruct (str_eqb_spec (Unicode.to_lower_full a) [a]) as [-> | N];
    [|discriminate].
  cbn [app]. now rewrite IH.
Qed.

Lemma lower_twice (s : string) : lower (lower s) = lower s.
Proof. unfold lower. apply lower_from_fixed, lower_from_lowered. Qed.

Lemma to_lower_full_not_empty (c : char) : Unicode.to_lower_full c <> [].
Proof.
  unfold Unicode.to_lower_full.
  destruct (c =? 304)%N; [discriminate|].
  destruct (find _ _) as [[[[first last] step] target]|]; discriminate.
Qed.

Lemma lower_not_empty (s : string) : s <> [] -> lower s <> [].
Proof.
  destruct s as [|a s]; [congruence|]. intros _. unfold lower.
  cbn [lower_from]. destruct (a =? 931)%N; [discriminate|].
  pose proof (to_lower_full_not_empty a).
  destruct (Unicode.to_lower_full a); [congruence | discriminate].
Qed.

Lemma parse_input_run (user_input : string) :
  (forallb Unicode.is_space user_input = true
   /\ parse_input user_input = Fail IndexError)
  \/ exists command args, parse_input user_input = Done (command, args).
Proof.
  unfold parse_input, split.
  pose proof (split_words_nil user_input []) as N.
  destruct (split_words [] user_input) as [|word args].
  - left. split; [now apply N | reflexivity].
  - right. now exists (lower word), args.
Qed.

(** X20. [parse_input] raises [IndexError] exactly on the lines made of
    white space only, the empty line included.  On every other line it
    returns the first word in lower case as the command and the other words
    as the arguments; the words are not empty and hold no white space. *)
Theorem parse_input_cases (user_input : string) :
  (forallb Unicode.is_space user_input = true
   /\ parse_input user_input = Fail IndexError)
  \/ (forallb Unicode.is_space user_input = false
      /\ exists word args,
           split user_input = word :: args
           /\ parse_input user_input = Done (lower word, args)
           /\ lower (lower word) = lower word
           /\ lower word <> []
           /\ Forall
                (fun w =>
                   w <> []
                   /\ forallb (fun a => negb (Unicode.is_space a))
                        w = true)
                (word :: args)).
Proof.
  unfold parse_input, split.
  pose proof (split_words_nil user_input []) as N.
  pose proof (split_words_words user_input [] (or_introl eq_refl))
    as W.
  destruct (split_words [] user_input) as [|word args].
  - left. split; [now apply N | reflexivity].
  - right. split.
    + destruct (forallb _ _); [|reflexivity].
      destruct N as [_ N]. now discriminate N.
    + exists word, args. repeat split; trivial.
      * apply lower_twice.
      * apply lower_not_empty. inversion W as [|? ? [H _] _]; exact H.
Qed.

End ParseInput.

(** ** The loop of [main] *)

Section MainLoop.

Import AddressBook Invariant Commands.

Lemma dispatch_done (libc : Strftime.c_library) (now : date)
    (command : string) (args : list string) (book : AddressBook.t) :
  book_ok book ->
  (exists reply book',
     dispatch libc now command args book = (Done reply, book')
     /\ book_ok book')
  \/ (add_days now 7 = Raise (OverflowError "date value out of range")
      /\ dispatch libc now command args book
         = (Fail (Lib (OverflowError "date value out of range")), book)).
Proof.
  intros Hb. unfold dispatch.
  repeat match goal with
         | |- context [if ?c then _ else _] => destruct c
         end.
  - left. now exists "How can I help you?", book.
  - left. now apply add_contact_done.
  - left. now apply change_contact_done.
  - left. destruct (show_phones_done book args) as [reply E].
    now exists reply, book.
  - left. destruct (show_all_done libc book) as [reply E].
    now exists reply, book.
  - left. now apply add_birthday_done.
  - left. destruct (show_birthday_done libc book args) as [reply E].
    now exists reply, book.
  - destruct (birthdays_done now book) as [[reply E] | E].
    + left. now exists reply, book.
    + now right.
  - left. now exists "Invalid command.", book.
Qed.

Lemma loop_endings (libc : Strftime.c_library)
    (inputs : list (string * date)) :
  forall (book book' : AddressBook.t) (out : list output) (e : ending),
    book_ok book ->
    loop libc inputs book = (out, e, book') ->
    book_ok book'
    /\ (e = Break
        \/ e = Uncaught EOFError
        \/ (e = Uncaught IndexError
            /\ exists line now,
                 In (line, now) inputs
                 /\ forallb Unicode.is_space line
                    = true)
        \/ (e = Uncaught (Lib (OverflowError "date value out of range"))
            /\ exists line now,
                 In (line, now) inputs
                 /\ add_days now 7
                    = Raise (OverflowError "date value out of range"))).
Proof.
  induction inputs as [|[line now] inputs IH]; intros book book' out e Hb;
    cbn [loop].
  - intros [= <- <- <-]. split; [exact Hb | tauto].
  - destruct (parse_input_run line) as [[Sp P] | (w & a & P)]; rewrite P.
    + intros [= <- <- <-]. split; [exact Hb|]. right. right. left.
      split; [reflexivity|]. exists line, now. split; [now left | exact Sp].
    + destruct (_ || _).
      * intros [= <- <- <-]. split; [exact Hb | tauto].
      * destruct (dispatch_done libc now w a book Hb)
          as [(reply & book1 & D & Hb1) | [A D]]; rewrite D.
        -- destruct (loop libc inputs book1) as [[out1 e1] book2] eqn:L.
           intros [= <- <- <-].
           destruct (IH _ _ _ _ Hb1 L) as [Hb2 He].
           split; [exact Hb2|].
           destruct He as [He | [He | [[He (l & n & Hin & Hs)]
                                      | [He (l & n & Hin & Hs)]]]];
             [tauto | tauto | right; right; left | right; right; right];
             (split; [exact He|]); exists l, n; (split; [now right | exact Hs]).
        -- intros [= <- <- <-]. split; [exact Hb|]. right. right. right.
           split; [reflexivity|]. exists line, now.
           split; [now left | exact A].
Qed.

(** X21. However [main] is fed, it ends in one of four ways: by [break]
    on the command close or exit, by the [EOFError] of [input] when the
    lines run out, by the [IndexError] of a line of white space only, or by
    the [OverflowError] of [birthdays] when the clock is within the last
    week of the calendar.  No [KeyError], [ValueError] or [TypeError] leaves
    the loop, and the directory it built is well formed: its keys are
    distinct, every record is under its own name, the phones are strings of
    ten decimal digits, of any script, and the birthdays are calendar
    dates. *)
Theorem main_endings (libc : Strftime.c_library)
    (inputs : list (string * date)) (out : list output) (e : ending)
    (book : AddressBook.t) :
  main libc inputs = (out, e, book) ->
  book_ok book
  /\ (e = Break
      \/ e = Uncaught EOFError
      \/ (e = Uncaught IndexError
          /\ exists line now,
               In (line, now) inputs
               /\ forallb Unicode.is_space line
                  = true)
      \/ (e = Uncaught (Lib (OverflowError "date value out of range"))
          /\ exists line now,
               In (line, now) inputs
               /\ add_days now 7
                  = Raise (OverflowError "date value out of range"))).
Proof.
  unfold main.
  destruct (loop libc inputs (mk [])) as [[out1 e1] book1] eqn:L.
  intros [= <- <- <-].
  exact (loop_endings libc inputs _ _ _ _ book_ok_empty L).
Qed.

(** A phone in ARABIC-INDIC digits is taken, one of five digits is not,
    and the loop ends at EXIT. *)
Lemma main_endings_sample :
  book_ok
    (snd (main Strftime.Glibc
            [("add Anna " ++ Sample.arabic_indic, Sample.today);
             ("add Anna 12345", Sample.today);
             ("EXIT", Sample.today)])).
Proof.
  apply (main_endings Strftime.Glibc
           [("add Anna " ++ Sample.arabic_indic, Sample.today);
            ("add Anna 12345", Sample.today);
            ("EXIT", Sample.today)]
           [Printed "Welcome to the assistant bot!";
            Prompted "Enter a command: "; Printed "Contact added.";
            Prompted "Enter a command: ";
            Printed "Phone must contain exactly 10 digits.";
            Prompted "Enter a command: "; Printed "Good bye!"]
           Break).
  reflexivity.
Defined.

(** X22. A line of white space only, the empty line included, ends the
    loop at once with an [IndexError] nothing catches: nothing is printed
    for it, the lines after it are not read, and the directory is as the
    commands before left it. *)
Theorem loop_blank_line (libc : Strftime.c_library) (line : string)
    (now : date) (rest : list (string * date)) (book : AddressBook.t) :
  forallb Unicode.is_space line = true ->
  loop libc ((line, now) :: rest) book
  = ([Prompted "Enter a command: "], Uncaught IndexError, book).
Proof.
  intros Sp. cbn [loop]. unfold parse_input, split.
  now rewrite (proj2 (split_words_nil line []) (conj eq_refl Sp)).
Qed.

Lemma loop_blank_line_sample :
  loop Strftime.Glibc [("  ", Sample.today); ("exit", Sample.today)]
    Sample.book
  = ([Prompted "Enter a command: "], Uncaught IndexError, Sample.book).
Proof. apply loop_blank_line. reflexivity. Defined.

End MainLoop.

(** ** The reply of [birthdays] to a birthday the year lacks *)

Section MissingDay.

Import AddressBook Invariant Commands.

(** Between calendar dates the window test raises with one text only. *)
Lemma is_valid_date_error (b today end_ : date) (e : exn) :
  date_ok b = true -> date_ok today = true -> date_ok end_ = true ->
  is_valid_date b today end_ = Raise e ->
  e = ValueError "day is out of range for month".
Proof.
  intros Hb Ht He.
  pose proof (date_ok_fields _ Hb) as (_ & Hm & _).
  pose proof (date_ok_fields _ Ht) as (Hty & _).
  pose proof (date_ok_fields _ He) as (Hey & _).
  unfold is_valid_date, replace_year, date_new.
  destruct (check_date_fields (year today) (month b) (day b));
    cbn [rbind];
    [|intros [= <-]; now rewrite (date_error_day _ _ _ Hty Hm)].
  destruct (ltb _ _ && negb _); cbn [year month day].
  - destruct (check_date_fields (year end_) (month b) (day b));
      cbn [rbind];
      [|intros [= <-]; now rewrite (date_error_day _ _ _ Hey Hm)].
    destruct (_ && _); discriminate.
  - cbn [rbind]. destruct (_ && _); discriminate.
Qed.

Lemma birthdays_loop_error (today end_ : date) (records : list Record_.t) :
  date_ok today = true -> date_ok end_ = true ->
  Forall record_ok records ->
  forall (acc : list (Name.t * date)) (book book' : AddressBook.t) (e : exn),
    for_each records (birthdays_step today end_) acc book = (Raise e, book') ->
    e = ValueError "day is out of range for month".
Proof.
  intros Ht He. induction records as [|r records IH];
    intros Hr acc book book' e; [discriminate|].
  inversion Hr as [|? ? [_ Hr1] Hr2]; subst.
  cbn [for_each]. unfold bind.
  destruct (birthdays_step_run today end_ r acc book) as [S | [e' S]];
    rewrite S.
  - now apply IH.
  - intros [= <- _]. unfold birthdays_step, bind, lift, ret in S.
    destruct (Record_.birthday r) as [b|]; [|discriminate].
    destruct (is_valid_date (Birthday.value b) today end_) as [[|]|e'']
      eqn:V; try discriminate.
    injection S as <-. exact (is_valid_date_error _ _ _ _ Hr1 Ht He V).
Qed.

(** X25. On a well-formed directory, in a year before 9999 that is not a
    leap year, one record born on 29 February makes the command [birthdays]
    reply with the text of the [ValueError] of [date.replace], "day is out
    of range for month", whatever the other records are and wherever the
    seven days lie; the directory is left as it is. *)
Theorem birthdays_feb29_reply (today : date) (book : AddressBook.t)
    (r : Record_.t) (b : Birthday.t) :
  book_ok book ->
  date_ok today = true ->
  year today < 9999 ->
  is_leap (year today) = false ->
  In r (dict_values (data book)) ->
  Record_.birthday r = Some b ->
  month (Birthday.value b) = 2 ->
  day (Birthday.value b) = 29 ->
  birthdays today book = (Done "day is out of range for month", book).
Proof.
  intros [_ Hbook] Ht Hy Hl Hr Hb Hm Hd.
  destruct (add_days_week today Ht Hy) as [end_ Hadd].
  pose proof (add_days_ok _ _ _ Hadd) as He.
  unfold birthdays, input_error, birthdays_func, hbind, of_M, hret.
  unfold AddressBook.birthdays, bind, lift, get, ret. rewrite Hadd.
  destruct (birthdays_loop_raises today end_ (dict_values (data book)))
    with (acc := @nil (Name.t * date)) (book := book) as [msg E].
  { exists r, b. now repeat split. }
  assert (Forall record_ok (dict_values (data book))) as Hrs.
  { unfold dict_values. apply Forall_map.
    eapply Forall_impl; [|exact Hbook]. now intros entry [_ H]. }
  pose proof (birthdays_loop_error today end_ _ Ht He Hrs _ _ _ _ E) as T.
  rewrite E. cbn [outcome_of]. now injection T as ->.
Qed.

Lemma birthdays_feb29_reply_sample :
  birthdays (mkdate 2023 2 25) (snd (add_record Sample.carol Sample.book))
  = (Done "day is out of range for month",
     snd (add_record Sample.carol Sample.book)).
Proof.
  apply (birthdays_feb29_reply (mkdate 2023 2 25) _ Sample.carol
           (Birthday.mk (mkdate 2000 2 29))); try reflexivity.
  - split.
    + vm_compute. repeat constructor; cbn; intuition discriminate.
    + repeat constructor.
  - cbn. right. right. left. reflexivity.
Defined.

End MissingDay.
